(** * A shallow embedding of [simple_romp/romp/model.py]

    Two levels of the PyTorch program are embedded here.

    - Element level: a tensor is a shape together with its element
      function.  The torch operations used by [get_coord_maps] and
      [BHWC_to_BCHW] ([ones], [arange], [unsqueeze], [matmul], [permute],
      [transpose], [squeeze], [cat], element-wise arithmetic) are written
      out on this representation.  Floating-point values are exact
      rationals extended with the non-finite results of a division by
      zero; rounding is not modelled.

    - Layer level: the [nn.Module] trees built by the constructors of
      [BasicBlock], [Bottleneck], [HighResolutionModule],
      [HigherResolutionNet] and [ROMPv1], and their [forward] methods,
      interpreted over an abstract tensor domain (a type class).  The
      batch-normalisation buffers live in the module tree, so a forward
      pass returns the updated tree (explicit state passing).  The shape
      domain, where a tensor is its shape and every torch shape check is
      written out, is one instance of the class. *)

From Stdlib Require Import Rbase Rfunctions Exp_prop Rpower Qreals Lra.
From Stdlib Require Import List Arith Lia ZArith QArith Lqa Bool.
Import ListNotations.

Set Warnings "-register-all".
Open Scope nat_scope.

(** ** Floating-point values without rounding *)

Inductive fval : Type :=
| Fin (q : Q)
| NaN
| Inf (positive : bool).

Definition fdiv (x y : fval) : fval :=
  match x, y with
  | Fin a, Fin b =>
      if Qeq_bool b 0 then
        if Qeq_bool a 0 then NaN else Inf (Qle_bool 0 a)
      else Fin (a / b)
  | Inf s, Fin b => if Qeq_bool b 0 then Inf s else Inf (Bool.eqb s (Qle_bool 0 b))
  | Fin _, Inf _ => Fin 0
  | _, _ => NaN
  end.

Definition fmul (x y : fval) : fval :=
  match x, y with
  | Fin a, Fin b => Fin (a * b)
  | Inf s, Fin b | Fin b, Inf s =>
      if Qeq_bool b 0 then NaN else Inf (Bool.eqb s (Qle_bool 0 b))
  | Inf s, Inf t => Inf (Bool.eqb s t)
  | _, _ => NaN
  end.

Definition fsub (x y : fval) : fval :=
  match x, y with
  | Fin a, Fin b => Fin (a - b)
  | Inf s, Fin _ => Inf s
  | Fin _, Inf t => Inf (negb t)
  | Inf s, Inf t => if Bool.eqb s t then NaN else Inf s
  | _, _ => NaN
  end.

(** ** Tensors at the element level *)

Record tensor (A : Type) : Type := mk_tensor {
  shape : list nat;
  at_ : list nat -> A
}.
Arguments mk_tensor {A} _ _.
Arguments shape {A} _.
Arguments at_ {A} _ _.

(** Python's negative dimension indices. *)
Definition norm_dim (rank : nat) (d : Z) : nat :=
  if (d <? 0)%Z then Z.to_nat (Z.of_nat rank + d) else Z.to_nat d.

Fixpoint insert_at {A} (p : nat) (a : A) (l : list A) : list A :=
  match p, l with
  | O, _ => a :: l
  | S p', [] => [a]
  | S p', x :: l' => x :: insert_at p' a l'
  end.

Fixpoint remove_at {A} (p : nat) (l : list A) : list A :=
  match p, l with
  | _, [] => []
  | O, _ :: l' => l'
  | S p', x :: l' => x :: remove_at p' l'
  end.

Fixpoint set_at {A} (p : nat) (a : A) (l : list A) : list A :=
  match p, l with
  | _, [] => []
  | O, _ :: l' => a :: l'
  | S p', x :: l' => x :: set_at p' a l'
  end.

Definition swap_at {A} (p q : nat) (d : A) (l : list A) : list A :=
  set_at q (nth p l d) (set_at p (nth q l d) l).

Fixpoint index_of (x : nat) (l : list nat) : nat :=
  match l with
  | [] => 0
  | y :: l' => if Nat.eqb x y then 0 else S (index_of x l')
  end.

Fixpoint list_nat_eqb (a b : list nat) : bool :=
  match a, b with
  | [], [] => true
  | x :: a', y :: b' => Nat.eqb x y && list_nat_eqb a' b'
  | _, _ => false
  end.

(** [torch.ones(sh)] *)
Definition t_ones (sh : list nat) : tensor Z := mk_tensor sh (fun _ => 1%Z).

(** [torch.arange(n)] *)
Definition t_arange (n : nat) : tensor Z :=
  mk_tensor [n] (fun idx => Z.of_nat (nth 0 idx 0)).

(** [t.unsqueeze(d)] *)
Definition t_unsqueeze {A} (t : tensor A) (d : Z) : tensor A :=
  let p := norm_dim (S (length (shape t))) d in
  mk_tensor (insert_at p 1 (shape t)) (fun idx => at_ t (remove_at p idx)).

(** [t.squeeze(d)]: drops dimension [d] only when its size is 1. *)
Definition t_squeeze {A} (t : tensor A) (d : Z) : tensor A :=
  let p := norm_dim (length (shape t)) d in
  if Nat.eqb (nth p (shape t) 0) 1 then
    mk_tensor (remove_at p (shape t)) (fun idx => at_ t (insert_at p 0 idx))
  else t.

(** [t.transpose(a, b)] *)
Definition t_transpose {A} (t : tensor A) (a b : Z) : tensor A :=
  let r := length (shape t) in
  let p := norm_dim r a in
  let q := norm_dim r b in
  mk_tensor (swap_at p q 0 (shape t)) (fun idx => at_ t (swap_at p q 0 idx)).

(** [t.permute(perm)]: output dimension [k] is input dimension [perm[k]]. *)
Definition t_permute {A} (t : tensor A) (perm : list nat) : tensor A :=
  mk_tensor (map (fun k => nth k (shape t) 0) perm)
    (fun idx => at_ t (map (fun p => nth (index_of p perm) idx 0)
                           (seq 0 (length perm)))).

(** [torch.matmul] of two 3-dimensional tensors: a batched matrix
    product, the batch dimension broadcast when it is 1 on one side. *)
Definition t_matmul (a b : tensor Z) : option (tensor Z) :=
  match shape a, shape b with
  | [ba; n; k], [bb; k'; m] =>
      if Nat.eqb k k' && (Nat.eqb ba bb || Nat.eqb ba 1 || Nat.eqb bb 1) then
        Some (mk_tensor [Nat.max ba bb; n; m]
          (fun idx =>
             let bi := nth 0 idx 0 in
             let i := nth 1 idx 0 in
             let j := nth 2 idx 0 in
             let bia := if Nat.eqb ba 1 then 0 else bi in
             let bib := if Nat.eqb bb 1 then 0 else bi in
             fold_left (fun acc l => (acc + at_ a [bia; i; l] * at_ b [bib; l; j])%Z)
               (seq 0 k) 0%Z))
      else None
  | _, _ => None
  end.

Definition t_map {A B} (f : A -> B) (t : tensor A) : tensor B :=
  mk_tensor (shape t) (fun idx => f (at_ t idx)).

(** [torch.cat([a, b], dim=1)] *)
Definition t_cat1 {A} (a b : tensor A) : option (tensor A) :=
  match shape a, shape b with
  | n :: ca :: rest, n' :: cb :: rest' =>
      if Nat.eqb n n' && list_nat_eqb rest rest' then
        Some (mk_tensor (n :: ca + cb :: rest)
          (fun idx => if nth 1 idx 0 <? ca then at_ a idx
                      else at_ b (set_at 1 (nth 1 idx 0 - ca) idx)))
      else None
  | _, _ => None
  end.

(** [get_coord_maps(size)], lines 8-37. *)
Definition get_coord_maps (size : nat) : option (tensor fval) :=
  let xx_ones := t_unsqueeze (t_ones [1; size]) (-1) in
  let xx_range := t_unsqueeze (t_unsqueeze (t_arange size) 0) 1 in
  match t_matmul xx_ones xx_range with
  | None => None
  | Some xx_channel =>
  let xx_channel := t_unsqueeze xx_channel (-1) in
  let yy_ones := t_unsqueeze (t_ones [1; size]) 1 in
  let yy_range := t_unsqueeze (t_unsqueeze (t_arange size) 0) (-1) in
  match t_matmul yy_range yy_ones with
  | None => None
  | Some yy_channel =>
  let yy_channel := t_unsqueeze yy_channel (-1) in
  let xx_channel := t_permute xx_channel [0; 3; 1; 2] in
  let yy_channel := t_permute yy_channel [0; 3; 1; 2] in
  let den := Fin (inject_Z (Z.of_nat size - 1)) in
  let xx_channel := t_map (fun v => fdiv (Fin (inject_Z v)) den) xx_channel in
  let yy_channel := t_map (fun v => fdiv (Fin (inject_Z v)) den) yy_channel in
  let xx_channel := t_map (fun v => fsub (fmul v (Fin 2)) (Fin 1)) xx_channel in
  let yy_channel := t_map (fun v => fsub (fmul v (Fin 2)) (Fin 1)) yy_channel in
  t_cat1 xx_channel yy_channel
  end end.

(** [BHWC_to_BCHW(x)], lines 39-44. *)
Definition BHWC_to_BCHW {A} (x : tensor A) : tensor A :=
  t_squeeze (t_transpose (t_unsqueeze x 1) 1 (-1)) (-1).

(** The input normalisation of [HigherResolutionNet.forward], line 384:
    [((BHWC_to_BCHW(x) / 255.) * 2.0 - 1.0).contiguous()]. *)
Definition normalize_input (x : tensor Q) : tensor Q :=
  t_map (fun v => (v / 255 * 2 - 1)%Q) (BHWC_to_BCHW x).

(** ** Module trees *)

Inductive block_kind : Type := BASIC | BOTTLENECK.

(** The class attribute [expansion] of [BasicBlock] and [Bottleneck]. *)
Definition expansion (b : block_kind) : nat :=
  match b with BASIC => 1 | BOTTLENECK => 4 end.

(** The buffers of an [nn.BatchNorm2d]. *)
Record bn_buf : Type := mk_bn_buf {
  running_mean : list Q;
  running_var : list Q;
  num_batches_tracked : nat
}.

Definition bn_buf_init (c : nat) : bn_buf :=
  mk_bn_buf (repeat 0%Q c) (repeat 1%Q c) 0.

Inductive layer : Type :=
| Conv2d (cin cout kernel stride padding : nat) (bias : bool)
| BatchNorm2d (c : nat) (momentum : Q) (buf : bn_buf)
| ReLU
| Upsample (scale : nat)
| Sequential (ls : list layer)
(** A residual block: [body] is the chain of layers before the residual
    addition, [downsample] the optional projection of the residual. *)
| Block (kind : block_kind) (stride : nat) (body : list layer)
        (downsample : option layer).

Definition BN_MOMENTUM : Q := 1 # 10.

(** [nn.BatchNorm2d(c, momentum=m)]; the default momentum is also 0.1. *)
Definition BN (c : nat) (m : Q) : layer := BatchNorm2d c m (bn_buf_init c).

(** [conv3x3(in_planes, out_planes, stride)] *)
Definition conv3x3 (in_planes out_planes stride : nat) : layer :=
  Conv2d in_planes out_planes 3 stride 1 false.

(** [BasicBlock(inplanes, planes, stride, downsample)] *)
Definition BasicBlock (inplanes planes stride : nat) (downsample : option layer)
  : layer :=
  Block BASIC stride
    [conv3x3 inplanes planes stride; BN planes BN_MOMENTUM; ReLU;
     conv3x3 planes planes 1; BN planes BN_MOMENTUM]
    downsample.

(** [Bottleneck(inplanes, planes, stride, downsample)] *)
Definition Bottleneck (inplanes planes stride : nat) (downsample : option layer)
  : layer :=
  Block BOTTLENECK stride
    [Conv2d inplanes planes 1 1 0 false; BN planes BN_MOMENTUM; ReLU;
     Conv2d planes planes 3 stride 1 false; BN planes BN_MOMENTUM; ReLU;
     Conv2d planes (planes * 4) 1 1 0 false; BN (planes * 4) BN_MOMENTUM]
    downsample.

(** [blocks_dict[...]] applied to the constructor arguments. *)
Definition block (b : block_kind) : nat -> nat -> nat -> option layer -> layer :=
  match b with BASIC => BasicBlock | BOTTLENECK => Bottleneck end.

(** Whether the block's constructor accepts the keyword argument [BN]:
    [Bottleneck.__init__] has it, [BasicBlock.__init__] does not, so
    passing it raises [TypeError]. *)
Definition accepts_BN_kwarg (b : block_kind) : bool :=
  match b with BASIC => false | BOTTLENECK => true end.

(** The downsampling projection of [_make_one_branch] and [_make_layer]. *)
Definition downsample_for (inplanes outplanes stride : nat) : option layer :=
  if negb (Nat.eqb stride 1) || negb (Nat.eqb inplanes outplanes) then
    Some (Sequential [Conv2d inplanes outplanes 1 stride 0 false;
                      BN outplanes BN_MOMENTUM])
  else None.

(** [HighResolutionModule._make_one_branch], lines 145-167.  The list
    [self.num_inchannels] is mutated by the method; it is threaded
    through explicitly.  Python's [IndexError] is [None]. *)
Definition make_one_branch (num_inchannels : list nat) (branch_index : nat)
    (blk : block_kind) (num_blocks num_channels : list nat) (stride : nat)
  : option (layer * list nat) :=
  match nth_error num_inchannels branch_index,
        nth_error num_channels branch_index,
        nth_error num_blocks branch_index with
  | Some inc, Some ch, Some nb =>
      let outc := ch * expansion blk in
      let ds := downsample_for inc outc stride in
      let first := block blk inc ch stride ds in
      let num_inchannels' := set_at branch_index outc num_inchannels in
      let rest := repeat (block blk outc ch 1 None) (nb - 1) in
      Some (Sequential (first :: rest), num_inchannels')
  | _, _, _ => None
  end.

(** [HighResolutionModule._make_branches], lines 169-176. *)
Fixpoint make_branches_from (i n : nat) (num_inchannels : list nat)
    (blk : block_kind) (num_blocks num_channels : list nat)
  : option (list layer * list nat) :=
  match n with
  | O => Some ([], num_inchannels)
  | S n' =>
      match make_one_branch num_inchannels i blk num_blocks num_channels 1 with
      | None => None
      | Some (br, nin) =>
          match make_branches_from (S i) n' nin blk num_blocks num_channels with
          | None => None
          | Some (brs, nin') => Some (br :: brs, nin')
          end
      end
  end.

Definition make_branches (num_branches : nat) (num_inchannels : list nat)
    (blk : block_kind) (num_blocks num_channels : list nat) :=
  make_branches_from 0 num_branches num_inchannels blk num_blocks num_channels.

(** One entry [fuse_layers[i][j]] of [_make_fuse_layers], lines 188-218;
    [None] stands for Python's [None]. *)
Definition fuse_entry (num_inchannels : list nat) (i j : nat) : option layer :=
  let ci := nth i num_inchannels 0 in
  let cj := nth j num_inchannels 0 in
  if i <? j then
    Some (Sequential [Conv2d cj ci 1 1 0 false; BN ci (1 # 10);
                      Upsample (2 ^ (j - i))])
  else if Nat.eqb j i then None
  else
    Some (Sequential
      (map (fun k =>
              if Nat.eqb k (i - j - 1) then
                Sequential [Conv2d cj ci 3 2 1 false; BN ci (1 # 10)]
              else
                Sequential [Conv2d cj cj 3 2 1 false; BN cj (1 # 10); ReLU])
           (seq 0 (i - j)))).

(** [HighResolutionModule._make_fuse_layers], lines 178-221. *)
Definition make_fuse_layers (num_branches : nat) (multi_scale_output : bool)
    (num_inchannels : list nat) : option (list (list (option layer))) :=
  if Nat.eqb num_branches 1 then None
  else Some (map (fun i => map (fun j => fuse_entry num_inchannels i j)
                               (seq 0 num_branches))
                 (seq 0 (if multi_scale_output then num_branches else 1))).

Record hr_module : Type := mk_hr_module {
  hm_num_inchannels : list nat;
  hm_num_branches : nat;
  hm_multi_scale_output : bool;
  hm_branches : list layer;
  hm_fuse_layers : option (list (list (option layer)))
}.

(** [HighResolutionModule.__init__], lines 130-143.  The fuse method is
    stored but never read. *)
Definition HighResolutionModule (num_branches : nat) (blk : block_kind)
    (num_blocks num_inchannels num_channels : list nat)
    (multi_scale_output : bool) : option hr_module :=
  match make_branches num_branches num_inchannels blk num_blocks num_channels with
  | None => None
  | Some (brs, nin) =>
      Some (mk_hr_module nin num_branches multi_scale_output brs
              (make_fuse_layers num_branches multi_scale_output nin))
  end.

(** ** [HigherResolutionNet] and [ROMPv1] construction *)

(** [HigherResolutionNet._make_transition_layer], lines 254-287. *)
Definition make_transition_layer (pre cur : list nat) : list (option layer) :=
  let npre := length pre in
  map (fun i =>
         let ci := nth i cur 0 in
         if i <? npre then
           let pi := nth i pre 0 in
           if negb (Nat.eqb ci pi) then
             Some (Sequential [Conv2d pi ci 3 1 1 false; BN ci (1 # 10); ReLU])
           else None
         else
           Some (Sequential
             (map (fun j =>
                     let inchannels := last pre 0 in
                     let outchannels :=
                       if Nat.eqb j (i - npre) then ci else inchannels in
                     Sequential [Conv2d inchannels outchannels 3 2 1 false;
                                 BN outchannels (1 # 10); ReLU])
                  (seq 0 (i + 1 - npre)))))
      (seq 0 (length cur)).

(** [HigherResolutionNet._make_layer], lines 289-303, which always passes
    the keyword [BN] to the block constructor.  It reads and updates
    [self.inplanes], threaded through here. *)
Definition make_layer (inplanes : nat) (blk : block_kind) (planes blocks stride : nat)
  : option (layer * nat) :=
  let outc := planes * expansion blk in
  let ds := downsample_for inplanes outc stride in
  if negb (accepts_BN_kwarg blk) then None
  else
    Some (Sequential (block blk inplanes planes stride ds
                        :: repeat (block blk outc planes 1 None) (blocks - 1)),
          outc).

Record stage_cfg : Type := mk_stage_cfg {
  NUM_MODULES : nat;
  NUM_BRANCHES : nat;
  BLOCK : block_kind;
  NUM_BLOCKS : list nat;
  NUM_CHANNELS : list nat
}.

(** The loop of [HigherResolutionNet._make_stage], lines 314-332: the
    module with index [i] gets [multi_scale_output] only when it is not
    the last one or the stage asks for multi-scale output. *)
Fixpoint make_stage_modules (i remaining num_modules : nat) (cfg : stage_cfg)
    (num_inchannels : list nat) (multi_scale_output : bool)
  : option (list hr_module * list nat) :=
  match remaining with
  | O => Some ([], num_inchannels)
  | S r =>
      let reset_multi_scale_output :=
        if negb multi_scale_output && Nat.eqb i (num_modules - 1) then false
        else true in
      match HighResolutionModule (NUM_BRANCHES cfg) (BLOCK cfg) (NUM_BLOCKS cfg)
              num_inchannels (NUM_CHANNELS cfg) reset_multi_scale_output with
      | None => None
      | Some m =>
          match make_stage_modules (S i) r num_modules cfg
                  (hm_num_inchannels m) multi_scale_output with
          | None => None
          | Some (ms, nin) => Some (m :: ms, nin)
          end
      end
  end.

(** [HigherResolutionNet._make_stage], lines 305-334. *)
Definition make_stage (cfg : stage_cfg) (num_inchannels : list nat)
    (multi_scale_output : bool) : option (list hr_module * list nat) :=
  make_stage_modules 0 (NUM_MODULES cfg) (NUM_MODULES cfg) cfg num_inchannels
    multi_scale_output.

Record hrnet : Type := mk_hrnet {
  conv1 : layer; bn1 : layer; conv2 : layer; bn2 : layer;
  layer1 : layer;
  stage2_cfg : stage_cfg; transition1 : list (option layer);
  stage2 : list hr_module;
  stage3_cfg : stage_cfg; transition2 : list (option layer);
  stage3 : list hr_module;
  stage4_cfg : stage_cfg; transition3 : list (option layer);
  stage4 : list hr_module;
  backbone_channels : nat
}.

Definition stage2_config : stage_cfg := mk_stage_cfg 1 2 BASIC [4; 4] [32; 64].
Definition stage3_config : stage_cfg :=
  mk_stage_cfg 4 3 BASIC [4; 4; 4] [32; 64; 128].
Definition stage4_config : stage_cfg :=
  mk_stage_cfg 3 4 BASIC [4; 4; 4; 4] [32; 64; 128; 256].

Definition expanded_channels (cfg : stage_cfg) : list nat :=
  map (fun c => c * expansion (BLOCK cfg)) (NUM_CHANNELS cfg).

(** [HigherResolutionNet.__init__] with [make_baseline], lines 248-380;
    [self.inplanes] starts at 64. *)
Definition HigherResolutionNet : option hrnet :=
  match make_layer 64 BOTTLENECK 64 4 1 with
  | None => None
  | Some (layer1, _) =>
  let nc2 := expanded_channels stage2_config in
  let t1 := make_transition_layer [256] nc2 in
  match make_stage stage2_config nc2 true with
  | None => None
  | Some (s2, pre2) =>
  let nc3 := expanded_channels stage3_config in
  let t2 := make_transition_layer pre2 nc3 in
  match make_stage stage3_config nc3 true with
  | None => None
  | Some (s3, pre3) =>
  let nc4 := expanded_channels stage4_config in
  let t3 := make_transition_layer pre3 nc4 in
  match make_stage stage4_config nc4 false with
  | None => None
  | Some (s4, _) =>
  Some (mk_hrnet (Conv2d 3 64 3 2 1 false) (BN 64 BN_MOMENTUM)
                 (Conv2d 64 64 3 2 1 false) (BN 64 BN_MOMENTUM)
                 layer1 stage2_config t1 s2 stage3_config t2 s3
                 stage4_config t3 s4 32)
  end end end end.

(** [ROMPv1._make_head_layers], lines 445-468, with [NUM_HEADS = 1],
    [NUM_CHANNELS = 64] and [NUM_BASIC_BLOCKS = 2]. *)
Definition make_head_layers (input_channels output_channels : nat) : layer :=
  let num_channels := 64 in
  Sequential
    [Sequential [Conv2d input_channels num_channels 3 2 1 true;
                 BN num_channels BN_MOMENTUM; ReLU];
     Sequential (map (fun _ => Sequential [BasicBlock num_channels num_channels 1 None])
                     (seq 0 2));
     Conv2d num_channels output_channels 1 1 0 true].

Definition params_num : nat := 3 + 22 * 6 + 10.
Definition cam_dim : nat := 3.
Definition NUM_PARAMS_MAP : nat := params_num - cam_dim.
Definition NUM_CENTER_MAP : nat := 1.
Definition NUM_CAM_MAP : nat := cam_dim.

(** [ROMPv1._make_final_layers], lines 436-443. *)
Definition make_final_layers (input_channels : nat) : list (option layer) :=
  let input_channels := input_channels + 2 in
  [None;
   Some (make_head_layers input_channels NUM_PARAMS_MAP);
   Some (make_head_layers input_channels NUM_CENTER_MAP);
   Some (make_head_layers input_channels NUM_CAM_MAP)].

Record rompv1 : Type := mk_rompv1 {
  backbone : hrnet;
  final_layers : list (option layer);
  coordmaps : tensor fval;
  (** [nn.Module.training], set for the whole tree by [train()] and
      [eval()]; [True] after construction. *)
  training : bool
}.

(** [ROMPv1.__init__] with [_build_head], lines 421-434. *)
Definition ROMPv1 : option rompv1 :=
  match HigherResolutionNet, get_coord_maps 128 with
  | Some bb, Some cm =>
      Some (mk_rompv1 bb (make_final_layers (backbone_channels bb)) cm true)
  | _, _ => None
  end.

(** [model.train(mode)]; [model.eval()] is [set_training false]. *)
Definition set_training (mode : bool) (m : rompv1) : rompv1 :=
  mk_rompv1 (backbone m) (final_layers m) (coordmaps m) mode.

(** ** Forward passes over an abstract tensor domain *)

(** The tensor operations the forward methods use. *)
Class TensorDomain (T : Type) : Type := {
  (** [nn.Conv2d(cin, cout, kernel, stride, padding, bias)] *)
  d_conv : nat -> nat -> nat -> nat -> nat -> bool -> T -> T;
  (** [nn.BatchNorm2d(c)] in training mode: the output, normalised with
      the batch statistics, and the batch mean and unbiased variance. *)
  d_bn_train : nat -> T -> T * (list Q * list Q);
  (** [nn.BatchNorm2d(c)] in eval mode, with the running statistics. *)
  d_bn_eval : nat -> list Q -> list Q -> T -> T;
  d_relu : T -> T;
  (** [y + x] *)
  d_add : T -> T -> T;
  (** [out += residual] *)
  d_iadd : T -> T -> T;
  (** [nn.Upsample(scale_factor=s, mode='nearest')] *)
  d_upsample : nat -> T -> T;
  (** [torch.cat(ts, 1)] *)
  d_cat1 : list T -> T;
  (** [((BHWC_to_BCHW(x) / 255.) * 2.0 - 1.0).contiguous()] *)
  d_input : T -> T;
  (** a constant tensor of the module *)
  d_const : tensor fval -> T;
  (** [c.repeat(x.shape[0], 1, 1, 1)] *)
  d_repeat_batch : T -> T -> T;
  (** [t[:, 0] = torch.pow(base, t[:, 0])] *)
  d_pow_ch0 : Q -> T -> T
}.

(** The buffer update of [nn.BatchNorm2d] in training mode. *)
Definition bn_update (m : Q) (b : bn_buf) (mean var : list Q) : bn_buf :=
  mk_bn_buf
    (map (fun '(r, x) => (1 - m) * r + m * x)%Q (combine (running_mean b) mean))
    (map (fun '(r, x) => (1 - m) * r + m * x)%Q (combine (running_var b) var))
    (S (num_batches_tracked b)).

(** Option monad for Python exceptions ([IndexError], [TypeError]). *)
Notation "'let*' x := e 'in' k" :=
  (match e with Some x => k | None => None end)
  (at level 200, x pattern, e at level 100, k at level 200).

Fixpoint fold_opt {S A : Type} (f : S -> A -> option S) (l : list A) (s : S)
  : option S :=
  match l with
  | [] => Some s
  | a :: l' => let* s' := f s a in fold_opt f l' s'
  end.

Section Forward.
Context {T : Type} `{TensorDomain T}.
Variable tr : bool.

(** [layer.forward(x)], returning the module with its updated buffers. *)
Fixpoint run_layer (l : layer) (x : T) {struct l} : T * layer :=
  match l with
  | Conv2d cin cout k s p b => (d_conv cin cout k s p b x, l)
  | BatchNorm2d c m buf =>
      if tr then
        let '(y, (mean, var)) := d_bn_train c x in
        (y, BatchNorm2d c m (bn_update m buf mean var))
      else (d_bn_eval c (running_mean buf) (running_var buf) x, l)
  | ReLU => (d_relu x, ReLU)
  | Upsample s => (d_upsample s x, l)
  | Sequential ls =>
      let '(y, ls') :=
        (fix run_seq (ls : list layer) (x : T) : T * list layer :=
           match ls with
           | [] => (x, [])
           | l1 :: ls1 =>
               let '(y, l1') := run_layer l1 x in
               let '(z, ls1') := run_seq ls1 y in
               (z, l1' :: ls1')
           end) ls x in
      (y, Sequential ls')
  | Block k s body ds =>
      let '(out, body') :=
        (fix run_seq (ls : list layer) (x : T) : T * list layer :=
           match ls with
           | [] => (x, [])
           | l1 :: ls1 =>
               let '(y, l1') := run_layer l1 x in
               let '(z, ls1') := run_seq ls1 y in
               (z, l1' :: ls1')
           end) body x in
      match ds with
      | None => (d_relu (d_iadd out x), Block k s body' None)
      | Some d =>
          let '(residual, d') := run_layer d x in
          (d_relu (d_iadd out residual), Block k s body' (Some d'))
      end
  end.

(** Calling [fuse_layers[i][j]] (a [None] entry raises [TypeError]). *)
Definition call_entry (row : list (option layer)) (j : nat) (x : T)
  : option (T * list (option layer)) :=
  match nth_error row j with
  | Some (Some l) => let '(y, l') := run_layer l x in Some (y, set_at j (Some l') row)
  | _ => None
  end.

(** One iteration [j] of the inner loop of lines 237-241. *)
Definition fuse_row_step (i : nat) (xs : list T) (st : T * list (option layer)) (j : nat)
  : option (T * list (option layer)) :=
  let '(y, row) := st in
  let* xj := nth_error xs j in
  if Nat.eqb i j then Some (d_add y xj, row)
  else let* (z, row') := call_entry row j xj in Some (d_add y z, row').

(** One fused output, lines 236-241, before the activation. *)
Definition fuse_row (nb i : nat) (row : list (option layer)) (xs : list T)
  : option (T * list (option layer)) :=
  let* x0 := nth_error xs 0 in
  let* y0row0 := if Nat.eqb i 0 then Some (x0, row) else call_entry row 0 x0 in
  fold_opt (fuse_row_step i xs) (seq 1 (nb - 1)) y0row0.

(** One iteration of the loop of lines 230-231. *)
Definition branch_step (st : list T * list layer) (i : nat)
  : option (list T * list layer) :=
  let '(xs, brs) := st in
  let* b := nth_error brs i in
  let* x := nth_error xs i in
  let '(y, b') := run_layer b x in
  Some (set_at i y xs, set_at i b' brs).

(** One iteration of the loop of lines 235-242. *)
Definition fuse_step (nb : nat) (xs : list T)
    (st : list T * list (list (option layer))) (i : nat)
  : option (list T * list (list (option layer))) :=
  let '(acc, fl) := st in
  let* row := nth_error fl i in
  let* (y, row') := fuse_row nb i row xs in
  Some (acc ++ [d_relu y], set_at i row' fl).

(** [HighResolutionModule.forward], lines 226-244. *)
Definition hm_forward (m : hr_module) (xs : list T) : option (list T * hr_module) :=
  let nb := hm_num_branches m in
  if Nat.eqb nb 1 then
    let* b0 := nth_error (hm_branches m) 0 in
    let* x0 := nth_error xs 0 in
    let '(y, b0') := run_layer b0 x0 in
    Some ([y], mk_hr_module (hm_num_inchannels m) nb (hm_multi_scale_output m)
                 (set_at 0 b0' (hm_branches m)) (hm_fuse_layers m))
  else
    let* (xs, brs) := fold_opt branch_step (seq 0 nb) (xs, hm_branches m) in
    let* fl := hm_fuse_layers m in
    let* (x_fuse, fl) := fold_opt (fuse_step nb xs) (seq 0 (length fl)) ([], fl) in
    Some (x_fuse, mk_hr_module (hm_num_inchannels m) nb (hm_multi_scale_output m)
                    brs (Some fl)).

(** An [nn.Sequential] of [HighResolutionModule]s. *)
Fixpoint run_modules (ms : list hr_module) (xs : list T)
  : option (list T * list hr_module) :=
  match ms with
  | [] => Some (xs, [])
  | m :: ms' =>
      let* (ys, m') := hm_forward m xs in
      let* (zs, ms'') := run_modules ms' ys in
      Some (zs, m' :: ms'')
  end.

(** The loops building [x_list] in [HigherResolutionNet.forward]: branch
    [i] is [transition[i](src)] when that entry is not [None], and
    [fallback i] otherwise. *)
Definition run_transition (tl : list (option layer)) (nbr : nat) (src : option T)
    (fallback : nat -> option T) : option (list T * list (option layer)) :=
  fold_opt (fun '(xl, tl) i =>
              let* e := nth_error tl i in
              match e with
              | None => let* x := fallback i in Some (xl ++ [x], tl)
              | Some l =>
                  let* s := src in
                  let '(y, l') := run_layer l s in
                  Some (xl ++ [y], set_at i (Some l') tl)
              end)
           (seq 0 nbr) ([], tl).

(** [l[-1]] *)
Definition last_opt (l : list T) : option T :=
  match rev l with [] => None | x :: _ => Some x end.

(** [HigherResolutionNet.forward], lines 382-417. *)
Definition hrnet_forward (net : hrnet) (x : T) : option (T * hrnet) :=
  let x := d_input x in
  let '(x, c1) := run_layer (conv1 net) x in
  let '(x, b1) := run_layer (bn1 net) x in
  let x := d_relu x in
  let '(x, c2) := run_layer (conv2 net) x in
  let '(x, b2) := run_layer (bn2 net) x in
  let x := d_relu x in
  let '(x, l1) := run_layer (layer1 net) x in
  let* (xl, t1) := run_transition (transition1 net)
                     (NUM_BRANCHES (stage2_cfg net)) (Some x) (fun _ => Some x) in
  let* (yl, s2) := run_modules (stage2 net) xl in
  let* (xl, t2) := run_transition (transition2 net)
                     (NUM_BRANCHES (stage3_cfg net)) (last_opt yl) (nth_error yl) in
  let* (yl, s3) := run_modules (stage3 net) xl in
  let* (xl, t3) := run_transition (transition3 net)
                     (NUM_BRANCHES (stage4_cfg net)) (last_opt yl) (nth_error yl) in
  let* (yl, s4) := run_modules (stage4 net) xl in
  let* y := nth_error yl 0 in
  Some (y, mk_hrnet c1 b1 c2 b2 l1 (stage2_cfg net) t1 s2 (stage3_cfg net) t2 s3
             (stage4_cfg net) t3 s4 (backbone_channels net)).
End Forward.

(** [ROMPv1.forward], lines 470-481: the pair [(center_maps, params_maps)]
    and the model with its updated buffers. *)
Definition romp_forward {T} `{TensorDomain T} (m : rompv1) (image : T)
  : option ((T * T) * rompv1) :=
  let tr := training m in
  let* (x, bb) := hrnet_forward tr (backbone m) image in
  let x := d_cat1 [x; d_repeat_batch (d_const (coordmaps m)) x] in
  let* (params_maps, fl) := call_entry tr (final_layers m) 1 x in
  let* (center_maps, fl) := call_entry tr fl 2 x in
  let* (cam_maps, fl) := call_entry tr fl 3 x in
  let cam_maps := d_pow_ch0 (11 # 10) cam_maps in
  let params_maps := d_cat1 [cam_maps; params_maps] in
  Some ((center_maps, params_maps), mk_rompv1 bb fl (coordmaps m) tr).

(** ** The shape domain

    A tensor is its shape; [None] is a runtime error raised by torch's
    shape checks.  Convolutions and normalisations take batched 4-d
    inputs. *)

Definition shape_t : Type := option (list nat).

Definition conv_out (n k s p : nat) : option nat :=
  if (k <=? n + 2 * p) && (0 <? s) then Some ((n + 2 * p - k) / s + 1) else None.

Definition shape_conv (cin cout k s p : nat) (x : shape_t) : shape_t :=
  match x with
  | Some [n; c; h; w] =>
      if Nat.eqb c cin then
        match conv_out h k s p, conv_out w k s p with
        | Some h', Some w' => Some [n; cout; h'; w']
        | _, _ => None
        end
      else None
  | _ => None
  end.

(** In training mode [BatchNorm2d] also needs more than one value per
    channel. *)
Definition shape_bn (training : bool) (c : nat) (x : shape_t) : shape_t :=
  match x with
  | Some [n; c'; h; w] =>
      if Nat.eqb c c' && (negb training || (1 <? n * h * w)) then x else None
  | _ => None
  end.

(** Broadcasting of [a + b]. *)
Fixpoint bcast (a b : list nat) : option (list nat) :=
  match a, b with
  | [], [] => Some []
  | x :: a', y :: b' =>
      let* r := bcast a' b' in
      if Nat.eqb x y || Nat.eqb y 1 then Some (x :: r)
      else if Nat.eqb x 1 then Some (y :: r) else None
  | _, _ => None
  end.

(** [a += b]: [b] is broadcast to the shape of [a]. *)
Fixpoint bcast_into (a b : list nat) : bool :=
  match a, b with
  | [], [] => true
  | x :: a', y :: b' => (Nat.eqb x y || Nat.eqb y 1) && bcast_into a' b'
  | _, _ => false
  end.

Fixpoint shape_cat1 (ts : list shape_t) : shape_t :=
  match ts with
  | [] => None
  | [t] => t
  | t :: ts' =>
      match t, shape_cat1 ts' with
      | Some (n :: c :: r), Some (n' :: c' :: r') =>
          if Nat.eqb n n' && list_nat_eqb r r'
          then Some (n :: c + c' :: r) else None
      | _, _ => None
      end
  end.

#[export] Instance shape_domain : TensorDomain shape_t := {
  d_conv cin cout k s p _ x := shape_conv cin cout k s p x;
  d_bn_train c x := (shape_bn true c x, (repeat 0%Q c, repeat 1%Q c));
  d_bn_eval c _ _ x := shape_bn false c x;
  d_relu x := x;
  d_add a b := match a, b with Some a, Some b => bcast a b | _, _ => None end;
  d_iadd a b := match a, b with
                | Some a', Some b' => if bcast_into a' b' then a else None
                | _, _ => None end;
  d_upsample s x := match x with
                    | Some [n; c; h; w] => Some [n; c; h * s; w * s]
                    | _ => None end;
  d_cat1 := shape_cat1;
  d_input x := match x with
               | Some s => Some (shape (normalize_input (mk_tensor s (fun _ => 0%Q))))
               | None => None end;
  d_const c := Some (shape c);
  d_repeat_batch c x := match c, x with
                        | Some [c0; c1; c2; c3], Some (n :: _) => Some [c0 * n; c1; c2; c3]
                        | _, _ => None end;
  d_pow_ch0 _ x := match x with
                   | Some (n :: c :: r) => if 1 <=? c then x else None
                   | _ => None end
}.

(** ** Helpers of the statements *)

(** The value [get_coord_maps(N)] stores for index [k]:
    [float(k) / (N - 1) * 2 - 1]. *)
Definition coord_value (N k : nat) : fval :=
  fsub (fmul (fdiv (Fin (inject_Z (Z.of_nat k))) (Fin (inject_Z (Z.of_nat N - 1))))
             (Fin 2))
       (Fin 1).

(** A finite value equal (as a rational) to [q]. *)
Definition fval_eqQ (v : fval) (q : Q) : Prop :=
  match v with Fin a => (a == q)%Q | _ => False end.

Definition is_nan (v : fval) : bool := match v with NaN => true | _ => false end.

Definition fval_in_unit (v : fval) : Prop :=
  match v with Fin a => (-1 <= a <= 1)%Q | _ => False end.

(** The coordinate-map contract for grid size [N]: shape [(1, 2, N, N)];
    channel 0 at [(r, c)] is [c / (N - 1) * 2 - 1] and channel 1 is
    [r / (N - 1) * 2 - 1], inside [[-1, 1]]; [-1] and [+1] at the first
    and last column (channel 0) and row (channel 1). *)
Definition coord_grid (N : nat) (t : tensor fval) : Prop :=
  shape t = [1; 2; N; N] /\
  (forall r c, r < N -> c < N ->
     at_ t [0; 0; r; c] =
       Fin (inject_Z (Z.of_nat c) / inject_Z (Z.of_nat N - 1) * 2 - 1) /\
     at_ t [0; 1; r; c] =
       Fin (inject_Z (Z.of_nat r) / inject_Z (Z.of_nat N - 1) * 2 - 1) /\
     fval_in_unit (at_ t [0; 0; r; c]) /\ fval_in_unit (at_ t [0; 1; r; c])) /\
  (forall k, k < N ->
     fval_eqQ (at_ t [0; 0; k; 0]) (-1) /\ fval_eqQ (at_ t [0; 0; k; N - 1]) 1 /\
     fval_eqQ (at_ t [0; 1; 0; k]) (-1) /\ fval_eqQ (at_ t [0; 1; N - 1; k]) 1).

(** The fusion of claim C4, written from the claim's words: branch [j]'s
    contribution to target [i] is the fuse layer [(i, j)] applied to the
    branch's output, or the output itself when there is no fuse layer;
    target [i] is the activation of the left-to-right sum over [j]. *)
Section FuseSpec.
Context {T : Type} `{TensorDomain T}.
Variables (tr : bool) (dflt : T).

Definition branch_out (brs : list layer) (xs : list T) (j : nat) : T :=
  fst (run_layer tr (nth j brs ReLU) (nth j xs dflt)).

Definition fuse_contrib (row : list (option layer)) (brs : list layer) (xs : list T)
    (j : nat) : T :=
  match nth j row None with
  | Some l => fst (run_layer tr l (branch_out brs xs j))
  | None => branch_out brs xs j
  end.

Definition fused_output (nb : nat) (brs : list layer) (xs : list T)
    (row : list (option layer)) : T :=
  d_relu (fold_left (fun y j => d_add y (fuse_contrib row brs xs j))
                    (seq 1 (nb - 1)) (fuse_contrib row brs xs 0)).
End FuseSpec.

(** The fuse layer [(i, j)] as claim C4 describes it: for [j > i] a 1x1
    convolution to branch [i]'s channels, a normalisation and a nearest
    upsampling by [2^(j-i)]; for [j = i] nothing; for [j < i] exactly
    [i - j] steps, each a stride-2 3x3 convolution and a normalisation
    (followed by a ReLU except in the last step, which maps to branch
    [i]'s channels). *)
Definition fuse_entry_shape (nin : list nat) (i j : nat) (e : option layer) : Prop :=
  let ci := nth i nin 0 in
  let cj := nth j nin 0 in
  (i < j -> e = Some (Sequential [Conv2d cj ci 1 1 0 false;
                                  BatchNorm2d ci (1 # 10) (bn_buf_init ci);
                                  Upsample (2 ^ (j - i))])) /\
  (i = j -> e = None) /\
  (j < i -> exists steps, e = Some (Sequential steps) /\ length steps = i - j /\
     forall k, k < i - j -> exists cin cout rest,
       nth k steps ReLU =
         Sequential (Conv2d cin cout 3 2 1 false
                     :: BatchNorm2d cout (1 # 10) (bn_buf_init cout) :: rest) /\
       (k = i - j - 1 -> cout = ci /\ rest = []) /\
       (k < i - j - 1 -> rest = [ReLU])).

(** A residual block as claim C7 describes it: a block of kind [blk] with
    stride [s] whose projection is present exactly when [s <> 1] or the
    input channels [cin] differ from [planes * expansion]; for every
    input shape the two operands of [out += residual] have the same
    shape. *)
Definition residual_ok (tr : bool) (blk : block_kind) (cin planes s : nat) (b : layer)
  : Prop :=
  exists body ds, b = Block blk s body ds /\
    (ds <> None <-> (s <> 1 \/ cin <> planes * expansion blk)) /\
    forall n h w, 1 <= h -> 1 <= w ->
      (tr = false \/ 1 < n * ((h - 1) / s + 1) * ((w - 1) / s + 1)) ->
      fst (run_layer tr (Sequential body) (Some [n; cin; h; w])) =
        Some [n; planes * expansion blk; (h - 1) / s + 1; (w - 1) / s + 1] /\
      match ds with
      | None => Some [n; cin; h; w]
      | Some d => fst (run_layer tr d (Some [n; cin; h; w]))
      end = Some [n; planes * expansion blk; (h - 1) / s + 1; (w - 1) / s + 1].

(** A chain of residual blocks: the first one takes [inc] channels and the
    stride, the others [planes * expansion] channels and stride 1; the
    whole chain maps an input of [inc] channels to [planes * expansion]
    channels.  In training mode [BatchNorm2d] needs more than one value
    per channel, hence the side condition. *)
Definition residual_chain_ok (tr : bool) (blk : block_kind) (inc planes stride : nat)
    (blocks : list layer) : Prop :=
  blocks <> [] /\
  (forall k, k < length blocks ->
     residual_ok tr blk (if k =? 0 then inc else planes * expansion blk) planes
                 (if k =? 0 then stride else 1) (nth k blocks ReLU)) /\
  forall n h w, 1 <= h -> 1 <= w ->
    (tr = false \/ 1 < n * ((h - 1) / stride + 1) * ((w - 1) / stride + 1)) ->
    fst (run_layer tr (Sequential blocks) (Some [n; inc; h; w])) =
      Some [n; planes * expansion blk; (h - 1) / stride + 1; (w - 1) / stride + 1].

(** The parameters of a module tree without its [BatchNorm2d] buffers. *)
Fixpoint strip_buffers (l : layer) : layer :=
  match l with
  | BatchNorm2d c m _ => BatchNorm2d c m (mk_bn_buf [] [] 0)
  | Sequential ls => Sequential (map strip_buffers ls)
  | Block k s body ds => Block k s (map strip_buffers body) (option_map strip_buffers ds)
  | _ => l
  end.

(** What the output of a forward pass in mode [tr] may depend on: in
    training mode [BatchNorm2d] normalises with the batch statistics and
    only writes its buffers; in eval mode it reads them. *)
Definition layer_key (tr : bool) (l : layer) : layer :=
  if tr then strip_buffers l else l.

Definition row_key (tr : bool) (row : list (option layer)) : list (option layer) :=
  map (option_map (layer_key tr)) row.

Definition hm_key (tr : bool) (m : hr_module) : hr_module :=
  mk_hr_module (hm_num_inchannels m) (hm_num_branches m) (hm_multi_scale_output m)
    (map (layer_key tr) (hm_branches m))
    (option_map (map (row_key tr)) (hm_fuse_layers m)).

Definition hrnet_key (tr : bool) (n : hrnet) : hrnet :=
  mk_hrnet (layer_key tr (conv1 n)) (layer_key tr (bn1 n))
    (layer_key tr (conv2 n)) (layer_key tr (bn2 n)) (layer_key tr (layer1 n))
    (stage2_cfg n) (row_key tr (transition1 n)) (map (hm_key tr) (stage2 n))
    (stage3_cfg n) (row_key tr (transition2 n)) (map (hm_key tr) (stage3 n))
    (stage4_cfg n) (row_key tr (transition3 n)) (map (hm_key tr) (stage4 n))
    (backbone_channels n).

Definition romp_key (m : rompv1) : rompv1 :=
  mk_rompv1 (hrnet_key (training m) (backbone m)) (row_key (training m) (final_layers m))
    (coordmaps m) (training m).

(** [num_batches_tracked] of a [BatchNorm2d]. *)
Definition bn_tracked (l : layer) : nat :=
  match l with BatchNorm2d _ _ b => num_batches_tracked b | _ => 0 end.

(** The layers of an [nn.Sequential]. *)
Definition seq_layers (l : layer) : list layer :=
  match l with Sequential ls => ls | _ => [] end.

(** The [num_inchannels] list after [_make_branches] (lines 169-176):
    entry [k] becomes [num_channels[k] * expansion] for the first [nb]
    branches and is unchanged after them. *)
Definition updated_inchannels (nb : nat) (blk : block_kind) (nch nin : list nat) : list nat :=
  map (fun k => if k <? nb then nth k nch 0 * expansion blk else nth k nin 0)
      (seq 0 (length nin)).

(** The output size of a 3x3 convolution with stride 2 and padding 1. *)
Definition down2 (h : nat) : nat := (h - 1) / 2 + 1.

(** Shapes of a batch-1 and a batch-[n] run: either the first failed, or
    they agree except for the leading batch dimension. *)
Definition batch_rel (n : nat) (x y : shape_t) : Prop :=
  x = None \/ exists r, x = Some (1 :: r) /\ y = Some (n :: r).

(** Relating the results of two runs that may raise. *)
Definition orel {A B} (R : A -> B -> Prop) (a : option A) (b : option B) : Prop :=
  match a, b with
  | Some x, Some y => R x y
  | None, None => True
  | _, _ => False
  end.

(** Relating two results that carry the same module state. *)
Definition prel {A B C} (R : A -> B -> Prop) (a : A * C) (b : B * C) : Prop :=
  R (fst a) (fst b) /\ snd a = snd b.

(** ** A domain of real-valued tensors

    A tensor is a shape with real entries ([None] is a runtime error).
    [torch.cat] and the in-place [torch.pow] on channel 0 are written
    out on the entries; the other operations are left abstract, as the
    module trees carry no weights. *)

Definition vtensor : Type := option (tensor R).

Record value_ops : Type := mk_value_ops {
  v_conv : nat -> nat -> nat -> nat -> nat -> bool -> vtensor -> vtensor;
  v_bn_train : nat -> vtensor -> vtensor * (list Q * list Q);
  v_bn_eval : nat -> list Q -> list Q -> vtensor -> vtensor;
  v_relu : vtensor -> vtensor;
  v_add : vtensor -> vtensor -> vtensor;
  v_iadd : vtensor -> vtensor -> vtensor;
  v_upsample : nat -> vtensor -> vtensor;
  v_input : vtensor -> vtensor;
  v_const : tensor fval -> vtensor;
  v_repeat_batch : vtensor -> vtensor -> vtensor
}.

Fixpoint r_cat1 (ts : list vtensor) : vtensor :=
  match ts with
  | [] => None
  | [t] => t
  | t :: ts' =>
      match t, r_cat1 ts' with
      | Some a, Some b => t_cat1 a b
      | _, _ => None
      end
  end.

Definition r_pow_ch0 (base : Q) (x : vtensor) : vtensor :=
  match x with
  | Some t =>
      match shape t with
      | _ :: c :: _ =>
          if 1 <=? c then
            Some (mk_tensor (shape t)
                    (fun idx => if nth 1 idx 0 =? 0 then Rpower (Q2R base) (at_ t idx)
                                else at_ t idx))
          else None
      | _ => None
      end
  | None => None
  end.

Definition value_domain (ops : value_ops) : TensorDomain vtensor := {|
  d_conv := v_conv ops;
  d_bn_train := v_bn_train ops;
  d_bn_eval := v_bn_eval ops;
  d_relu := v_relu ops;
  d_add := v_add ops;
  d_iadd := v_iadd ops;
  d_upsample := v_upsample ops;
  d_cat1 := r_cat1;
  d_input := v_input ops;
  d_const := v_const ops;
  d_repeat_batch := v_repeat_batch ops;
  d_pow_ch0 := r_pow_ch0
|}.

(** An instance: every operation computes its shape as the shape domain
    does and fills the result with zeros. *)

(** A tensor of the given shape, all of whose entries are zero. *)
Definition zeros (s : shape_t) : vtensor :=
  match s with Some s => Some (mk_tensor s (fun _ => 0%R)) | None => None end.

Definition vshape (x : vtensor) : shape_t :=
  match x with Some t => Some (shape t) | None => None end.

Definition zero_ops : value_ops := {|
  v_conv cin cout k s p b x := zeros (@d_conv shape_t shape_domain cin cout k s p b (vshape x));
  v_bn_train c x :=
    let '(s, st) := @d_bn_train shape_t shape_domain c (vshape x) in (zeros s, st);
  v_bn_eval c mu var x := zeros (@d_bn_eval shape_t shape_domain c mu var (vshape x));
  v_relu x := zeros (@d_relu shape_t shape_domain (vshape x));
  v_add a b := zeros (@d_add shape_t shape_domain (vshape a) (vshape b));
  v_iadd a b := zeros (@d_iadd shape_t shape_domain (vshape a) (vshape b));
  v_upsample s x := zeros (@d_upsample shape_t shape_domain s (vshape x));
  v_input x := zeros (@d_input shape_t shape_domain (vshape x));
  v_const c := zeros (@d_const shape_t shape_domain c);
  v_repeat_batch c x := zeros (@d_repeat_batch shape_t shape_domain (vshape c) (vshape x))
|}.

(** ** The [BatchNorm2d] buffers of a model *)

(** The [BatchNorm2d] layers of a module tree, as (momentum, buffers), in
    the order of [named_buffers()]. *)
Fixpoint layer_bns (l : layer) : list (Q * bn_buf) :=
  match l with
  | BatchNorm2d _ m b => [(m, b)]
  | Sequential ls => flat_map layer_bns ls
  | Block _ _ body ds =>
      flat_map layer_bns body ++ match ds with Some d => layer_bns d | None => [] end
  | _ => []
  end.

Definition entry_bns (e : option layer) : list (Q * bn_buf) :=
  match e with Some l => layer_bns l | None => [] end.

Definition row_bns (row : list (option layer)) : list (Q * bn_buf) :=
  flat_map entry_bns row.

Definition hm_bns (m : hr_module) : list (Q * bn_buf) :=
  flat_map layer_bns (hm_branches m) ++
  match hm_fuse_layers m with Some fl => flat_map row_bns fl | None => [] end.

Definition hrnet_bns (n : hrnet) : list (Q * bn_buf) :=
  layer_bns (conv1 n) ++ layer_bns (bn1 n) ++ layer_bns (conv2 n) ++ layer_bns (bn2 n) ++
  layer_bns (layer1 n) ++
  row_bns (transition1 n) ++ flat_map hm_bns (stage2 n) ++
  row_bns (transition2 n) ++ flat_map hm_bns (stage3 n) ++
  row_bns (transition3 n) ++ flat_map hm_bns (stage4 n).

Definition romp_bns (m : rompv1) : list (Q * bn_buf) :=
  hrnet_bns (backbone m) ++ row_bns (final_layers m).

(** One training-mode step of a [BatchNorm2d]: same momentum, buffers
    updated with some batch mean and variance. *)
Definition bn_advanced (p q : Q * bn_buf) : Prop :=
  fst q = fst p /\ exists mean var, snd q = bn_update (fst p) (snd p) mean var.

(** The shape of the module lists that the forward code walks: a fuse
    row has one entry per branch and none on the diagonal, a
    single-branch module has one branch and no fuse layers, a transition
    has one entry per branch of the next stage, and the head list has
    four entries, the first [None]. *)
Definition row_wf (nb i : nat) (row : list (option layer)) : bool :=
  Nat.eqb (length row) nb &&
  match nth i row None with None => true | Some _ => false end.

Definition hm_wf (m : hr_module) : bool :=
  let nb := hm_num_branches m in
  Nat.eqb (length (hm_branches m)) nb &&
  match hm_fuse_layers m with
  | None => true
  | Some fl => negb (Nat.eqb nb 1) &&
               forallb (fun i => row_wf nb i (nth i fl [])) (seq 0 (length fl))
  end.

Definition hrnet_wf (n : hrnet) : bool :=
  Nat.eqb (length (transition1 n)) (NUM_BRANCHES (stage2_cfg n)) &&
  Nat.eqb (length (transition2 n)) (NUM_BRANCHES (stage3_cfg n)) &&
  Nat.eqb (length (transition3 n)) (NUM_BRANCHES (stage4_cfg n)) &&
  forallb hm_wf (stage2 n) && forallb hm_wf (stage3 n) && forallb hm_wf (stage4 n).

Definition romp_wf (m : rompv1) : bool :=
  hrnet_wf (backbone m) && Nat.eqb (length (final_layers m)) 4 &&
  match nth 0 (final_layers m) None with None => true | Some _ => false end.

(** A training-mode step of every [BatchNorm2d] of a module tree or of
    an optional entry. *)
Definition layer_adv (l l' : layer) : Prop :=
  Forall2 bn_advanced (layer_bns l) (layer_bns l').

Definition entry_adv (e e' : option layer) : Prop :=
  Forall2 bn_advanced (entry_bns e) (entry_bns e').

(** * Properties *)

(** ** Coordinate maps *)

Lemma coord_xx_matmul (N : nat) :
  exists t, t_matmul (t_unsqueeze (t_ones [1; N]) (-1))
                     (t_unsqueeze (t_unsqueeze (t_arange N) 0) 1) = Some t
            /\ shape t = [1; N; N] /\ forall i j, at_ t [0; i; j] = Z.of_nat j.
Proof.
  unfold t_matmul; simpl.
  eexists; split; [reflexivity|]; split; [reflexivity|].
  intros i j; simpl. destruct (Z.of_nat j); reflexivity.
Qed.

Lemma coord_yy_matmul (N : nat) :
  exists t, t_matmul (t_unsqueeze (t_unsqueeze (t_arange N) 0) (-1))
                     (t_unsqueeze (t_ones [1; N]) 1) = Some t
            /\ shape t = [1; N; N] /\ forall i j, at_ t [0; i; j] = Z.of_nat i.
Proof.
  unfold t_matmul; simpl.
  eexists; split; [reflexivity|]; split; [reflexivity|].
  intros i j; simpl. rewrite Z.mul_1_r. destruct (Z.of_nat i); reflexivity.
Qed.

(** Channel 0 holds the column index, channel 1 the row index. *)
Lemma get_coord_maps_entries (N : nat) :
  exists t, get_coord_maps N = Some t /\ shape t = [1; 2; N; N] /\
    forall r c, at_ t [0; 0; r; c] = coord_value N c /\
                at_ t [0; 1; r; c] = coord_value N r.
Proof.
  destruct (coord_xx_matmul N) as (tx & Ex & Sx & Ax).
  destruct (coord_yy_matmul N) as (ty & Ey & Sy & Ay).
  unfold get_coord_maps. rewrite Ex, Ey. unfold t_cat1. simpl.
  rewrite Sx, Sy. simpl. rewrite Nat.eqb_refl. simpl.
  eexists; split; [reflexivity|]; split; [reflexivity|].
  intros r c. simpl. rewrite Ax, Ay. split; reflexivity.
Qed.

Lemma coord_value_fin (N k : nat) : N <> 1 ->
  coord_value N k =
  Fin (inject_Z (Z.of_nat k) / inject_Z (Z.of_nat N - 1) * 2 - 1).
Proof.
  intro HN. unfold coord_value, fdiv.
  assert (Hb : Qeq_bool (inject_Z (Z.of_nat N - 1)) 0 = false).
  { apply not_true_iff_false. intro E. apply Qeq_bool_eq in E.
    unfold Qeq in E; simpl in E. lia. }
  rewrite Hb. reflexivity.
Qed.

Lemma coord_value_bounds (N k : nat) : 2 <= N -> k < N ->
  (-1 <= inject_Z (Z.of_nat k) / inject_Z (Z.of_nat N - 1) * 2 - 1 <= 1)%Q.
Proof.
  intros HN Hk.
  set (d := inject_Z (Z.of_nat N - 1)).
  assert (Hd : (0 < d)%Q) by (unfold d, Qlt; simpl; lia).
  assert (H0 : (0 <= inject_Z (Z.of_nat k) / d)%Q).
  { apply Qle_shift_div_l; [exact Hd|]. unfold d, Qle; simpl; lia. }
  assert (H1 : (inject_Z (Z.of_nat k) / d <= 1)%Q).
  { apply Qle_shift_div_r; [exact Hd|]. rewrite Qmult_1_l. unfold d, Qle; simpl; lia. }
  set (x := (inject_Z (Z.of_nat k) / d)%Q) in *. lra.
Qed.

Lemma coord_value_first (N : nat) : 2 <= N -> fval_eqQ (coord_value N 0) (-1).
Proof.
  intro HN. rewrite coord_value_fin by lia. simpl.
  unfold Qdiv. rewrite Qmult_0_l. reflexivity.
Qed.

Lemma coord_value_last (N : nat) : 2 <= N -> fval_eqQ (coord_value N (N - 1)) 1.
Proof.
  intro HN. rewrite coord_value_fin by lia. simpl.
  rewrite Nat2Z.inj_sub by lia. simpl.
  field. unfold Qeq; simpl; lia.
Qed.

Lemma coord_grid_holds (N : nat) : N <> 1 ->
  exists t, get_coord_maps N = Some t /\ coord_grid N t.
Proof.
  intro HN. destruct (get_coord_maps_entries N) as (t & E & Sh & At).
  exists t. split; [exact E|]. split; [exact Sh|]. split.
  - intros r c Hr Hc. assert (2 <= N) by lia.
    destruct (At r c) as [A0 A1]. rewrite A0, A1.
    rewrite !coord_value_fin by lia.
    repeat split; try reflexivity; simpl; apply coord_value_bounds; lia.
  - intros k Hk. assert (2 <= N) by lia.
    rewrite (proj1 (At k 0)), (proj1 (At k (N - 1))),
            (proj2 (At 0 k)), (proj2 (At (N - 1) k)).
    repeat split; (apply coord_value_first || apply coord_value_last); lia.
Qed.

Lemma coord_value_size1 : coord_value 1 0 = NaN.
Proof. reflexivity. Qed.

(** Claim C2 (as stated, refuted): for every grid size [N],
    [get_coord_maps(N)] is the [(1, 2, N, N)] grid whose channel 0 at
    [(r, c)] is [c / (N - 1) * 2 - 1] and channel 1 is
    [r / (N - 1) * 2 - 1].  At [N = 1] the entries are [0 / 0 = NaN]. *)
Lemma get_coord_maps_grid_counterexample :
  ~ (forall N, exists t, get_coord_maps N = Some t /\ coord_grid N t).
Proof.
  intro H. destruct (H 1) as (t & E & _ & Hv & _).
  destruct (get_coord_maps_entries 1) as (t' & E' & _ & At).
  rewrite E in E'. injection E' as <-.
  destruct (Hv 0 0) as [V _]; [lia | lia |].
  rewrite (proj1 (At 0 0)), coord_value_size1 in V. discriminate V.
Qed.

(** Claim C2 (amended): for every grid size [N], [get_coord_maps(N)]
    returns a tensor; for [N] other than 1 it has shape [(1, 2, N, N)],
    channel 0 at [(r, c)] is [c / (N - 1) * 2 - 1] and channel 1 is
    [r / (N - 1) * 2 - 1], all inside [[-1, 1]], with [-1] at the first
    and [+1] at the last column (channel 0) or row (channel 1); at [N = 1]
    it has shape [(1, 2, 1, 1)] and both entries are [0 / 0 = NaN].  The
    result is a function of [N]. *)
Theorem get_coord_maps_grid (N : nat) :
  exists t, get_coord_maps N = Some t /\
    (N <> 1 -> coord_grid N t) /\
    (N = 1 -> shape t = [1; 2; 1; 1] /\ at_ t [0; 0; 0; 0] = NaN /\ at_ t [0; 1; 0; 0] = NaN).
Proof.
  destruct (get_coord_maps_entries N) as (t & E & Sh & At).
  exists t. split; [exact E|]. split.
  - intro HN. destruct (coord_grid_holds N HN) as (t' & E' & G).
    rewrite E in E'. injection E' as <-. exact G.
  - intros ->. rewrite (proj1 (At 0 0)), (proj2 (At 0 0)), coord_value_size1.
    split; [exact Sh|]. split; reflexivity.
Qed.

(** Claim C10: [get_coord_maps] divides by [size - 1]; at [size = 1] both
    entries of the [(1, 2, 1, 1)] result are [0 / 0 = NaN], so the result
    is no [[-1, 1]] grid, while for every [size >= 2] the grid contract
    holds. *)
Theorem get_coord_maps_size_one_nan :
  (exists t, get_coord_maps 1 = Some t /\ shape t = [1; 2; 1; 1] /\
             at_ t [0; 0; 0; 0] = NaN /\ at_ t [0; 1; 0; 0] = NaN /\
             ~ fval_in_unit (at_ t [0; 0; 0; 0])) /\
  (forall N, 2 <= N -> exists t, get_coord_maps N = Some t /\ coord_grid N t).
Proof.
  split.
  - destruct (get_coord_maps_entries 1) as (t & E & Sh & At).
    exists t. rewrite (proj1 (At 0 0)), (proj2 (At 0 0)), coord_value_size1.
    repeat split; auto.
  - intros N HN. apply coord_grid_holds. lia.
Qed.

(** ** The output of [ROMPv1.forward] *)

(** Claim C1 (as stated, refuted): on a [(1, 512, 512, 3)] image the
    model returns a [(1, 1, 64, 64)] center map and a
    [(1, 22*6+10, 64, 64)] parameter map.  The parameter map has
    [3 + 22*6 + 10 = 145] channels. *)
Lemma romp_output_shapes_counterexample :
  ~ (forall tr, match ROMPv1 with
                | Some m => exists m',
                    romp_forward (T := shape_t) (set_training tr m)
                      (Some [1; 512; 512; 3]) =
                    Some ((Some [1; 1; 64; 64], Some [1; 22 * 6 + 10; 64; 64]), m')
                | None => False
                end).
Proof.
  intro H. specialize (H true). vm_compute in H.
  destruct H as [m' Hm]. discriminate Hm.
Qed.

(** Claim C1 (amended): in training and in eval mode, on every
    [(1, 512, 512, 3)] image [ROMPv1.forward] returns a [(1, 1, 64, 64)]
    center map and a [(1, 3 + 22*6 + 10, 64, 64)] parameter map, the
    concatenation of the camera head's 3 channels and the body/shape
    head's [22*6 + 10] channels (both heads read the 32 backbone channels
    and the 2 coordinate channels). *)
Theorem romp_output_shapes (tr : bool) :
  match ROMPv1 with
  | Some m =>
      option_map fst (romp_forward (T := shape_t) (set_training tr m)
                        (Some [1; 512; 512; 3])) =
        Some (Some [1; 1; 64; 64], Some [1; 3 + 22 * 6 + 10; 64; 64]) /\
      nth 3 (final_layers m) None = Some (make_head_layers 34 3) /\
      nth 1 (final_layers m) None = Some (make_head_layers 34 (22 * 6 + 10))
  | None => False
  end.
Proof. destruct tr; vm_compute; repeat split. Qed.

(** ** Lists updated by index *)

Lemma set_at_length {A} (l : list A) p a : length (set_at p a l) = length l.
Proof. revert p; induction l; intros [|p]; simpl; auto. Qed.

Lemma nth_set_at_eq {A} (l : list A) p a d : p < length l -> nth p (set_at p a l) d = a.
Proof. revert p; induction l; intros [|p] H; simpl in *; try lia; auto with arith. Qed.

Lemma nth_set_at_neq {A} (l : list A) p q a d : p <> q -> nth q (set_at p a l) d = nth q l d.
Proof.
  revert p q; induction l; intros [|p] [|q] H; simpl; auto; try lia.
Qed.

Lemma nth_error_nth' {A} (l : list A) n d : n < length l -> nth_error l n = Some (nth n l d).
Proof. revert n; induction l; intros [|n] H; simpl in *; try lia; auto with arith. Qed.

Lemma fold_left_ext_on {A B} (f g : A -> B -> A) (l : list B) (a : A) :
  (forall x b, In b l -> f x b = g x b) -> fold_left f l a = fold_left g l a.
Proof.
  revert a; induction l as [|b l IH]; intros a Hfg; simpl; [reflexivity|].
  rewrite Hfg by (left; reflexivity). apply IH. intros x c Hc. apply Hfg. right. exact Hc.
Qed.

Lemma fold_opt_app_count {St A} (f : St -> A -> option St) (g : St -> nat) l s s' :
  (forall s a s', f s a = Some s' -> g s' = S (g s)) ->
  fold_opt f l s = Some s' -> g s' = length l + g s.
Proof.
  intro Hf. revert s; induction l as [|a l IH]; intros s E; simpl in E.
  - injection E as <-. reflexivity.
  - destruct (f s a) as [s1|] eqn:E1; [|discriminate].
    rewrite (IH _ E), (Hf _ _ _ E1). simpl. lia.
Qed.

(** ** Construction of [HighResolutionModule] *)

Lemma make_branches_from_length i n nin blk nbk nch brs nin' :
  make_branches_from i n nin blk nbk nch = Some (brs, nin') ->
  length brs = n /\ length nin' = length nin.
Proof.
  revert i nin brs nin'; induction n as [|n IH]; intros i nin brs nin' E; simpl in E.
  - injection E as <- <-. auto.
  - unfold make_one_branch in E.
    destruct (nth_error nin i), (nth_error nch i), (nth_error nbk i); try discriminate.
    destruct (make_branches_from (S i) n _ blk nbk nch) as [[brs1 nin1]|] eqn:E1;
      [|discriminate].
    injection E as <- <-. destruct (IH _ _ _ _ E1) as [L1 L2].
    rewrite set_at_length in L2. simpl. auto.
Qed.

Lemma HighResolutionModule_fields nb blk nbk nin nch ms m :
  HighResolutionModule nb blk nbk nin nch ms = Some m ->
  hm_num_branches m = nb /\ hm_multi_scale_output m = ms /\
  length (hm_branches m) = nb /\
  hm_fuse_layers m = make_fuse_layers nb ms (hm_num_inchannels m).
Proof.
  unfold HighResolutionModule, make_branches. intro E.
  destruct (make_branches_from 0 nb nin blk nbk nch) as [[brs nin']|] eqn:E1;
    [|discriminate].
  injection E as <-. simpl. destruct (make_branches_from_length _ _ _ _ _ _ _ _ E1).
  auto.
Qed.

Lemma hm_forward_length {T} `{TensorDomain T} (tr : bool) m xs ys m' fl :
  hm_num_branches m <> 1 -> hm_fuse_layers m = Some fl ->
  hm_forward tr m xs = Some (ys, m') -> length ys = length fl.
Proof.
  intros Hnb Hfl E. unfold hm_forward in E.
  apply Nat.eqb_neq in Hnb. rewrite Hnb in E.
  destruct (fold_opt (branch_step tr) (seq 0 (hm_num_branches m)) (xs, hm_branches m))
    as [[xs1 brs1]|]; [|discriminate].
  rewrite Hfl in E.
  destruct (fold_opt (fuse_step tr (hm_num_branches m) xs1) (seq 0 (length fl)) ([], fl))
    as [[acc fl1]|] eqn:F; [|discriminate].
  injection E as <- _.
  pose proof (fold_opt_app_count (fuse_step tr (hm_num_branches m) xs1)
                (fun z => length (fst z)) (seq 0 (length fl)) ([], fl) (acc, fl1)) as C.
  rewrite length_seq in C. simpl in C. rewrite C; [lia| |exact F].
  intros [acc0 fl0] i s' E. simpl in E.
  destruct (nth_error fl0 i); [|discriminate].
  destruct (fuse_row tr _ i l xs1) as [[y row']|]; [|discriminate].
  injection E as <-. simpl. rewrite length_app. simpl. lia.
Qed.

(** Claim C5: a [HighResolutionModule] with one branch has no fusion
    layers, and its forward pass on a one-element list returns the list
    holding the output of its only branch, with nothing applied after
    it. *)
Theorem hm_single_branch_identity {T} `{TensorDomain T} (tr : bool)
    blk nbk nin nch ms m (x : T) :
  HighResolutionModule 1 blk nbk nin nch ms = Some m ->
  hm_fuse_layers m = None /\
  exists b0, hm_branches m = [b0] /\
    hm_forward tr m [x] =
      Some ([fst (run_layer tr b0 x)],
            mk_hr_module (hm_num_inchannels m) 1 ms [snd (run_layer tr b0 x)] None).
Proof.
  intro E. destruct (HighResolutionModule_fields _ _ _ _ _ _ _ E)
    as (Hnb & Hms & Hlen & Hfl).
  rewrite Hfl. split; [reflexivity|].
  destruct (hm_branches m) as [|b0 [|b1 bs]] eqn:Eb; simpl in Hlen; try lia.
  exists b0. split; [reflexivity|].
  unfold hm_forward. rewrite Hnb, Hms, Eb, Hfl. simpl.
  destruct (run_layer tr b0 x). reflexivity.
Qed.

Lemma hm_single_branch_identity_witness :
  exists m, HighResolutionModule 1 BASIC [2] [8] [8] true = Some m /\
    hm_fuse_layers m = None /\
    exists b0, hm_branches m = [b0] /\
      hm_forward (T := shape_t) false m [Some [1; 8; 16; 16]] =
        Some ([fst (run_layer false b0 (Some [1; 8; 16; 16]))],
              mk_hr_module (hm_num_inchannels m) 1 true
                [snd (run_layer false b0 (Some [1; 8; 16; 16]))] None).
Proof.
  eexists. split; [reflexivity|].
  apply (hm_single_branch_identity false BASIC [2] [8] [8] true). reflexivity.
Defined.

(** Claim C6: a [HighResolutionModule] built with
    [multi_scale_output = false] has only the fusion row of target 0 (or
    no fusion at all when it has one branch), and its forward pass returns
    a one-element list; in the backbone only the last module of stage 4
    is built that way, every other module of stages 2, 3 and 4 is
    multi-scale. *)
Theorem hm_single_scale_output {T} `{TensorDomain T} (tr : bool)
    nb blk nbk nin nch m :
  HighResolutionModule nb blk nbk nin nch false = Some m ->
  (match hm_fuse_layers m with
   | None => nb = 1
   | Some fl => fl = [map (fuse_entry (hm_num_inchannels m) 0) (seq 0 nb)]
   end) /\
  (forall (xs ys : list T) m', hm_forward tr m xs = Some (ys, m') -> length ys = 1) /\
  match HigherResolutionNet with
  | Some net =>
      map hm_multi_scale_output (stage2 net) = [true] /\
      map hm_multi_scale_output (stage3 net) = [true; true; true; true] /\
      map hm_multi_scale_output (stage4 net) = [true; true; false]
  | None => False
  end.
Proof.
  intro E. destruct (HighResolutionModule_fields _ _ _ _ _ _ _ E)
    as (Hnb & Hms & Hlen & Hfl).
  split; [|split].
  - rewrite Hfl. unfold make_fuse_layers.
    destruct (Nat.eqb nb 1) eqn:E1; [apply Nat.eqb_eq; exact E1|reflexivity].
  - intros xs ys m' F. destruct (Nat.eqb nb 1) eqn:E1.
    + apply Nat.eqb_eq in E1. rewrite E1 in Hnb.
      unfold hm_forward in F. rewrite Hnb in F. simpl in F.
      destruct (hm_branches m) as [|b0 bs]; [discriminate|].
      destruct xs as [|x0 xs]; [discriminate|].
      destruct (run_layer tr b0 x0). injection F as <- _. reflexivity.
    + assert (Hfl' : hm_fuse_layers m =
               Some [map (fuse_entry (hm_num_inchannels m) 0) (seq 0 nb)]).
      { rewrite Hfl. unfold make_fuse_layers. rewrite E1. reflexivity. }
      rewrite (hm_forward_length tr m xs ys m' _ ltac:(rewrite Hnb; apply Nat.eqb_neq; exact E1) Hfl' F).
      reflexivity.
  - vm_compute. repeat split.
Qed.

Lemma hm_single_scale_output_witness :
  exists m, HighResolutionModule 2 BASIC [1; 1] [4; 8] [4; 8] false = Some m /\
    (match hm_fuse_layers m with
     | None => 2 = 1
     | Some fl => fl = [map (fuse_entry (hm_num_inchannels m) 0) (seq 0 2)]
     end) /\
    (forall (xs ys : list shape_t) m', hm_forward true m xs = Some (ys, m') ->
                                       length ys = 1) /\
    match HigherResolutionNet with
    | Some net =>
        map hm_multi_scale_output (stage2 net) = [true] /\
        map hm_multi_scale_output (stage3 net) = [true; true; true; true] /\
        map hm_multi_scale_output (stage4 net) = [true; true; false]
    | None => False
    end.
Proof.
  eexists. split; [reflexivity|].
  apply (hm_single_scale_output true 2 BASIC [1; 1] [4; 8] [4; 8]). reflexivity.
Defined.

(** ** Fusion in [HighResolutionModule] *)

Lemma nth_map_seq {A} (f : nat -> A) n k d : k < n -> nth k (map f (seq 0 n)) d = f k.
Proof.
  intro Hk. rewrite (nth_indep _ d (f 0)) by (rewrite length_map, length_seq; lia).
  rewrite map_nth, seq_nth by exact Hk. reflexivity.
Qed.

Lemma fuse_entry_matches (nin : list nat) (i j : nat) :
  fuse_entry_shape nin i j (fuse_entry nin i j).
Proof.
  unfold fuse_entry_shape, fuse_entry. split; [|split].
  - intro Hij. apply Nat.ltb_lt in Hij. rewrite Hij. reflexivity.
  - intros ->. rewrite Nat.ltb_irrefl, Nat.eqb_refl. reflexivity.
  - intro Hji. assert (E1 : (i <? j) = false) by (apply Nat.ltb_ge; lia).
    assert (E2 : Nat.eqb j i = false) by (apply Nat.eqb_neq; lia).
    rewrite E1, E2. eexists; split; [reflexivity|]. split.
    + rewrite length_map, length_seq. reflexivity.
    + intros k Hk.
      rewrite nth_map_seq by exact Hk.
      destruct (Nat.eqb k (i - j - 1)) eqn:Ek.
      * apply Nat.eqb_eq in Ek. do 3 eexists. split; [reflexivity|].
        split; [auto | intro; lia].
      * apply Nat.eqb_neq in Ek. do 3 eexists. split; [reflexivity|].
        split; [intro; lia | auto].
Qed.

Section FuseProofs.
Context {T : Type} `{TensorDomain T}.
Variables (tr : bool) (dflt : T).

Lemma branch_loop n : forall a xs brs,
  a + n <= length xs -> a + n <= length brs ->
  exists xs' brs', fold_opt (branch_step tr) (seq a n) (xs, brs) = Some (xs', brs') /\
    length xs' = length xs /\
    forall i, nth i xs' dflt =
      if (a <=? i) && (i <? a + n)
      then fst (run_layer tr (nth i brs ReLU) (nth i xs dflt))
      else nth i xs dflt.
Proof.
  induction n as [|n IH]; intros a xs brs Hx Hb.
  - exists xs, brs. split; [reflexivity|]. split; [reflexivity|].
    intro i. destruct (Nat.leb_spec a i), (Nat.ltb_spec i (a + 0)); simpl; try lia; auto.
  - simpl. rewrite (nth_error_nth' brs a ReLU) by lia.
    rewrite (nth_error_nth' xs a dflt) by lia.
    destruct (run_layer tr (nth a brs ReLU) (nth a xs dflt)) as [y b'] eqn:Ey.
    destruct (IH (S a) (set_at a y xs) (set_at a b' brs)) as (xs' & brs' & F & L & N);
      [rewrite set_at_length; lia | rewrite set_at_length; lia |].
    exists xs', brs'. split; [exact F|]. split; [rewrite L, set_at_length; reflexivity|].
    intro i. rewrite N.
    destruct (Nat.eq_dec i a) as [->|Hne].
    + replace ((S a <=? a) && (a <? S a + n)) with false
        by (symmetry; apply andb_false_intro1; apply Nat.leb_gt; lia).
      replace ((a <=? a) && (a <? a + S n)) with true
        by (symmetry; apply andb_true_intro; split; [apply Nat.leb_le | apply Nat.ltb_lt]; lia).
      rewrite nth_set_at_eq by lia. rewrite Ey. reflexivity.
    + rewrite !nth_set_at_neq by lia.
      destruct (Nat.leb_spec (S a) i), (Nat.ltb_spec i (S a + n)),
               (Nat.leb_spec a i), (Nat.ltb_spec i (a + S n)); simpl; try lia; reflexivity.
Qed.

Lemma row_loop (i : nat) (xs : list T) (row0 : list (option layer)) n :
  forall a y row,
  a + n <= length xs -> a + n <= length row ->
  (forall k, a <= k -> nth k row None = nth k row0 None) ->
  (forall j, a <= j < a + n -> (j = i <-> nth j row0 None = None)) ->
  exists row', fold_opt (fuse_row_step tr i xs) (seq a n) (y, row) =
    Some (fold_left (fun y j => d_add y
                       (match nth j row0 None with
                        | Some l => fst (run_layer tr l (nth j xs dflt))
                        | None => nth j xs dflt
                        end)) (seq a n) y, row').
Proof.
  induction n as [|n IH]; intros a y row Hx Hr Hrow Hi.
  - exists row. reflexivity.
  - simpl. rewrite (nth_error_nth' xs a dflt) by lia.
    destruct (Nat.eqb i a) eqn:Eia.
    + apply Nat.eqb_eq in Eia. subst a.
      assert (E0 : nth i row0 None = None) by (apply Hi; [lia | reflexivity]).
      rewrite E0.
      apply IH; try lia.
      * intros k Hk. apply Hrow. lia.
      * intros j Hj. apply Hi. lia.
    + apply Nat.eqb_neq in Eia.
      assert (E0 : nth a row0 None <> None) by (intro E; apply Eia; symmetry; apply Hi; [lia|exact E]).
      destruct (nth a row0 None) as [l|] eqn:El; [|congruence].
      unfold call_entry. rewrite (nth_error_nth' row a None) by lia.
      rewrite (Hrow a (le_n a)), El.
      destruct (run_layer tr l (nth a xs dflt)) as [z l'] eqn:Ez. simpl.
      destruct (IH (S a) (d_add y z) (set_at a (Some l') row)) as [row' F];
        [lia | rewrite set_at_length; lia | | |].
      * intros k Hk. rewrite nth_set_at_neq by lia. apply Hrow. lia.
      * intros j Hj. apply Hi. lia.
      * exists row'. rewrite F. reflexivity.
Qed.

Lemma fuse_entry_none_iff (nin : list nat) (i j : nat) :
  j = i <-> fuse_entry nin i j = None.
Proof.
  unfold fuse_entry. split.
  - intros ->. rewrite Nat.ltb_irrefl, Nat.eqb_refl. reflexivity.
  - destruct (i <? j); [intro E; discriminate E|].
    destruct (Nat.eqb j i) eqn:E; [intros _; apply Nat.eqb_eq; exact E | intro E'; discriminate E'].
Qed.

Lemma fuse_row_output (nb i : nat) (nin : list nat) (xs : list T) :
  1 <= nb -> nb <= length xs ->
  exists row', fuse_row tr nb i (map (fuse_entry nin i) (seq 0 nb)) xs =
    Some (fold_left (fun y j => d_add y
                       (match fuse_entry nin i j with
                        | Some l => fst (run_layer tr l (nth j xs dflt))
                        | None => nth j xs dflt
                        end)) (seq 1 (nb - 1))
            (match fuse_entry nin i 0 with
             | Some l => fst (run_layer tr l (nth 0 xs dflt))
             | None => nth 0 xs dflt
             end), row').
Proof.
  intros Hnb Hx. set (row0 := map (fuse_entry nin i) (seq 0 nb)).
  assert (Hrow0 : forall k, k < nb -> nth k row0 None = fuse_entry nin i k)
    by (intros k Hk; apply nth_map_seq; exact Hk).
  assert (Lrow0 : length row0 = nb) by (unfold row0; rewrite length_map, length_seq; reflexivity).
  assert (Hloop : forall y row, length row = nb ->
            (forall k, 1 <= k -> nth k row None = nth k row0 None) ->
            exists row', fold_opt (fuse_row_step tr i xs) (seq 1 (nb - 1)) (y, row) =
              Some (fold_left (fun y j => d_add y
                       (match fuse_entry nin i j with
                        | Some l => fst (run_layer tr l (nth j xs dflt))
                        | None => nth j xs dflt
                        end)) (seq 1 (nb - 1)) y, row')).
  { intros y row Lr Hr.
    destruct (row_loop i xs row0 (nb - 1) 1 y row) as [row' F]; try lia.
    - exact Hr.
    - intros j Hj. rewrite Hrow0 by lia. apply fuse_entry_none_iff.
    - exists row'. rewrite F. f_equal. f_equal.
      apply fold_left_ext_on. intros y' j Hj. apply in_seq in Hj.
      rewrite Hrow0 by lia. reflexivity. }
  unfold fuse_row. rewrite (nth_error_nth' xs 0 dflt) by lia.
  destruct (Nat.eqb i 0) eqn:Ei.
  - apply Nat.eqb_eq in Ei. subst i.
    replace (fuse_entry nin 0 0) with (@None layer)
      by (symmetry; apply fuse_entry_none_iff; reflexivity).
    apply Hloop; [exact Lrow0 | auto].
  - apply Nat.eqb_neq in Ei.
    destruct (fuse_entry nin i 0) as [l|] eqn:El;
      [| exfalso; apply Ei; symmetry; apply (proj2 (fuse_entry_none_iff nin i 0)); exact El].
    unfold call_entry. rewrite (nth_error_nth' row0 0 None) by lia.
    rewrite Hrow0 by lia. rewrite El.
    destruct (run_layer tr l (nth 0 xs dflt)) as [z l'] eqn:Ez. cbv beta iota.
    apply Hloop; [rewrite set_at_length; exact Lrow0|].
    intros k Hk. rewrite nth_set_at_neq by lia. reflexivity.
Qed.

Lemma outer_loop (nb : nat) (xs : list T) (Y : nat -> T)
    (fl0 : list (list (option layer))) n :
  forall a acc fl,
  a + n <= length fl ->
  (forall k, a <= k -> nth k fl [] = nth k fl0 []) ->
  (forall i, a <= i < a + n ->
     exists row', fuse_row tr nb i (nth i fl0 []) xs = Some (Y i, row')) ->
  exists fl', fold_opt (fuse_step tr nb xs) (seq a n) (acc, fl) =
    Some (acc ++ map (fun i => d_relu (Y i)) (seq a n), fl').
Proof.
  induction n as [|n IH]; intros a acc fl Hl Hfl HY.
  - exists fl. simpl. rewrite app_nil_r. reflexivity.
  - simpl. rewrite (nth_error_nth' fl a []) by lia. rewrite (Hfl a (le_n a)).
    destruct (HY a) as [row' E]; [lia|]. rewrite E.
    destruct (IH (S a) (acc ++ [d_relu (Y a)]) (set_at a row' fl)) as [fl' F];
      [rewrite set_at_length; lia | | |].
    + intros k Hk. rewrite nth_set_at_neq by lia. apply Hfl. lia.
    + intros i Hi. apply HY. lia.
    + exists fl'. rewrite F. rewrite <- app_assoc. reflexivity.
Qed.
End FuseProofs.

(** Claim C4: in a [HighResolutionModule] with [nb > 1] branches, every
    computed row [i] of the fuse layers has, at [j], a 1x1 projection,
    normalisation and [2^(j-i)] upsampling for [j > i], nothing for
    [j = i], and [i - j] stride-2 3x3 convolution steps for [j < i]; the
    forward pass returns, for each row, the activation of the sum over [j]
    of the row's entry [j] applied to branch [j]'s output. *)
Theorem hm_fuse_structure {T} `{TensorDomain T} (tr : bool) (dflt : T)
    nb blk nbk nin nch ms m (xs : list T) :
  HighResolutionModule nb blk nbk nin nch ms = Some m ->
  1 < nb -> nb <= length xs ->
  exists fl, hm_fuse_layers m = Some fl /\
    length fl = (if ms then nb else 1) /\
    (forall i j, i < length fl -> j < nb ->
       fuse_entry_shape (hm_num_inchannels m) i j (nth j (nth i fl []) None)) /\
    exists m', hm_forward tr m xs =
      Some (map (fused_output tr dflt nb (hm_branches m) xs) fl, m').
Proof.
  intros E Hnb Hx. destruct (HighResolutionModule_fields _ _ _ _ _ _ _ E)
    as (Enb & Ems & Hlen & Hfl).
  set (nin' := hm_num_inchannels m) in *.
  set (L := if ms then nb else 1).
  assert (HL : L <= nb) by (unfold L; destruct ms; lia).
  set (fl := map (fun i => map (fuse_entry nin' i) (seq 0 nb)) (seq 0 L)).
  assert (Efl : hm_fuse_layers m = Some fl).
  { rewrite Hfl. unfold make_fuse_layers.
    replace (Nat.eqb nb 1) with false by (symmetry; apply Nat.eqb_neq; lia). reflexivity. }
  assert (Lfl : length fl = L) by (unfold fl; rewrite length_map, length_seq; reflexivity).
  assert (Nfl : forall i, i < L -> nth i fl [] = map (fuse_entry nin' i) (seq 0 nb))
    by (intros i Hi; unfold fl;
        apply (nth_map_seq (fun i => map (fuse_entry nin' i) (seq 0 nb))); exact Hi).
  exists fl. split; [exact Efl|]. split; [exact Lfl|]. split.
  { intros i j Hi Hj. rewrite Nfl by lia. rewrite nth_map_seq by exact Hj.
    apply fuse_entry_matches. }
  unfold hm_forward. rewrite Enb.
  replace (Nat.eqb nb 1) with false by (symmetry; apply Nat.eqb_neq; lia).
  destruct (branch_loop tr dflt nb 0 xs (hm_branches m)) as (xs' & brs' & F & Lx & Nx);
    [lia | lia |].
  rewrite F. cbv beta iota. rewrite Efl. cbv beta iota.
  assert (Hxs' : forall j, j < nb -> nth j xs' dflt = branch_out tr dflt (hm_branches m) xs j).
  { intros j Hj. rewrite Nx.
    replace ((0 <=? j) && (j <? 0 + nb)) with true
      by (symmetry; apply andb_true_intro; split; [apply Nat.leb_le | apply Nat.ltb_lt]; lia).
    reflexivity. }
  set (Y := fun i => fold_left (fun y j => d_add y
                       (match fuse_entry nin' i j with
                        | Some l => fst (run_layer tr l (nth j xs' dflt))
                        | None => nth j xs' dflt
                        end)) (seq 1 (nb - 1))
            (match fuse_entry nin' i 0 with
             | Some l => fst (run_layer tr l (nth 0 xs' dflt))
             | None => nth 0 xs' dflt
             end)).
  destruct (outer_loop tr nb xs' Y fl L 0 [] fl) as [fl' G].
  - lia.
  - reflexivity.
  - intros i Hi. rewrite Nfl by lia. apply fuse_row_output; lia.
  - rewrite Lfl, G. exists (mk_hr_module nin' nb ms brs' (Some fl')).
    rewrite Ems. f_equal. f_equal. simpl.
    unfold fl. rewrite map_map. apply map_ext_in. intros i Hi. apply in_seq in Hi.
    unfold fused_output, fuse_contrib, Y. f_equal.
    rewrite (nth_map_seq (fuse_entry nin' i) nb 0) by lia.
    rewrite (Hxs' 0) by lia.
    apply fold_left_ext_on. intros y j Hj. apply in_seq in Hj.
    rewrite (nth_map_seq (fuse_entry nin' i) nb j) by lia.
    rewrite (Hxs' j) by lia. reflexivity.
Qed.

Lemma hm_fuse_structure_witness :
  exists m, HighResolutionModule 2 BASIC [1; 1] [4; 8] [4; 8] true = Some m /\
    1 < 2 /\ 2 <= length [Some [1; 4; 8; 8]; Some [1; 8; 4; 4]] /\
    exists fl, hm_fuse_layers m = Some fl /\ length fl = 2 /\
    (forall i j, i < length fl -> j < 2 ->
       fuse_entry_shape (hm_num_inchannels m) i j (nth j (nth i fl []) None)) /\
    exists m', hm_forward true m [Some [1; 4; 8; 8]; Some [1; 8; 4; 4]] =
      Some (map (fused_output true None 2 (hm_branches m)
                   [Some [1; 4; 8; 8]; Some [1; 8; 4; 4]]) fl, m').
Proof.
  eexists. split; [reflexivity|]. split; [lia|]. split; [simpl; lia|].
  apply (hm_fuse_structure true None 2 BASIC [1; 1] [4; 8] [4; 8] true);
    [reflexivity | lia | simpl; lia].
Defined.

(** ** Input normalisation *)

Lemma normalize_input_shape (x : tensor Q) B H W :
  shape x = [B; H; W; 3] -> shape (normalize_input x) = [B; 3; H; W].
Proof. destruct x as [sx ax]. simpl. intros ->. reflexivity. Qed.

Lemma normalize_input_at (x : tensor Q) B H W b c h w :
  shape x = [B; H; W; 3] ->
  at_ (normalize_input x) [b; c; h; w] = (at_ x [b; h; w; c] / 255 * 2 - 1)%Q.
Proof. destruct x as [sx ax]. simpl. intros ->. reflexivity. Qed.

Lemma normalize_value_bounds (v : Q) :
  (0 <= v <= 255 -> -1 <= v / 255 * 2 - 1 <= 1)%Q.
Proof.
  intros [H0 H1]. unfold Qdiv. change (/ 255)%Q with (1 # 255)%Q. split; lra.
Qed.

(** Claim C9: for an input of shape [(B, H, W, 3)], [HigherResolutionNet]'s
    normalisation gives the channel-first tensor of shape [(B, 3, H, W)]
    whose entry [(b, c, h, w)] is [x[b, h, w, c] / 255 * 2 - 1], in
    [[-1, 1]] for values in [[0, 255]]; the forward pass of the built
    backbone applies its stem convolution [conv1] (3 to 64 channels) to
    this normalised input first and depends on the input only through
    that convolution's output. *)
Theorem backbone_input_normalisation (x : tensor Q) B H W (Hs : shape x = [B; H; W; 3]) :
  shape (normalize_input x) = [B; 3; H; W] /\
  (forall b c h w,
     at_ (normalize_input x) [b; c; h; w] = (at_ x [b; h; w; c] / 255 * 2 - 1)%Q /\
     (0 <= at_ x [b; h; w; c] <= 255 ->
      -1 <= at_ (normalize_input x) [b; c; h; w] <= 1)%Q) /\
  @d_input shape_t _ (Some [B; H; W; 3]) = Some [B; 3; H; W] /\
  match HigherResolutionNet with
  | Some net =>
      conv1 net = Conv2d 3 64 3 2 1 false /\
      forall (T : Type) (D : TensorDomain T) (tr : bool) (x1 x2 : T),
        d_conv 3 64 3 2 1 false (d_input x1) = d_conv 3 64 3 2 1 false (d_input x2) ->
        hrnet_forward tr net x1 = hrnet_forward tr net x2
  | None => False
  end.
Proof.
  split; [apply normalize_input_shape; exact Hs|]. split.
  { intros b c h w. rewrite (normalize_input_at x B H W b c h w Hs).
    split; [reflexivity | apply normalize_value_bounds]. }
  split; [reflexivity|].
  destruct HigherResolutionNet as [net|] eqn:En; [|vm_compute in En; discriminate En].
  assert (C1 : conv1 net = Conv2d 3 64 3 2 1 false).
  { vm_compute in En. injection En as <-. reflexivity. }
  split; [exact C1|].
  intros T D tr x1 x2 E. unfold hrnet_forward. rewrite C1. simpl run_layer.
  rewrite E. reflexivity.
Qed.

Lemma backbone_input_normalisation_witness :
  let x := mk_tensor [1; 2; 2; 3] (fun idx => inject_Z (Z.of_nat (nth 3 idx 0))) in
  shape x = [1; 2; 2; 3] /\
  shape (normalize_input x) = [1; 3; 2; 2] /\
  (forall b c h w,
     at_ (normalize_input x) [b; c; h; w] = (at_ x [b; h; w; c] / 255 * 2 - 1)%Q /\
     (0 <= at_ x [b; h; w; c] <= 255 ->
      -1 <= at_ (normalize_input x) [b; c; h; w] <= 1)%Q) /\
  @d_input shape_t _ (Some [1; 2; 2; 3]) = Some [1; 3; 2; 2] /\
  match HigherResolutionNet with
  | Some net =>
      conv1 net = Conv2d 3 64 3 2 1 false /\
      forall (T : Type) (D : TensorDomain T) (tr : bool) (x1 x2 : T),
        d_conv 3 64 3 2 1 false (d_input x1) = d_conv 3 64 3 2 1 false (d_input x2) ->
        hrnet_forward tr net x1 = hrnet_forward tr net x2
  | None => False
  end.
Proof.
  intro x. split; [reflexivity|].
  apply (backbone_input_normalisation x 1 2 2). reflexivity.
Defined.

(** ** Residual blocks *)

Lemma conv_out_3x3 (h s : nat) : 1 <= h -> 0 < s -> conv_out h 3 s 1 = Some ((h - 1) / s + 1).
Proof.
  intros Hh Hs. unfold conv_out.
  replace (3 <=? h + 2 * 1) with true by (symmetry; apply Nat.leb_le; lia).
  replace (0 <? s) with true by (symmetry; apply Nat.ltb_lt; lia).
  simpl. do 3 f_equal. lia.
Qed.

Lemma conv_out_1x1 (h s : nat) : 1 <= h -> 0 < s -> conv_out h 1 s 0 = Some ((h - 1) / s + 1).
Proof.
  intros Hh Hs. unfold conv_out.
  replace (1 <=? h + 2 * 0) with true by (symmetry; apply Nat.leb_le; lia).
  replace (0 <? s) with true by (symmetry; apply Nat.ltb_lt; lia).
  simpl. do 3 f_equal. lia.
Qed.

Section LayerEquations.
Context {T : Type} `{TensorDomain T}.
Variable tr : bool.

Lemma run_seq_cons (l : layer) (ls : list layer) (x : T) :
  fst (run_layer tr (Sequential (l :: ls)) x) =
  fst (run_layer tr (Sequential ls) (fst (run_layer tr l x))).
Proof.
  simpl. destruct (run_layer tr l x) as [y l']. simpl.
  match goal with |- context [?f ls y] => destruct (f ls y) end. reflexivity.
Qed.

Lemma run_block (k : block_kind) (s : nat) (body : list layer) (ds : option layer) (x : T) :
  fst (run_layer tr (Block k s body ds) x) =
  d_relu (d_iadd (fst (run_layer tr (Sequential body) x))
                 (match ds with None => x | Some d => fst (run_layer tr d x) end)).
Proof.
  simpl. match goal with |- context [?f body x] => destruct (f body x) end.
  destruct ds as [d|]; [destruct (run_layer tr d x)|]; reflexivity.
Qed.

Lemma run_bn (c : nat) (m : Q) (buf : bn_buf) (x : T) :
  fst (run_layer tr (BatchNorm2d c m buf) x) =
  if tr then fst (d_bn_train c x) else d_bn_eval c (running_mean buf) (running_var buf) x.
Proof. simpl. destruct tr; [destruct (d_bn_train c x) as [y [mu v]]|]; reflexivity. Qed.
End LayerEquations.


Lemma conv_ok tr cin cout k s p b n h w :
  conv_out h k s p = Some ((h - 1) / s + 1) -> conv_out w k s p = Some ((w - 1) / s + 1) ->
  fst (run_layer tr (Conv2d cin cout k s p b) (Some [n; cin; h; w])) =
  Some [n; cout; (h - 1) / s + 1; (w - 1) / s + 1].
Proof. intros Eh Ew. simpl. unfold shape_conv. rewrite Nat.eqb_refl, Eh, Ew. reflexivity. Qed.

Lemma bn_ok tr c m buf n h w : (tr = false \/ 1 < n * h * w) ->
  fst (run_layer tr (BatchNorm2d c m buf) (Some [n; c; h; w])) = Some [n; c; h; w].
Proof.
  intro Ht. rewrite run_bn. unfold shape_bn. destruct tr; simpl; rewrite Nat.eqb_refl; simpl;
    [destruct Ht as [Ht|Ht]; [discriminate Ht|]; apply Nat.ltb_lt in Ht; rewrite Ht|]; reflexivity.
Qed.

Lemma relu_ok tr (x : shape_t) : fst (run_layer tr ReLU x) = x.
Proof. reflexivity. Qed.

Lemma out_size_1 h : 1 <= h -> (h - 1) / 1 + 1 = h.
Proof. intro. rewrite Nat.div_1_r. lia. Qed.

Lemma out_size_le h s : 1 <= h -> 0 < s -> (h - 1) / s + 1 <= h.
Proof.
  intros Hh Hs. assert ((h - 1) / s <= h - 1); [|lia].
  apply Nat.Div0.div_le_upper_bound; nia.
Qed.

Lemma out_size_pos h s : 1 <= (h - 1) / s + 1.
Proof. lia. Qed.

Lemma bn_train_mono n h w h' w' : h' <= h -> w' <= w -> 1 < n * h' * w' -> 1 < n * h * w.
Proof. intros Hh Hw Hl. assert (n * h' * w' <= n * h * w) by (apply Nat.mul_le_mono; [apply Nat.mul_le_mono_l|]; lia). lia. Qed.

Lemma block_operands_shape tr blk inp planes s n h w body ds :
  0 < s -> 1 <= h -> 1 <= w ->
  (tr = false \/ 1 < n * ((h - 1) / s + 1) * ((w - 1) / s + 1)) ->
  block blk inp planes s (downsample_for inp (planes * expansion blk) s) = Block blk s body ds ->
  fst (run_layer tr (Sequential body) (Some [n; inp; h; w])) =
    Some [n; planes * expansion blk; (h - 1) / s + 1; (w - 1) / s + 1] /\
  match ds with
  | None => Some [n; inp; h; w]
  | Some d => fst (run_layer tr d (Some [n; inp; h; w]))
  end = Some [n; planes * expansion blk; (h - 1) / s + 1; (w - 1) / s + 1].
Proof.
  intros Hs Hh Hw Ht E.
  assert (C3 : forall x, 1 <= x -> forall s', 0 < s' -> conv_out x 3 s' 1 = Some ((x - 1) / s' + 1))
    by (intros; apply conv_out_3x3; lia).
  assert (C1 : forall x, 1 <= x -> forall s', 0 < s' -> conv_out x 1 s' 0 = Some ((x - 1) / s' + 1))
    by (intros; apply conv_out_1x1; lia).
  split.
  - destruct blk; simpl in E; injection E as <- _;
      unfold conv3x3, BN; repeat rewrite run_seq_cons; rewrite !relu_ok.
    + rewrite conv_ok by auto. rewrite bn_ok by exact Ht.
      rewrite conv_ok by (apply C3; lia). rewrite !out_size_1 by lia.
      rewrite bn_ok by exact Ht. rewrite Nat.mul_1_r. reflexivity.
    + rewrite conv_ok by (apply C1; lia). rewrite !out_size_1 by lia.
      rewrite bn_ok by (destruct Ht; [left; assumption | right;
        eapply bn_train_mono; [| |eassumption]; apply out_size_le; lia]).
      rewrite conv_ok by auto. rewrite bn_ok by exact Ht.
      rewrite conv_ok by (apply C1; lia). rewrite !out_size_1 by lia.
      rewrite bn_ok by exact Ht. reflexivity.
  - assert (Ed : ds = downsample_for inp (planes * expansion blk) s)
      by (destruct blk; simpl in E; injection E as _ <-; reflexivity).
    subst ds. unfold downsample_for.
    destruct (negb (Nat.eqb s 1) || negb (Nat.eqb inp (planes * expansion blk))) eqn:Ec.
    + unfold BN. rewrite run_seq_cons, conv_ok by auto. rewrite run_seq_cons, bn_ok by exact Ht.
      reflexivity.
    + apply orb_false_iff in Ec. destruct Ec as [E1 E2].
      apply negb_false_iff, Nat.eqb_eq in E1. apply negb_false_iff, Nat.eqb_eq in E2.
      subst s. rewrite !out_size_1 by lia. rewrite E2. reflexivity.
Qed.

Lemma bcast_into_refl (l : list nat) : bcast_into l l = true.
Proof. induction l as [|a l IH]; simpl; [reflexivity|]. rewrite Nat.eqb_refl, IH. reflexivity. Qed.

Lemma block_shape_eq blk cin planes s ds :
  exists body, block blk cin planes s ds = Block blk s body ds.
Proof. destruct blk; eexists; reflexivity. Qed.

Lemma block_run_shape tr blk inp planes s n h w :
  0 < s -> 1 <= h -> 1 <= w ->
  (tr = false \/ 1 < n * ((h - 1) / s + 1) * ((w - 1) / s + 1)) ->
  fst (run_layer tr (block blk inp planes s (downsample_for inp (planes * expansion blk) s))
         (Some [n; inp; h; w])) =
  Some [n; planes * expansion blk; (h - 1) / s + 1; (w - 1) / s + 1].
Proof.
  intros Hs Hh Hw Ht.
  destruct (block_shape_eq blk inp planes s (downsample_for inp (planes * expansion blk) s))
    as [body E].
  destruct (block_operands_shape tr blk inp planes s n h w body _ Hs Hh Hw Ht E) as [B R].
  rewrite E, run_block, B, R. cbv beta iota delta [d_relu d_iadd shape_domain].
  rewrite bcast_into_refl. reflexivity.
Qed.

Lemma downsample_for_none inp : downsample_for inp inp 1 = None.
Proof. unfold downsample_for. rewrite !Nat.eqb_refl. reflexivity. Qed.

Lemma repeat_blocks_shape tr (b : layer) (y : shape_t) k :
  fst (run_layer tr b y) = y -> fst (run_layer tr (Sequential (repeat b k)) y) = y.
Proof.
  intro Hb. induction k as [|k IH]; [reflexivity|].
  simpl repeat. rewrite run_seq_cons, Hb. exact IH.
Qed.

Lemma residual_ok_block tr blk cin planes s : 0 < s ->
  residual_ok tr blk cin planes s
    (block blk cin planes s (downsample_for cin (planes * expansion blk) s)).
Proof.
  intro Hs. destruct (block_shape_eq blk cin planes s (downsample_for cin (planes * expansion blk) s))
    as [body E].
  exists body, (downsample_for cin (planes * expansion blk) s). split; [exact E|]. split.
  - unfold downsample_for.
    destruct (Nat.eqb_spec s 1), (Nat.eqb_spec cin (planes * expansion blk)); simpl;
      split; intro K; try congruence; try tauto; discriminate.
  - intros n h w Hh Hw Ht. exact (block_operands_shape tr blk cin planes s n h w body _ Hs Hh Hw Ht E).
Qed.

Lemma block_chain_ok tr blk inc planes stride nb : 0 < stride ->
  residual_chain_ok tr blk inc planes stride
    (block blk inc planes stride (downsample_for inc (planes * expansion blk) stride)
       :: repeat (block blk (planes * expansion blk) planes 1 None) nb).
Proof.
  intro Hs. rewrite <- (downsample_for_none (planes * expansion blk)).
  split; [discriminate|]. split.
  - intros [|k] Hk; simpl.
    + apply residual_ok_block. exact Hs.
    + assert (In (nth k (repeat (block blk (planes * expansion blk) planes 1
                      (downsample_for (planes * expansion blk) (planes * expansion blk) 1)) nb) ReLU)
                 (repeat (block blk (planes * expansion blk) planes 1
                      (downsample_for (planes * expansion blk) (planes * expansion blk) 1)) nb))
        as Hin by (apply nth_In; simpl in Hk; lia).
      apply repeat_spec in Hin. rewrite Hin. apply residual_ok_block. lia.
  - intros n h w Hh Hw Ht. rewrite run_seq_cons, block_run_shape by assumption.
    apply repeat_blocks_shape.
    rewrite block_run_shape; [| lia | lia | lia | rewrite !out_size_1 by lia; exact Ht].
    rewrite !out_size_1 by lia. reflexivity.
Qed.

(** Claim C7: [_make_one_branch] and [_make_layer] attach the 1x1
    projection to the first block exactly when its stride is not 1 or its
    input channels differ from [planes * expansion], the other blocks
    having stride 1 and matching channels; so both operands of every
    residual addition have the same shape and the chain maps [inc] input
    channels to [planes * expansion] output channels.  [_make_one_branch]
    succeeds whenever the branch index is in range; [_make_layer] succeeds
    exactly for [Bottleneck], the only block whose constructor accepts the
    keyword [BN] it passes, and the only block it is called with. *)
Theorem residual_projection_consistent (tr : bool) :
  (forall nin bi blk nbk nch stride inc ch nb,
     0 < stride -> nth_error nin bi = Some inc -> nth_error nch bi = Some ch ->
     nth_error nbk bi = Some nb ->
     exists blocks, make_one_branch nin bi blk nbk nch stride =
         Some (Sequential blocks, set_at bi (ch * expansion blk) nin) /\
       length blocks = Nat.max 1 nb /\ residual_chain_ok tr blk inc ch stride blocks) /\
  (forall inplanes blk planes nblocks stride l outc,
     0 < stride -> make_layer inplanes blk planes nblocks stride = Some (l, outc) ->
     blk = BOTTLENECK /\ outc = planes * expansion blk /\
     exists blocks, l = Sequential blocks /\ length blocks = Nat.max 1 nblocks /\
       residual_chain_ok tr blk inplanes planes stride blocks) /\
  (forall inplanes planes nblocks stride,
     make_layer inplanes BOTTLENECK planes nblocks stride <> None /\
     make_layer inplanes BASIC planes nblocks stride = None).
Proof.
  split; [|split].
  - intros nin bi blk nbk nch stride inc ch nb Hs Ei Ec En.
    unfold make_one_branch. rewrite Ei, Ec, En. eexists. split; [reflexivity|]. split.
    + simpl length. rewrite repeat_length. destruct nb; simpl; lia.
    + apply block_chain_ok. exact Hs.
  - intros inplanes blk planes nblocks stride l outc Hs E. unfold make_layer in E.
    destruct blk; simpl in E; [discriminate E|]. injection E as <- <-.
    split; [reflexivity|]. split; [reflexivity|]. eexists. split; [reflexivity|]. split.
    + simpl length. rewrite repeat_length. destruct nblocks; simpl; lia.
    + apply (block_chain_ok tr BOTTLENECK). exact Hs.
  - intros. split; [discriminate | reflexivity].
Qed.

(** ** Buffers and repeated forward passes *)

Lemma layer_ind' (P : layer -> Prop)
  (Hconv : forall cin cout k s p b, P (Conv2d cin cout k s p b))
  (Hbn : forall c m buf, P (BatchNorm2d c m buf))
  (Hrelu : P ReLU)
  (Hup : forall s, P (Upsample s))
  (Hseq : forall ls, Forall P ls -> P (Sequential ls))
  (Hblock : forall k s body ds, Forall P body ->
     (forall d, ds = Some d -> P d) -> P (Block k s body ds)) :
  forall l, P l.
Proof.
  exact (fix F l := match l return P l with
    | Conv2d cin cout k s p b => Hconv cin cout k s p b
    | BatchNorm2d c m buf => Hbn c m buf
    | ReLU => Hrelu
    | Upsample s => Hup s
    | Sequential ls => Hseq ls ((fix G ls := match ls return Forall P ls with
                                  | [] => Forall_nil P
                                  | l1 :: ls1 => Forall_cons l1 (F l1) (G ls1)
                                  end) ls)
    | Block k s body ds =>
        Hblock k s body ds
          ((fix G ls := match ls return Forall P ls with
             | [] => Forall_nil P
             | l1 :: ls1 => Forall_cons l1 (F l1) (G ls1)
             end) body)
          (match ds return forall d, ds = Some d -> P d with
           | Some d0 => fun d E => match E in _ = o return
                                     (match o with Some d => P d | None => True end) with
                                   | eq_refl => F d0 end
           | None => fun d E => match E in _ = o return
                                  (match o with Some d => P d | None => True end) with
                                | eq_refl => I end
           end)
    end).
Qed.

Section LayerState.
Context {T : Type} `{TensorDomain T}.
Variable tr : bool.

Lemma run_seq_snd (l : layer) (ls : list layer) (x : T) :
  snd (run_layer tr (Sequential (l :: ls)) x) =
  Sequential (snd (run_layer tr l x) ::
              seq_layers (snd (run_layer tr (Sequential ls) (fst (run_layer tr l x))))).
Proof.
  simpl. destruct (run_layer tr l x) as [y l']. simpl.
  match goal with |- context [?f ls y] => destruct (f ls y) end. reflexivity.
Qed.

Lemma run_seq_is_seq (ls : list layer) (x : T) :
  snd (run_layer tr (Sequential ls) x) =
  Sequential (seq_layers (snd (run_layer tr (Sequential ls) x))).
Proof.
  simpl. match goal with |- context [?f ls x] => destruct (f ls x) end. reflexivity.
Qed.

Lemma run_block_snd (k : block_kind) (s : nat) (body : list layer) (ds : option layer) (x : T) :
  snd (run_layer tr (Block k s body ds) x) =
  Block k s (seq_layers (snd (run_layer tr (Sequential body) x)))
    (option_map (fun d => snd (run_layer tr d x)) ds).
Proof.
  simpl. match goal with |- context [?f body x] => destruct (f body x) end.
  destruct ds as [d|]; simpl; [destruct (run_layer tr d x)|]; reflexivity.
Qed.
End LayerState.

Section LayerKey.
Context {T : Type} `{TensorDomain T}.

Lemma run_layer_eval_unchanged (l : layer) : forall x : T, snd (run_layer false l x) = l.
Proof.
  induction l using layer_ind'; intro x; try reflexivity.
  - revert x. induction H0 as [|l ls Hl Hls IH]; intro x; [reflexivity|].
    rewrite run_seq_snd, Hl. specialize (IH (fst (run_layer false l x))).
    rewrite IH. reflexivity.
  - rewrite run_block_snd.
    assert (B : forall y, snd (run_layer false (Sequential body) y) = Sequential body).
    { clear H1. induction H0 as [|l ls Hl Hls IH]; intro y; [reflexivity|].
      rewrite run_seq_snd, Hl, IH. reflexivity. }
    rewrite B. destruct ds as [d|]; simpl; [rewrite (H1 d eq_refl)|]; reflexivity.
Qed.

Lemma run_layer_train_key (l : layer) : forall x : T,
  fst (run_layer true l x) = fst (run_layer true (strip_buffers l) x) /\
  strip_buffers (snd (run_layer true l x)) = strip_buffers l.
Proof.
  assert (Hseq : forall ls, Forall (fun l => forall x : T,
            fst (run_layer true l x) = fst (run_layer true (strip_buffers l) x) /\
            strip_buffers (snd (run_layer true l x)) = strip_buffers l) ls ->
          forall x : T,
            fst (run_layer true (Sequential ls) x) =
              fst (run_layer true (Sequential (map strip_buffers ls)) x) /\
            map strip_buffers (seq_layers (snd (run_layer true (Sequential ls) x))) =
              map strip_buffers ls).
  { intros ls F. induction F as [|l0 ls Hl Hls IH]; intro x; [split; reflexivity|].
    destruct (Hl x) as [Hl1 Hl2]. destruct (IH (fst (run_layer true l0 x))) as [IH1 IH2].
    cbn [map]. split.
    - rewrite !run_seq_cons, IH1, Hl1. reflexivity.
    - rewrite run_seq_snd. cbn [seq_layers map]. rewrite Hl2, IH2. reflexivity. }
  induction l using layer_ind'; intro x.
  - split; reflexivity.
  - cbn [strip_buffers]. rewrite !run_bn. split; [reflexivity|]. simpl.
    destruct (d_bn_train c x) as [y [mu v]]. reflexivity.
  - split; reflexivity.
  - split; reflexivity.
  - destruct (Hseq ls H0 x) as [S1 S2]. cbn [strip_buffers]. split; [exact S1|].
    rewrite run_seq_is_seq. cbn [strip_buffers]. rewrite S2. reflexivity.
  - destruct (Hseq body H0 x) as [S1 S2]. cbn [strip_buffers]. split.
    + rewrite !run_block, S1. destruct ds as [d|]; [|reflexivity].
      cbn [option_map]. rewrite (proj1 (H1 d eq_refl x)). reflexivity.
    + rewrite run_block_snd. cbn [strip_buffers]. rewrite S2.
      destruct ds as [d|]; [|reflexivity].
      cbn [option_map]. rewrite (proj2 (H1 d eq_refl x)). reflexivity.
Qed.

Lemma run_layer_key (tr : bool) (l : layer) (x : T) :
  fst (run_layer tr l x) = fst (run_layer tr (layer_key tr l) x) /\
  layer_key tr (snd (run_layer tr l x)) = layer_key tr l.
Proof.
  destruct tr; unfold layer_key.
  - apply run_layer_train_key.
  - rewrite run_layer_eval_unchanged. split; reflexivity.
Qed.

Lemma run_layer_key_eq (tr : bool) (l1 l2 : layer) (x : T) :
  layer_key tr l1 = layer_key tr l2 -> fst (run_layer tr l1 x) = fst (run_layer tr l2 x).
Proof.
  intro E. rewrite (proj1 (run_layer_key tr l1 x)), (proj1 (run_layer_key tr l2 x)), E.
  reflexivity.
Qed.
End LayerKey.

Lemma map_set_at {A B} (g : A -> B) (l : list A) p a :
  map g (set_at p a l) = set_at p (g a) (map g l).
Proof. revert p; induction l as [|b l IH]; intros [|p]; simpl; f_equal; auto. Qed.

Lemma set_at_same {A} (l : list A) p a : nth_error l p = Some a -> set_at p a l = l.
Proof. revert p; induction l as [|b l IH]; intros [|p] E; simpl in *; try discriminate.
  - injection E as ->. reflexivity.
  - f_equal. apply IH. exact E.
Qed.

Lemma nth_error_map_eq {A B} (g : A -> B) (l1 l2 : list A) p a1 :
  map g l1 = map g l2 -> nth_error l1 p = Some a1 ->
  exists a2, nth_error l2 p = Some a2 /\ g a2 = g a1.
Proof.
  intros E N. assert (M : nth_error (map g l1) p = nth_error (map g l2) p) by (rewrite E; reflexivity).
  rewrite !nth_error_map, N in M. destruct (nth_error l2 p) as [a2|]; [|discriminate].
  exists a2. injection M as M. auto.
Qed.

Lemma map_set_at_key {A B} (g : A -> B) (l : list A) p a a' :
  nth_error l p = Some a -> g a' = g a -> map g (set_at p a' l) = map g l.
Proof.
  intros N E. rewrite map_set_at, E. apply set_at_same. rewrite nth_error_map, N. reflexivity.
Qed.

Lemma fold_opt_key {St A D K} (data : St -> D) (key : St -> K)
    (f : St -> A -> option St) (l : list A) :
  (forall a s1 s2 s1', data s1 = data s2 -> key s1 = key s2 -> f s1 a = Some s1' ->
     key s1' = key s1 /\ exists s2', f s2 a = Some s2' /\ data s2' = data s1') ->
  forall s1 s2 s1', data s1 = data s2 -> key s1 = key s2 -> fold_opt f l s1 = Some s1' ->
    key s1' = key s1 /\ exists s2', fold_opt f l s2 = Some s2' /\ data s2' = data s1'.
Proof.
  intro Hf. induction l as [|a l IH]; intros s1 s2 s1' Hd Hk F; simpl in F |- *.
  - injection F as <-. split; [reflexivity|]. exists s2. auto.
  - destruct (f s1 a) as [s1a|] eqn:F1; [|discriminate].
    destruct (Hf a s1 s2 s1a Hd Hk F1) as [K1 (s2a & F2 & D2)].
    destruct (Hf a s2 s2 s2a eq_refl eq_refl F2) as [K2 _].
    destruct (IH s1a s2a s1' (eq_sym D2) ltac:(congruence) F) as [K3 (s2' & F3 & D3)].
    split; [congruence|]. rewrite F2. exists s2'. auto.
Qed.

Section ForwardKey.
Context {T : Type} `{TensorDomain T}.
Variable tr : bool.

Lemma run_pair (l1 l2 : layer) (x : T) : layer_key tr l1 = layer_key tr l2 ->
  exists y l1' l2', run_layer tr l1 x = (y, l1') /\ run_layer tr l2 x = (y, l2') /\
    layer_key tr l1' = layer_key tr l1.
Proof.
  intro K. pose proof (run_layer_key_eq tr l1 l2 x K) as E.
  pose proof (proj2 (run_layer_key tr l1 x)) as K1.
  destruct (run_layer tr l1 x) as [y1 l1'], (run_layer tr l2 x) as [y2 l2'].
  simpl in E, K1. subst y2. exists y1, l1', l2'. auto.
Qed.

Lemma call_entry_key (row1 row2 : list (option layer)) j (x y : T) row1' :
  row_key tr row1 = row_key tr row2 -> call_entry tr row1 j x = Some (y, row1') ->
  row_key tr row1' = row_key tr row1 /\ exists row2', call_entry tr row2 j x = Some (y, row2').
Proof.
  unfold call_entry. intros K F.
  destruct (nth_error row1 j) as [[l1|]|] eqn:E1; try discriminate.
  destruct (nth_error_map_eq _ _ _ _ _ K E1) as ([l2|] & E2 & Kl); try discriminate.
  rewrite E2. injection Kl as Kl.
  destruct (run_pair l1 l2 x (eq_sym Kl)) as (y' & l1' & l2' & R1 & R2 & K1).
  rewrite R1 in F. rewrite R2. injection F as <- <-. split.
  - unfold row_key. apply (map_set_at_key _ _ _ _ _ E1). simpl. congruence.
  - eexists. reflexivity.
Qed.

Lemma fuse_row_key nb i (row1 row2 : list (option layer)) (xs : list T) y row1' :
  row_key tr row1 = row_key tr row2 -> fuse_row tr nb i row1 xs = Some (y, row1') ->
  row_key tr row1' = row_key tr row1 /\ exists row2', fuse_row tr nb i row2 xs = Some (y, row2').
Proof.
  intros K F. unfold fuse_row in F |- *.
  destruct (nth_error xs 0) as [x0|]; [|discriminate].
  assert (Step : forall a s1 s2 s1', fst s1 = fst s2 ->
            row_key tr (snd s1) = row_key tr (snd s2) ->
            fuse_row_step tr i xs s1 a = Some s1' ->
            row_key tr (snd s1') = row_key tr (snd s1) /\
            exists s2', fuse_row_step tr i xs s2 a = Some s2' /\ fst s2' = fst s1').
  { intros a [y1 r1] [y2 r2] s1' Hd Hk G. simpl in Hd, Hk |- *. subst y2.
    unfold fuse_row_step in G |- *. destruct (nth_error xs a) as [xa|]; [|discriminate].
    destruct (Nat.eqb i a).
    - injection G as <-. split; [reflexivity|]. eexists. split; reflexivity.
    - destruct (call_entry tr r1 a xa) as [[z r1']|] eqn:C; [|discriminate].
      destruct (call_entry_key r1 r2 a xa z r1' Hk C) as [K1 [r2' C2]].
      rewrite C2. injection G as <-. split; [exact K1|]. eexists. split; reflexivity. }
  destruct (Nat.eqb i 0).
  - destruct (fold_opt_key fst (fun s => row_key tr (snd s)) _ _ Step (x0, row1) (x0, row2)
                (y, row1') eq_refl K F) as [K1 ([y2 r2] & F2 & D2)].
    simpl in D2. subst y2. split; [exact K1|]. eauto.
  - destruct (call_entry tr row1 0 x0) as [[y0 r0]|] eqn:C; [|discriminate].
    destruct (call_entry_key row1 row2 0 x0 y0 r0 K C) as [K0 [r0' C2]].
    destruct (call_entry_key row2 row2 0 x0 y0 r0' eq_refl C2) as [K0' _].
    rewrite C2.
    destruct (fold_opt_key fst (fun s => row_key tr (snd s)) _ _ Step (y0, r0) (y0, r0')
                (y, row1') eq_refl ltac:(simpl; congruence) F) as [K1 ([y2 r2] & F2 & D2)].
    simpl in D2, K1. subst y2. split; [congruence|]. eauto.
Qed.
End ForwardKey.

Section ModuleKey.
Context {T : Type} `{TensorDomain T}.
Variable tr : bool.

Lemma branch_step_key : forall (a : nat) (s1 s2 s1' : list T * list layer),
  fst s1 = fst s2 -> map (layer_key tr) (snd s1) = map (layer_key tr) (snd s2) ->
  branch_step tr s1 a = Some s1' ->
  map (layer_key tr) (snd s1') = map (layer_key tr) (snd s1) /\
  exists s2', branch_step tr s2 a = Some s2' /\ fst s2' = fst s1'.
Proof.
  intros a [xs b1] [xs2 b2] s1' Hd Hk F. simpl in Hd, Hk |- *. subst xs2.
  unfold branch_step in F |- *.
  destruct (nth_error b1 a) as [l1|] eqn:E1; [|discriminate].
  destruct (nth_error_map_eq _ _ _ _ _ Hk E1) as (l2 & E2 & Kl). rewrite E2.
  destruct (nth_error xs a) as [x|]; [|discriminate].
  destruct (run_pair tr l1 l2 x (eq_sym Kl)) as (y & l1' & l2' & R1 & R2 & K1).
  rewrite R1 in F. rewrite R2. injection F as <-. simpl. split.
  - exact (map_set_at_key _ _ _ _ _ E1 K1).
  - eexists. split; reflexivity.
Qed.

Lemma fuse_step_key nb (xs : list T) : forall (a : nat) (s1 s2 s1' : list T * list (list (option layer))),
  fst s1 = fst s2 -> map (row_key tr) (snd s1) = map (row_key tr) (snd s2) ->
  fuse_step tr nb xs s1 a = Some s1' ->
  map (row_key tr) (snd s1') = map (row_key tr) (snd s1) /\
  exists s2', fuse_step tr nb xs s2 a = Some s2' /\ fst s2' = fst s1'.
Proof.
  intros a [acc f1] [acc2 f2] s1' Hd Hk F. simpl in Hd, Hk |- *. subst acc2.
  unfold fuse_step in F |- *.
  destruct (nth_error f1 a) as [r1|] eqn:E1; [|discriminate].
  destruct (nth_error_map_eq _ _ _ _ _ Hk E1) as (r2 & E2 & Kr). rewrite E2.
  destruct (fuse_row tr nb a r1 xs) as [[y r1']|] eqn:F1; [|discriminate].
  destruct (fuse_row_key tr nb a r1 r2 xs y r1' (eq_sym Kr) F1) as [K1 [r2' F2]].
  rewrite F2. injection F as <-. simpl. split.
  - exact (map_set_at_key _ _ _ _ _ E1 K1).
  - eexists. split; reflexivity.
Qed.

Lemma hm_forward_key (m1 m2 : hr_module) (xs ys : list T) m1' :
  hm_key tr m1 = hm_key tr m2 -> hm_forward tr m1 xs = Some (ys, m1') ->
  hm_key tr m1' = hm_key tr m1 /\ exists m2', hm_forward tr m2 xs = Some (ys, m2').
Proof.
  destruct m1 as [nin nb ms b1 f1], m2 as [nin2 nb2 ms2 b2 f2].
  unfold hm_key. simpl. intros K F. injection K as <- <- <- Kb Kf.
  unfold hm_forward in F |- *.
  cbn [hm_num_branches hm_branches hm_fuse_layers hm_num_inchannels hm_multi_scale_output]
    in F |- *.
  destruct (Nat.eqb nb 1).
  - destruct (nth_error b1 0) as [l1|] eqn:E1; [|discriminate].
    destruct (nth_error_map_eq _ _ _ _ _ Kb E1) as (l2 & E2 & Kl). rewrite E2.
    destruct (nth_error xs 0) as [x|]; [|discriminate].
    destruct (run_pair tr l1 l2 x (eq_sym Kl)) as (y & l1' & l2' & R1 & R2 & K1).
    rewrite R1 in F. rewrite R2. injection F as <- <-. unfold hm_key.
    cbn [hm_num_branches hm_branches hm_fuse_layers hm_num_inchannels hm_multi_scale_output].
    split.
    + f_equal. destruct b1 as [|b b1]; [discriminate|]. simpl in E1 |- *.
      injection E1 as ->. rewrite K1. reflexivity.
    + eexists. reflexivity.
  - destruct (fold_opt (branch_step tr) (seq 0 nb) (xs, b1)) as [[xs1 b1']|] eqn:B1;
      [|discriminate].
    destruct (fold_opt_key fst (fun s => map (layer_key tr) (snd s)) _ _ (branch_step_key)
                (xs, b1) (xs, b2) (xs1, b1') eq_refl Kb B1) as [KB ([xs2 b2'] & B2 & DB)].
    simpl in KB, DB. subst xs2. rewrite B2.
    destruct f1 as [fl1|]; [|discriminate]. destruct f2 as [fl2|]; [|discriminate].
    injection Kf as Kf.
    assert (L : length fl1 = length fl2)
      by (rewrite <- (length_map (row_key tr) fl1), Kf, length_map; reflexivity).
    destruct (fold_opt (fuse_step tr nb xs1) (seq 0 (length fl1)) ([], fl1))
      as [[acc fl1']|] eqn:G1; [|discriminate].
    destruct (fold_opt_key fst (fun s => map (row_key tr) (snd s)) _ _ (fuse_step_key nb xs1)
                ([], fl1) ([], fl2) (acc, fl1') eq_refl Kf G1) as [KG ([acc2 fl2'] & G2 & DG)].
    simpl in KG, DG. subst acc2. rewrite <- L, G2. injection F as <- <-. unfold hm_key.
    cbn [hm_num_branches hm_branches hm_fuse_layers hm_num_inchannels hm_multi_scale_output option_map].
    split.
    + rewrite KB, KG. reflexivity.
    + eexists. reflexivity.
Qed.

Lemma run_modules_key (ms1 ms2 : list hr_module) (xs ys : list T) ms1' :
  map (hm_key tr) ms1 = map (hm_key tr) ms2 -> run_modules tr ms1 xs = Some (ys, ms1') ->
  map (hm_key tr) ms1' = map (hm_key tr) ms1 /\
  exists ms2', run_modules tr ms2 xs = Some (ys, ms2').
Proof.
  revert ms2 xs ys ms1'. induction ms1 as [|m1 ms1 IH]; intros [|m2 ms2] xs ys ms1' K F;
    cbn [map] in K; simpl in F |- *; try discriminate.
  - injection F as <- <-. split; [reflexivity|]. eexists. reflexivity.
  - pose proof (f_equal (hd (hm_key tr m1)) K) as Km.
    pose proof (f_equal (@tl _) K) as Kms. cbn [hd tl] in Km, Kms.
    destruct (hm_forward tr m1 xs) as [[zs m1']|] eqn:F1; [|discriminate].
    destruct (hm_forward_key m1 m2 xs zs m1' Km F1) as [K1 [m2' F2]]. rewrite F2.
    destruct (run_modules tr ms1 zs) as [[ws ms1'']|] eqn:R1; [|discriminate].
    destruct (IH ms2 zs ws ms1'' Kms R1) as [K2 [ms2' R2]]. rewrite R2.
    injection F as <- <-. simpl. split; [congruence|]. eexists. reflexivity.
Qed.
End ModuleKey.

Section NetKey.
Context {T : Type} `{TensorDomain T}.
Variable tr : bool.

Lemma run_transition_key (tl1 tl2 : list (option layer)) nbr (src : option T)
    (fb : nat -> option T) xl tl1' :
  row_key tr tl1 = row_key tr tl2 -> run_transition tr tl1 nbr src fb = Some (xl, tl1') ->
  row_key tr tl1' = row_key tr tl1 /\
  exists tl2', run_transition tr tl2 nbr src fb = Some (xl, tl2').
Proof.
  intros K F. unfold run_transition in F |- *.
  match type of F with fold_opt ?f _ _ = _ => set (step := f) in F |- * end.
  assert (Step : forall a s1 s2 s1', fst s1 = fst s2 ->
            row_key tr (snd s1) = row_key tr (snd s2) -> step s1 a = Some s1' ->
            row_key tr (snd s1') = row_key tr (snd s1) /\
            exists s2', step s2 a = Some s2' /\ fst s2' = fst s1').
  { intros a [xl1 t1] [xl2 t2] s1' Hd Hk G. simpl in Hd, Hk. subst xl2.
    unfold step in G |- *.
    destruct (nth_error t1 a) as [e1|] eqn:E1; [|discriminate].
    destruct (nth_error_map_eq _ _ _ _ _ Hk E1) as (e2 & E2 & Ke). rewrite E2.
    destruct e1 as [l1|], e2 as [l2|]; try discriminate.
    - injection Ke as Ke. destruct src as [s|]; [|discriminate].
      destruct (run_pair tr l1 l2 s (eq_sym Ke)) as (y & l1' & l2' & R1 & R2 & K1).
      rewrite R1 in G. rewrite R2. injection G as <-. simpl. split.
      + apply (map_set_at_key _ _ _ _ _ E1). simpl. congruence.
      + eexists. split; reflexivity.
    - destruct (fb a) as [x|]; [|discriminate]. injection G as <-. simpl.
      split; [reflexivity|]. eexists. split; reflexivity. }
  destruct (fold_opt_key fst (fun s => row_key tr (snd s)) _ _ Step ([], tl1) ([], tl2)
              (xl, tl1') eq_refl K F) as [K1 ([xl2 t2] & F2 & D2)].
  simpl in D2, K1. subst xl2. split; [exact K1|]. eauto.
Qed.

Ltac layer_step F l1 l2 x K :=
  let R1 := fresh "R" in let R2 := fresh "R" in let y := fresh "y" in
  let a := fresh "l" in let b := fresh "l" in let Ka := fresh "K" in
  destruct (run_pair tr l1 l2 x K) as (y & a & b & R1 & R2 & Ka);
  rewrite R1 in F; rewrite R2; cbv beta iota in F |- *.

Lemma hrnet_forward_key (n1 n2 : hrnet) (x y : T) n1' :
  hrnet_key tr n1 = hrnet_key tr n2 -> hrnet_forward tr n1 x = Some (y, n1') ->
  hrnet_key tr n1' = hrnet_key tr n1 /\ exists n2', hrnet_forward tr n2 x = Some (y, n2').
Proof.
  intros K F.
  pose proof (f_equal conv1 K) as Kc1. pose proof (f_equal bn1 K) as Kb1.
  pose proof (f_equal conv2 K) as Kc2. pose proof (f_equal bn2 K) as Kb2.
  pose proof (f_equal layer1 K) as Kl1.
  pose proof (f_equal stage2_cfg K) as Cf2. pose proof (f_equal stage3_cfg K) as Cf3.
  pose proof (f_equal stage4_cfg K) as Cf4. pose proof (f_equal backbone_channels K) as Bc.
  pose proof (f_equal transition1 K) as Kt1. pose proof (f_equal transition2 K) as Kt2.
  pose proof (f_equal transition3 K) as Kt3.
  pose proof (f_equal stage2 K) as Ks2. pose proof (f_equal stage3 K) as Ks3.
  pose proof (f_equal stage4 K) as Ks4.
  unfold hrnet_key in Kc1, Kb1, Kc2, Kb2, Kl1, Cf2, Cf3, Cf4, Bc, Kt1, Kt2, Kt3, Ks2, Ks3, Ks4.
  cbn [conv1 bn1 conv2 bn2 layer1 stage2_cfg stage3_cfg stage4_cfg backbone_channels
       transition1 transition2 transition3 stage2 stage3 stage4]
    in Kc1, Kb1, Kc2, Kb2, Kl1, Cf2, Cf3, Cf4, Bc, Kt1, Kt2, Kt3, Ks2, Ks3, Ks4.
  unfold hrnet_forward in F |- *. rewrite <- Cf2, <- Cf3, <- Cf4.
  layer_step F (conv1 n1) (conv1 n2) (d_input x) Kc1.
  layer_step F (bn1 n1) (bn1 n2) y0 Kb1.
  layer_step F (conv2 n1) (conv2 n2) (d_relu y1) Kc2.
  layer_step F (bn2 n1) (bn2 n2) y2 Kb2.
  layer_step F (layer1 n1) (layer1 n2) (d_relu y3) Kl1.
  destruct (run_transition tr (transition1 n1) _ _ _) as [[xl1 t1]|] eqn:T1; [|discriminate].
  destruct (run_transition_key _ _ _ _ _ _ _ Kt1 T1) as [KT1 [t1' T1']]. rewrite T1'.
  destruct (run_modules tr (stage2 n1) xl1) as [[yl1 s2]|] eqn:S1; [|discriminate].
  destruct (run_modules_key tr _ _ _ _ _ Ks2 S1) as [KS2 [s2' S2]]. rewrite S2.
  destruct (run_transition tr (transition2 n1) _ _ _) as [[xl2 t2]|] eqn:T2; [|discriminate].
  destruct (run_transition_key _ _ _ _ _ _ _ Kt2 T2) as [KT2 [t2' T2']]. rewrite T2'.
  destruct (run_modules tr (stage3 n1) xl2) as [[yl2 s3]|] eqn:S3; [|discriminate].
  destruct (run_modules_key tr _ _ _ _ _ Ks3 S3) as [KS3 [s3' S3']]. rewrite S3'.
  destruct (run_transition tr (transition3 n1) _ _ _) as [[xl3 t3]|] eqn:T3; [|discriminate].
  destruct (run_transition_key _ _ _ _ _ _ _ Kt3 T3) as [KT3 [t3' T3']]. rewrite T3'.
  destruct (run_modules tr (stage4 n1) xl3) as [[yl3 s4]|] eqn:S4; [|discriminate].
  destruct (run_modules_key tr _ _ _ _ _ Ks4 S4) as [KS4 [s4' S4']]. rewrite S4'.
  destruct (nth_error yl3 0) as [z|]; [|discriminate]. injection F as <- <-. split.
  - unfold hrnet_key. cbn [conv1 bn1 conv2 bn2 layer1 stage2_cfg stage3_cfg stage4_cfg
       backbone_channels transition1 transition2 transition3 stage2 stage3 stage4].
    congruence.
  - eexists. reflexivity.
Qed.
End NetKey.

Lemma romp_forward_key {T} `{TensorDomain T} (m1 m2 : rompv1) (image : T) out m1' :
  romp_key m1 = romp_key m2 -> romp_forward m1 image = Some (out, m1') ->
  romp_key m1' = romp_key m1 /\ exists m2', romp_forward m2 image = Some (out, m2').
Proof.
  intros K F.
  pose proof (f_equal training K) as Kt. pose proof (f_equal coordmaps K) as Kc.
  pose proof (f_equal backbone K) as Kb. pose proof (f_equal final_layers K) as Kf.
  unfold romp_key in Kt, Kc, Kb, Kf. cbn [training coordmaps backbone final_layers] in Kt, Kc, Kb, Kf.
  rewrite <- Kt in Kb, Kf.
  unfold romp_forward in F |- *. rewrite <- Kt, <- Kc.
  set (tr := training m1) in *.
  destruct (hrnet_forward tr (backbone m1) image) as [[x bb]|] eqn:B1; [|discriminate].
  destruct (hrnet_forward_key tr _ _ _ _ _ Kb B1) as [KB [bb' B2]]. rewrite B2.
  set (x' := d_cat1 [x; d_repeat_batch (d_const (coordmaps m1)) x]) in *.
  destruct (call_entry tr (final_layers m1) 1 x') as [[p f1]|] eqn:C1; [|discriminate].
  destruct (call_entry_key tr _ _ _ _ _ _ Kf C1) as [K1 [f1' C1']]. rewrite C1'.
  destruct (call_entry_key tr _ _ _ _ _ _ eq_refl C1') as [K1' _].
  destruct (call_entry tr f1 2 x') as [[c f2]|] eqn:C2; [|discriminate].
  destruct (call_entry_key tr f1 f1' _ _ _ _ ltac:(congruence) C2) as [K2 [f2' C2']].
  rewrite C2'.
  destruct (call_entry_key tr _ _ _ _ _ _ eq_refl C2') as [K2' _].
  destruct (call_entry tr f2 3 x') as [[cam f3]|] eqn:C3; [|discriminate].
  destruct (call_entry_key tr f2 f2' _ _ _ _ ltac:(congruence) C3) as [K3 [f3' C3']].
  rewrite C3'. injection F as <- <-. split.
  - unfold romp_key. cbn [training coordmaps backbone final_layers]. fold tr.
    rewrite KB. congruence.
  - eexists. reflexivity.
Qed.

Lemma row_key_false (r : list (option layer)) : row_key false r = r.
Proof. induction r as [|[l|] r IH]; simpl; f_equal; exact IH. Qed.

Lemma hm_key_false (m : hr_module) : hm_key false m = m.
Proof.
  destruct m as [nin nb ms brs fl]. unfold hm_key. cbn. f_equal.
  - apply map_id.
  - destruct fl as [fl|]; [|reflexivity]. cbn. f_equal.
    induction fl as [|r fl IH]; simpl; f_equal; [apply row_key_false | exact IH].
Qed.

Lemma hm_keys_false (ms : list hr_module) : map (hm_key false) ms = ms.
Proof. induction ms as [|m ms IH]; simpl; f_equal; [apply hm_key_false | exact IH]. Qed.

Lemma romp_key_false (m : rompv1) : training m = false -> romp_key m = m.
Proof.
  destruct m as [[c1 b1 c2 b2 l1 cf2 t1 s2 cf3 t2 s3 cf4 t3 s4 bc] fl cm tr].
  simpl. intros ->. unfold romp_key, hrnet_key.
  cbn [training backbone final_layers coordmaps conv1 bn1 conv2 bn2 layer1 stage2_cfg
       stage3_cfg stage4_cfg backbone_channels transition1 transition2 transition3
       stage2 stage3 stage4].
  rewrite !row_key_false, !hm_keys_false. reflexivity.
Qed.

Lemma nth_error_set_at_neq {A} (l : list A) p q a : p <> q -> nth_error (set_at p a l) q = nth_error l q.
Proof.
  revert p q. induction l as [|x l IH]; intros [|p] [|q] Hpq; simpl; try reflexivity; try lia.
  apply IH. lia.
Qed.

Lemma call_entry_some {T} `{TensorDomain T} tr row j x y row' :
  call_entry tr row j x = Some (y, row') ->
  exists l, nth_error row j = Some (Some l) /\ y = fst (run_layer tr l x) /\
            row' = set_at j (Some (snd (run_layer tr l x))) row.
Proof.
  unfold call_entry. destruct (nth_error row j) as [[l|]|]; try discriminate.
  destruct (run_layer tr l x) as [z l'] eqn:E. intro K. injection K as <- <-.
  exists l. rewrite E. auto.
Qed.

Lemma Q2R_11_10 : (1 < Q2R (11 # 10))%R.
Proof. unfold Q2R. simpl. Lra.lra. Qed.

(** Claim C3: over real-valued tensors, channel 0 of the parameter map
    returned by [ROMPv1.forward] is [1.1] raised to channel 0 of the raw
    output [rt] of the camera head [final_layers[3]] (applied to the
    backbone output concatenated with the coordinate maps), hence
    strictly positive, and the transform is strictly increasing in the
    raw value.  Every real number is finite; float32 rounding is not
    modelled. *)
Theorem cam_scale_positive (ops : value_ops) (m : rompv1) (image : vtensor) c pt m' :
  @romp_forward vtensor (value_domain ops) m image = Some ((c, Some pt), m') ->
  exists y bb head rt,
    @hrnet_forward vtensor (value_domain ops) (training m) (backbone m) image = Some (y, bb) /\
    nth 3 (final_layers m) None = Some head /\
    fst (@run_layer vtensor (value_domain ops) (training m) head
           (r_cat1 [y; v_repeat_batch ops (v_const ops (coordmaps m)) y])) = Some rt /\
    (exists b k rest k', shape rt = b :: k :: rest /\ 1 <= k /\ shape pt = b :: k + k' :: rest) /\
    (forall i0 idx,
       at_ pt (i0 :: O :: idx) = Rpower (Q2R (11 # 10)) (at_ rt (i0 :: O :: idx)) /\
       (0 < at_ pt (i0 :: O :: idx))%R) /\
    (forall i0 idx j0 jdx,
       (at_ rt (i0 :: O :: idx) < at_ rt (j0 :: O :: jdx))%R ->
       (at_ pt (i0 :: O :: idx) < at_ pt (j0 :: O :: jdx))%R).
Proof.
  unfold romp_forward. cbv zeta.
  destruct (@hrnet_forward vtensor (value_domain ops) (training m) (backbone m) image)
    as [[y bb]|] eqn:Eh; [|discriminate].
  set (X := @d_cat1 vtensor (value_domain ops)
              [y; d_repeat_batch (d_const (coordmaps m)) y]).
  destruct (@call_entry vtensor (value_domain ops) (training m) (final_layers m) 1 X)
    as [[pm fl1]|] eqn:E1; [|discriminate].
  destruct (@call_entry vtensor (value_domain ops) (training m) fl1 2 X)
    as [[cm fl2]|] eqn:E2; [|discriminate].
  destruct (@call_entry vtensor (value_domain ops) (training m) fl2 3 X)
    as [[km fl3]|] eqn:E3; [|discriminate].
  intro F. injection F as _ Ep _.
  destruct (call_entry_some _ _ _ _ _ _ E1) as (l1 & _ & _ & R1).
  destruct (call_entry_some _ _ _ _ _ _ E2) as (l2 & _ & _ & R2).
  destruct (call_entry_some _ _ _ _ _ _ E3) as (head & N3 & K3 & _).
  rewrite R2, nth_error_set_at_neq, R1, nth_error_set_at_neq in N3 by lia.
  cbn [d_cat1 d_pow_ch0 value_domain] in Ep.
  destruct km as [rt|]; [|discriminate].
  exists y, bb, head, rt. split; [reflexivity|].
  split; [apply nth_error_nth; exact N3|]. split; [symmetry; exact K3|].
  cbn [r_cat1] in Ep. unfold r_pow_ch0 in Ep.
  destruct (shape rt) as [|b [|k rest]] eqn:Sr; try discriminate.
  destruct (Nat.leb_spec 1 k) as [Hk|Hk]; [|discriminate].
  destruct pm as [pmt|]; [|discriminate].
  unfold t_cat1 in Ep. cbn [shape at_] in Ep.
  destruct (shape pmt) as [|b' [|k' rest']]; try discriminate.
  destruct (Nat.eqb b b' && list_nat_eqb rest rest'); [|discriminate].
  injection Ep as <-. cbn [shape at_].
  assert (P : forall i0 idx,
             (if nth 1 (i0 :: O :: idx) 0 <? k then
                if nth 1 (i0 :: O :: idx) 0 =? 0
                then Rpower (Q2R (11 # 10)) (at_ rt (i0 :: O :: idx))
                else at_ rt (i0 :: O :: idx)
              else at_ pmt (set_at 1 (nth 1 (i0 :: O :: idx) 0 - k) (i0 :: O :: idx))) =
             Rpower (Q2R (11 # 10)) (at_ rt (i0 :: O :: idx))).
  { intros i0 idx. cbn [nth]. replace (0 <? k) with true by (symmetry; apply Nat.ltb_lt; lia).
    reflexivity. }
  split; [exists b, k, rest, k'; auto|]. split.
  - intros i0 idx. rewrite P. split; [reflexivity|]. unfold Rpower. apply exp_pos.
  - intros i0 idx j0 jdx Hlt. rewrite !P. apply Rpower_lt; [exact Q2R_11_10 | exact Hlt].
Qed.

Lemma cam_scale_positive_witness :
  match ROMPv1 with
  | Some m => exists c pt m',
      @romp_forward vtensor (value_domain zero_ops) m (zeros (Some [1; 512; 512; 3]))
        = Some ((c, Some pt), m') /\
      exists y bb head rt,
        @hrnet_forward vtensor (value_domain zero_ops) (training m) (backbone m)
          (zeros (Some [1; 512; 512; 3])) = Some (y, bb) /\
        nth 3 (final_layers m) None = Some head /\
        fst (@run_layer vtensor (value_domain zero_ops) (training m) head
               (r_cat1 [y; v_repeat_batch zero_ops (v_const zero_ops (coordmaps m)) y])) = Some rt /\
        (exists b k rest k', shape rt = b :: k :: rest /\ 1 <= k /\ shape pt = b :: k + k' :: rest) /\
        (forall i0 idx,
           at_ pt (i0 :: O :: idx) = Rpower (Q2R (11 # 10)) (at_ rt (i0 :: O :: idx)) /\
           (0 < at_ pt (i0 :: O :: idx))%R) /\
        (forall i0 idx j0 jdx,
           (at_ rt (i0 :: O :: idx) < at_ rt (j0 :: O :: jdx))%R ->
           (at_ pt (i0 :: O :: idx) < at_ pt (j0 :: O :: jdx))%R)
  | None => False
  end.
Proof.
  assert (K : match ROMPv1 with
              | Some m => exists c pt m',
                  @romp_forward vtensor (value_domain zero_ops) m (zeros (Some [1; 512; 512; 3]))
                    = Some ((c, Some pt), m')
              | None => False
              end) by (vm_compute; eexists; eexists; eexists; reflexivity).
  revert K. destruct ROMPv1 as [m|]; [|intro K; exact K].
  intros (c & pt & m' & F). exists c, pt, m'. split; [exact F|].
  exact (cam_scale_positive zero_ops m _ c pt m' F).
Defined.

Lemma Forall2_flat_map_nth {A B} (g : A -> list B) (P : B -> B -> Prop) (l l' : list A) d :
  length l' = length l ->
  (forall p, p < length l -> Forall2 P (g (nth p l d)) (g (nth p l' d))) ->
  Forall2 P (flat_map g l) (flat_map g l').
Proof.
  revert l'. induction l as [|a l IH]; intros [|a' l'] Hl Hp; simpl in *; try discriminate.
  - constructor.
  - apply Forall2_app; [apply (Hp 0); lia|].
    apply IH; [lia|]. intros p Hp'. apply (Hp (S p)). lia.
Qed.

Lemma Forall2_flat_map {A B} (g : A -> list B) (P : B -> B -> Prop) (Q0 : A -> A -> Prop)
    (l l' : list A) :
  Forall2 Q0 l l' -> (forall a a', Q0 a a' -> Forall2 P (g a) (g a')) ->
  Forall2 P (flat_map g l) (flat_map g l').
Proof.
  intros F G. induction F; simpl; [constructor|]. apply Forall2_app; auto.
Qed.

Lemma fold_opt_pointwise {St A} (get : St -> list A) (d : A) (R : nat -> A -> A -> Prop)
    (f : St -> nat -> option St) :
  (forall s i s', f s i = Some s' ->
     length (get s') = length (get s) /\
     R i (nth i (get s) d) (nth i (get s') d) /\
     (forall p, p <> i -> nth p (get s') d = nth p (get s) d)) ->
  forall is s s', NoDup is -> fold_opt f is s = Some s' ->
    length (get s') = length (get s) /\
    (forall p, In p is -> R p (nth p (get s) d) (nth p (get s') d)) /\
    (forall p, ~ In p is -> nth p (get s') d = nth p (get s) d).
Proof.
  intros Hf is. induction is as [|i is IH]; intros s s' ND F; simpl in F.
  - injection F as <-. split; [reflexivity|]. split; [intros p []|reflexivity].
  - destruct (f s i) as [s1|] eqn:F1; [|discriminate].
    inversion ND as [|? ? Ni ND']. subst.
    destruct (Hf s i s1 F1) as (L1 & R1 & U1).
    destruct (IH s1 s' ND' F) as (L2 & R2 & U2).
    split; [congruence|]. split.
    + intros p [->|Hp].
      * rewrite (U2 p Ni). exact R1.
      * rewrite <- (U1 p) by (intros ->; contradiction). exact (R2 p Hp).
    + intros p Hp. rewrite (U2 p), (U1 p); [reflexivity| |]; intro; apply Hp; simpl; auto.
Qed.

Lemma set_at_pointwise {A} (l : list A) i a d :
  i < length l ->
  length (set_at i a l) = length l /\ nth i (set_at i a l) d = a /\
  (forall p, p <> i -> nth p (set_at i a l) d = nth p l d).
Proof.
  intro Hi. split; [apply set_at_length|]. split; [apply nth_set_at_eq; exact Hi|].
  intros p Hp. apply nth_set_at_neq. congruence.
Qed.

Lemma nth_error_lt {A} (l : list A) i a d : nth_error l i = Some a -> i < length l /\ nth i l d = a.
Proof.
  intro E. split; [apply nth_error_Some; congruence|].
  apply nth_error_nth; exact E.
Qed.

Section BnAdvance.
Context {T : Type} `{TensorDomain T}.

Lemma run_layer_advances (l : layer) : forall x : T, layer_adv l (snd (run_layer true l x)).
Proof.
  unfold layer_adv.
  assert (Hseq : forall ls, Forall (fun l => forall x : T,
              Forall2 bn_advanced (layer_bns l) (layer_bns (snd (run_layer true l x)))) ls ->
            forall x : T, Forall2 bn_advanced (flat_map layer_bns ls)
              (flat_map layer_bns (seq_layers (snd (run_layer true (Sequential ls) x))))).
  { intros ls F. induction F as [|l0 ls Hl Hls IH]; intro x; [constructor|].
    rewrite run_seq_snd. cbn [seq_layers flat_map]. apply Forall2_app; [apply Hl|apply IH]. }
  induction l using layer_ind'; intro x.
  - constructor.
  - cbn [run_layer]. destruct (d_bn_train c x) as [y [mu v]]. cbn [snd layer_bns].
    constructor; [|constructor]. split; [reflexivity|]. exists mu, v. reflexivity.
  - constructor.
  - constructor.
  - rewrite run_seq_is_seq. cbn [layer_bns]. apply Hseq. exact H0.
  - rewrite run_block_snd. cbn [layer_bns]. apply Forall2_app; [apply Hseq; exact H0|].
    destruct ds as [d|]; cbn [option_map]; [apply (H1 d eq_refl)|constructor].
Qed.

Lemma call_entry_advances (row : list (option layer)) j (x y : T) row' :
  call_entry true row j x = Some (y, row') ->
  length row' = length row /\ entry_adv (nth j row None) (nth j row' None) /\
  (forall p, p <> j -> nth p row' None = nth p row None).
Proof.
  unfold call_entry. destruct (nth_error row j) as [[l|]|] eqn:E; try discriminate.
  destruct (nth_error_lt _ _ _ None E) as [Hj Nj].
  pose proof (run_layer_advances l x) as A.
  destruct (run_layer true l x) as [z l'] eqn:Er. intro F. injection F as <- <-.
  destruct (set_at_pointwise row j (Some l') None Hj) as (L & N & U).
  rewrite Nj, N. split; [exact L|]. split; [exact A|exact U].
Qed.

Lemma fuse_row_advances nb i (row : list (option layer)) (xs : list T) y row' :
  row_wf nb i row = true -> fuse_row true nb i row xs = Some (y, row') ->
  Forall2 bn_advanced (row_bns row) (row_bns row').
Proof.
  unfold row_wf. intros W F. apply andb_prop in W as [Wl Wd]. apply Nat.eqb_eq in Wl.
  set (R := fun j e e' => if Nat.eqb j i then e' = e else entry_adv e e').
  assert (Step : forall s j s', fuse_row_step true i xs s j = Some s' ->
            length (snd s') = length (snd s) /\ R j (nth j (snd s) None) (nth j (snd s') None) /\
            (forall p, p <> j -> nth p (snd s') None = nth p (snd s) None)).
  { intros [z r] j s' G. unfold fuse_row_step in G. destruct (nth_error xs j) as [xj|]; [|discriminate].
    unfold R. destruct (Nat.eqb_spec i j) as [<-|Hij].
    - injection G as <-. rewrite Nat.eqb_refl. auto.
    - destruct (call_entry true r j xj) as [[w r']|] eqn:C; [|discriminate].
      injection G as <-. cbn [snd]. destruct (call_entry_advances r j xj w r' C) as (L & A & U).
      replace (Nat.eqb j i) with false by (symmetry; apply Nat.eqb_neq; congruence). auto. }
  unfold fuse_row in F. destruct (nth_error xs 0) as [x0|]; [|discriminate].
  destruct (if Nat.eqb i 0 then Some (x0, row) else call_entry true row 0 x0) as [[y0 r0]|] eqn:E0;
    [|discriminate].
  assert (S0 : length r0 = length row /\ R 0 (nth 0 row None) (nth 0 r0 None) /\
               (forall p, p <> 0 -> nth p r0 None = nth p row None)).
  { unfold R. destruct (Nat.eqb_spec i 0) as [->|Hi0].
    - injection E0 as <- <-. rewrite Nat.eqb_refl. auto.
    - destruct (call_entry_advances row 0 x0 y0 r0 E0) as (L & A & U).
      replace (Nat.eqb 0 i) with false by (symmetry; apply Nat.eqb_neq; congruence). auto. }
  destruct (fold_opt_pointwise snd None R _ Step (seq 1 (nb - 1)) (y0, r0) (y, row')
              (seq_NoDup _ _) F) as (L1 & R1 & U1).
  cbn [snd] in L1, R1, U1. destruct S0 as (L0 & R0 & U0).
  apply Forall2_flat_map_nth with (d := None); [congruence|].
  intros p Hp.
  assert (Rp : R p (nth p row None) (nth p row' None)).
  { destruct p as [|p].
    - rewrite U1; [exact R0|]. rewrite in_seq. lia.
    - rewrite <- (U0 (S p)) by lia. apply R1. rewrite in_seq. lia. }
  unfold R in Rp. destruct (Nat.eqb_spec p i) as [->|Hpi].
  - rewrite Rp. destruct (nth i row None); [discriminate|constructor].
  - exact Rp.
Qed.

Lemma hm_forward_advances (m : hr_module) (xs ys : list T) m' :
  hm_wf m = true -> hm_forward true m xs = Some (ys, m') ->
  Forall2 bn_advanced (hm_bns m) (hm_bns m').
Proof.
  unfold hm_wf, hm_forward. destruct m as [nin nb mso brs fl]. cbn [hm_branches hm_fuse_layers hm_num_branches hm_num_inchannels hm_multi_scale_output].
  intros W F. apply andb_prop in W as [Wl Wf]. apply Nat.eqb_eq in Wl.
  destruct (Nat.eqb nb 1) eqn:Enb.
  - apply Nat.eqb_eq in Enb. subst nb.
    destruct brs as [|b0 [|b1 brs]]; try discriminate.
    simpl in F. destruct xs as [|x0 xs0]; [discriminate|].
    pose proof (run_layer_advances b0 x0) as A.
    destruct (run_layer true b0 x0) as [y b0'] eqn:Er. injection F as <- <-.
    unfold hm_bns. cbn [hm_branches hm_fuse_layers flat_map].
    destruct fl as [fl|]; [simpl in Wf; discriminate|]. rewrite !app_nil_r. exact A.
  - destruct (fold_opt (branch_step true) (seq 0 nb) (xs, brs)) as [[xs1 brs1]|] eqn:Fb;
      [|discriminate].
    destruct fl as [fl|]; [|discriminate].
    destruct (fold_opt (fuse_step true nb xs1) (seq 0 (length fl)) ([], fl)) as [[xf fl1]|] eqn:Ff;
      [|discriminate].
    injection F as <- <-. unfold hm_bns. cbn [hm_branches hm_fuse_layers].
    apply andb_prop in Wf as [_ Wr]. rewrite forallb_forall in Wr.
    apply Forall2_app.
    + assert (Step : forall s i s', branch_step true s i = Some s' ->
                length (snd s') = length (snd s) /\
                layer_adv (nth i (snd s) ReLU) (nth i (snd s') ReLU) /\
                (forall p, p <> i -> nth p (snd s') ReLU = nth p (snd s) ReLU)).
      { intros [zs bs] i s' G. unfold branch_step in G.
        destruct (nth_error bs i) as [b|] eqn:Eb; [|discriminate].
        destruct (nth_error zs i) as [z|]; [|discriminate].
        destruct (nth_error_lt _ _ _ ReLU Eb) as [Hi Nb].
        pose proof (run_layer_advances b z) as A.
        destruct (run_layer true b z) as [w b'] eqn:Er. injection G as <-. cbn [snd].
        destruct (set_at_pointwise bs i b' ReLU Hi) as (L & N & U).
        rewrite Nb, N. auto. }
      destruct (fold_opt_pointwise snd ReLU (fun _ => layer_adv) _ Step (seq 0 nb) (xs, brs)
                  (xs1, brs1) (seq_NoDup _ _) Fb) as (L & Rb & _).
      cbn [snd] in L, Rb. apply Forall2_flat_map_nth with (d := ReLU); [congruence|].
      intros p Hp. apply Rb. rewrite in_seq. lia.
    + assert (Step : forall s i s', fuse_step true nb xs1 s i = Some s' ->
                length (snd s') = length (snd s) /\
                (fun i r r' => row_wf nb i r = true -> Forall2 bn_advanced (row_bns r) (row_bns r'))
                  i (nth i (snd s) []) (nth i (snd s') []) /\
                (forall p, p <> i -> nth p (snd s') [] = nth p (snd s) [])).
      { intros [acc f] i s' G. unfold fuse_step in G.
        destruct (nth_error f i) as [row|] eqn:Er; [|discriminate].
        destruct (fuse_row true nb i row xs1) as [[z row']|] eqn:Fr; [|discriminate].
        injection G as <-. cbn [snd]. destruct (nth_error_lt _ _ _ [] Er) as [Hi Nr].
        destruct (set_at_pointwise f i row' [] Hi) as (L & N & U).
        rewrite Nr, N. split; [exact L|]. split; [|exact U].
        intro Wi. exact (fuse_row_advances nb i row xs1 z row' Wi Fr). }
      destruct (fold_opt_pointwise snd [] _ _ Step (seq 0 (length fl)) ([], fl)
                  (xf, fl1) (seq_NoDup _ _) Ff) as (L & Rf & _).
      cbn [snd] in L, Rf. apply Forall2_flat_map_nth with (d := []); [congruence|].
      intros p Hp. apply Rf; [rewrite in_seq; lia|]. apply Wr. rewrite in_seq. lia.
Qed.

Lemma run_modules_advances (ms : list hr_module) : forall (xs ys : list T) ms',
  forallb hm_wf ms = true -> run_modules true ms xs = Some (ys, ms') ->
  Forall2 bn_advanced (flat_map hm_bns ms) (flat_map hm_bns ms').
Proof.
  induction ms as [|m ms IH]; intros xs ys ms' W F; simpl in F.
  - injection F as _ <-. constructor.
  - cbn [forallb] in W. apply andb_prop in W as [W1 W2].
    destruct (hm_forward true m xs) as [[zs m1]|] eqn:E1; [|discriminate].
    destruct (run_modules true ms zs) as [[ws ms1]|] eqn:E2; [|discriminate].
    injection F as _ <-. cbn [flat_map]. apply Forall2_app.
    + exact (hm_forward_advances m xs zs m1 W1 E1).
    + exact (IH zs ws ms1 W2 E2).
Qed.

Lemma run_transition_advances (tl : list (option layer)) nbr (src : option T) fb xl tl' :
  length tl = nbr -> run_transition true tl nbr src fb = Some (xl, tl') ->
  Forall2 bn_advanced (row_bns tl) (row_bns tl').
Proof.
  intros Hl F. unfold run_transition in F.
  assert (Step : forall s i s', (fun '(xl, tl) i =>
              let* e := nth_error tl i in
              match e with
              | None => let* x := fb i in Some (xl ++ [x], tl)
              | Some l =>
                  let* s := src in
                  let '(y, l') := run_layer true l s in
                  Some (xl ++ [y], set_at i (Some l') tl)
              end) s i = Some s' ->
            length (snd s') = length (snd s) /\
            entry_adv (nth i (snd s) None) (nth i (snd s') None) /\
            (forall p, p <> i -> nth p (snd s') None = nth p (snd s) None)).
  { intros [xs t] i s' G. destruct (nth_error t i) as [[l|]|] eqn:Et; try discriminate.
    - destruct src as [x|]; [|discriminate].
      destruct (nth_error_lt _ _ _ None Et) as [Hi Nt].
      pose proof (run_layer_advances l x) as A.
      destruct (run_layer true l x) as [w l'] eqn:Er. injection G as <-. cbn [snd].
      destruct (set_at_pointwise t i (Some l') None Hi) as (L & N & U).
      rewrite Nt, N. auto.
    - destruct (fb i) as [x|]; [|discriminate]. injection G as <-. cbn [snd].
      destruct (nth_error_lt _ _ _ None Et) as [_ Nt]. rewrite Nt. split; [reflexivity|].
      split; [constructor|reflexivity]. }
  destruct (fold_opt_pointwise snd None (fun _ => entry_adv) _ Step (seq 0 nbr) ([], tl)
              (xl, tl') (seq_NoDup _ _) F) as (L & Rt & _).
  cbn [snd] in L, Rt. apply Forall2_flat_map_nth with (d := None); [congruence|].
  intros p Hp. apply Rt. rewrite in_seq. lia.
Qed.

Lemma hrnet_forward_advances (n : hrnet) (x y : T) n' :
  hrnet_wf n = true -> hrnet_forward true n x = Some (y, n') ->
  Forall2 bn_advanced (hrnet_bns n) (hrnet_bns n').
Proof.
  unfold hrnet_wf, hrnet_forward. intros W F.
  repeat (apply andb_prop in W as [W ?]).
  match goal with H : Nat.eqb (length (transition1 n)) _ = true |- _ => apply Nat.eqb_eq in H end.
  match goal with H : Nat.eqb (length (transition2 n)) _ = true |- _ => apply Nat.eqb_eq in H end.
  match goal with H : Nat.eqb (length (transition3 n)) _ = true |- _ => apply Nat.eqb_eq in H end.
  pose proof (run_layer_advances (conv1 n) (d_input x)) as A1.
  destruct (run_layer true (conv1 n) (d_input x)) as [x1 c1].
  pose proof (run_layer_advances (bn1 n) x1) as A2.
  destruct (run_layer true (bn1 n) x1) as [x2 b1].
  pose proof (run_layer_advances (conv2 n) (d_relu x2)) as A3.
  destruct (run_layer true (conv2 n) (d_relu x2)) as [x3 c2].
  pose proof (run_layer_advances (bn2 n) x3) as A4.
  destruct (run_layer true (bn2 n) x3) as [x4 b2].
  pose proof (run_layer_advances (layer1 n) (d_relu x4)) as A5.
  destruct (run_layer true (layer1 n) (d_relu x4)) as [x5 l1]. cbn [snd] in *.
  destruct (run_transition true (transition1 n) _ _ _) as [[xl1 t1]|] eqn:T1; [|discriminate].
  destruct (run_modules true (stage2 n) xl1) as [[yl2 s2]|] eqn:S2; [|discriminate].
  destruct (run_transition true (transition2 n) _ _ _) as [[xl2 t2]|] eqn:T2; [|discriminate].
  destruct (run_modules true (stage3 n) xl2) as [[yl3 s3]|] eqn:S3; [|discriminate].
  destruct (run_transition true (transition3 n) _ _ _) as [[xl3 t3]|] eqn:T3; [|discriminate].
  destruct (run_modules true (stage4 n) xl3) as [[yl4 s4]|] eqn:S4; [|discriminate].
  destruct (nth_error yl4 0) as [y0|]; [|discriminate]. injection F as _ <-.
  unfold hrnet_bns. cbn [conv1 bn1 conv2 bn2 layer1 transition1 transition2 transition3
                         stage2 stage3 stage4].
  repeat apply Forall2_app; try assumption.
  - eapply run_transition_advances; eassumption.
  - eapply run_modules_advances; eassumption.
  - eapply run_transition_advances; eassumption.
  - eapply run_modules_advances; eassumption.
  - eapply run_transition_advances; eassumption.
  - eapply run_modules_advances; eassumption.
Qed.
End BnAdvance.

Lemma romp_forward_advances {T} `{TensorDomain T} (m : rompv1) (image : T) out m' :
  training m = true -> romp_wf m = true -> romp_forward m image = Some (out, m') ->
  Forall2 bn_advanced (romp_bns m) (romp_bns m').
Proof.
  intros Tr W. unfold romp_forward, romp_wf in *. rewrite Tr in *.
  apply andb_prop in W as [W W0]. apply andb_prop in W as [Wh Wl]. apply Nat.eqb_eq in Wl.
  destruct (hrnet_forward true (backbone m) image) as [[x bb]|] eqn:Eh; [|discriminate].
  set (X := d_cat1 [x; d_repeat_batch (d_const (coordmaps m)) x]).
  destruct (call_entry true (final_layers m) 1 X) as [[pm fl1]|] eqn:E1; [|discriminate].
  destruct (call_entry true fl1 2 X) as [[cm fl2]|] eqn:E2; [|discriminate].
  destruct (call_entry true fl2 3 X) as [[km fl3]|] eqn:E3; [|discriminate].
  intro F. injection F as _ <-. unfold romp_bns. cbn [backbone final_layers].
  apply Forall2_app; [exact (hrnet_forward_advances _ _ _ _ Wh Eh)|].
  destruct (call_entry_advances _ _ _ _ _ E1) as (L1 & A1 & U1).
  destruct (call_entry_advances _ _ _ _ _ E2) as (L2 & A2 & U2).
  destruct (call_entry_advances _ _ _ _ _ E3) as (L3 & A3 & U3).
  apply Forall2_flat_map_nth with (d := None); [congruence|].
  intros p Hp. rewrite Wl in Hp.
  destruct p as [|[|[|[|p]]]]; try lia.
  - rewrite U3, U2, U1 by lia. destruct (nth 0 (final_layers m) None); [discriminate|constructor].
  - rewrite U3, U2 by lia. exact A1.
  - rewrite U3 by lia. rewrite <- (U1 2) by lia. exact A2.
  - rewrite <- (U1 3), <- (U2 3) by lia. exact A3.
Qed.

(** Claim C8 fails: [ROMPv1] is in training mode after construction (the
    file never calls [eval()]), and there a forward pass updates the
    buffers of every [BatchNorm2d]: [num_batches_tracked] of the stem's
    [bn1] goes from 0 to 1, so the model returned differs from the one
    given. *)
Lemma romp_forward_stateless_counterexample :
  ~ (forall m out m', ROMPv1 = Some m ->
       romp_forward (T := shape_t) m (Some [1; 512; 512; 3]) = Some (out, m') -> m' = m).
Proof.
  intro Hst.
  assert (K : match ROMPv1 with
              | Some m =>
                  training m = true /\ bn_tracked (bn1 (backbone m)) = 0 /\
                  match romp_forward (T := shape_t) m (Some [1; 512; 512; 3]) with
                  | Some (_, m') => bn_tracked (bn1 (backbone m')) = 1
                  | None => False
                  end
              | None => False
              end) by (vm_compute; auto).
  revert K. destruct ROMPv1 as [m|] eqn:E; [|intro K; exact K].
  intros (Tr & K0 & K).
  revert K. destruct (romp_forward (T := shape_t) m (Some [1; 512; 512; 3])) as [[out m']|] eqn:F;
    [|intro K; exact K].
  intro K. rewrite (Hst m out m' eq_refl F), K0 in K. discriminate K.
Qed.

(** Claim C8, amended: a forward pass never changes what its output
    depends on ([romp_key]: the parameters, and in eval mode the
    [BatchNorm2d] buffers too); in eval mode it returns the model
    unchanged; in training mode, on a model of the shape the
    constructors build ([romp_wf]), it advances the running mean, the
    running variance and [num_batches_tracked] of every [BatchNorm2d] by
    one [bn_update]; and a second pass with the same input on the
    returned model gives the same output. *)
Theorem romp_forward_repeatable {T} `{TensorDomain T} (m : rompv1) (image : T) out m' :
  romp_forward m image = Some (out, m') ->
  romp_key m' = romp_key m /\
  (training m = false -> m' = m) /\
  (training m = true -> romp_wf m = true -> Forall2 bn_advanced (romp_bns m) (romp_bns m')) /\
  exists m'', romp_forward m' image = Some (out, m'').
Proof.
  intro F. destruct (romp_forward_key m m image out m' eq_refl F) as [K _].
  split; [exact K|]. split.
  - intro Hf. assert (Ht : training m' = training m)
      by (apply (f_equal training) in K; exact K).
    rewrite <- (romp_key_false m' ltac:(congruence)), <- (romp_key_false m Hf). exact K.
  - split.
    + intros Tr W. exact (romp_forward_advances m image out m' Tr W F).
    + exact (proj2 (romp_forward_key m m' image out m' (eq_sym K) F)).
Qed.

Lemma romp_forward_repeatable_witness :
  match ROMPv1 with
  | Some m => training m = true /\ romp_wf m = true /\ exists out m',
      romp_forward (T := shape_t) m (Some [1; 512; 512; 3]) = Some (out, m') /\
      romp_key m' = romp_key m /\ (training m = false -> m' = m) /\
      (training m = true -> romp_wf m = true -> Forall2 bn_advanced (romp_bns m) (romp_bns m')) /\
      exists m'', romp_forward m' (Some [1; 512; 512; 3]) = Some (out, m'')
  | None => False
  end.
Proof.
  assert (K : match ROMPv1 with
              | Some m => training m = true /\ romp_wf m = true /\ exists out m',
                  romp_forward (T := shape_t) m (Some [1; 512; 512; 3]) = Some (out, m')
              | None => False
              end) by (vm_compute; split; [reflexivity|split; [reflexivity|eexists; eexists; reflexivity]]).
  revert K. destruct ROMPv1 as [m|]; [|intro K; exact K].
  intros (Tr & W & out & m' & F). split; [exact Tr|]. split; [exact W|].
  exists out, m'. split; [exact F|].
  exact (romp_forward_repeatable m _ out m' F).
Defined.

(** * Further properties of the construction and forward code *)

Lemma insert_at_app {A} (l r : list A) a : insert_at (length l) a (l ++ r) = l ++ a :: r.
Proof. induction l as [|x l IH]; simpl; [destruct r; reflexivity | rewrite IH; reflexivity]. Qed.

Lemma remove_at_app {A} (l r : list A) a : remove_at (length l) (l ++ a :: r) = l ++ r.
Proof. induction l as [|x l IH]; simpl; [reflexivity | rewrite IH; reflexivity]. Qed.

Lemma set_at_app {A} (l r : list A) a b : set_at (length l) b (l ++ a :: r) = l ++ b :: r.
Proof. induction l as [|x l IH]; simpl; [reflexivity | rewrite IH; reflexivity]. Qed.

Lemma norm_dim_last (k : nat) : norm_dim (S k) (-1) = k.
Proof.
  unfold norm_dim. simpl (-1 <? 0)%Z. cbv iota.
  replace (Z.of_nat (S k) + -1)%Z with (Z.of_nat k) by lia. apply Nat2Z.id.
Qed.

Lemma swap_first_last {A} (x y z d : A) (rest : list A) :
  swap_at 1 (S (S (length rest))) d (x :: y :: rest ++ [z]) = x :: z :: rest ++ [y].
Proof.
  unfold swap_at.
  replace (nth (S (S (length rest))) (x :: y :: rest ++ [z]) d) with z
    by (symmetry; exact (nth_middle (x :: y :: rest) [] z d)).
  cbn [nth set_at].
  exact (set_at_app (x :: z :: rest) [] z y).
Qed.

Lemma BHWC_shape_at {A} (f : list nat -> A) (a c : nat) (l : list nat) :
  shape (BHWC_to_BCHW (mk_tensor (a :: l ++ [c]) f)) = a :: c :: l /\
  forall i0 i1 rest, length rest = length l ->
    at_ (BHWC_to_BCHW (mk_tensor (a :: l ++ [c]) f)) (i0 :: i1 :: rest) =
    f (i0 :: rest ++ [i1]).
Proof.
  unfold BHWC_to_BCHW, t_squeeze, t_transpose, t_unsqueeze. cbn [shape at_].
  change (norm_dim (S (length (a :: l ++ [c]))) 1) with 1.
  change (insert_at 1 1 (a :: l ++ [c])) with (a :: 1 :: l ++ [c]).
  assert (Lr : length (a :: 1 :: l ++ [c]) = S (S (S (length l))))
    by (simpl; rewrite length_app; simpl; lia).
  rewrite Lr, norm_dim_last.
  change (norm_dim (S (S (S (length l)))) 1) with 1.
  rewrite swap_first_last.
  assert (Lr' : length (a :: c :: l ++ [1]) = S (S (S (length l))))
    by (simpl; rewrite length_app; simpl; lia).
  rewrite Lr', norm_dim_last.
  replace (nth (S (S (length l))) (a :: c :: l ++ [1]) 0) with 1
    by (symmetry; exact (nth_middle (a :: c :: l) [] 1 0)).
  rewrite Nat.eqb_refl. cbn [shape at_]. split.
  - pose proof (remove_at_app (a :: c :: l) [] 1) as R. simpl in R |- *.
    rewrite R, app_nil_r. reflexivity.
  - intros i0 i1 rest Hr. rewrite <- Hr.
    pose proof (insert_at_app (i0 :: i1 :: rest) [] 0) as I. simpl length in I.
    rewrite app_nil_r in I.
    rewrite I. cbn [app]. rewrite swap_first_last. reflexivity.
Qed.

(** [BHWC_to_BCHW] (lines 39-44) on a tensor of shape
    [(a, d1, ..., dk, c)], of any rank at least 2, moves the last axis to
    position 1: the result has shape [(a, c, d1, ..., dk)] and its entry
    [(i0, i1, rest)] is the input's entry [(i0, rest, i1)]. *)
Theorem BHWC_to_BCHW_layout {A} (x : tensor A) (a c : nat) (l : list nat) :
  shape x = a :: l ++ [c] ->
  shape (BHWC_to_BCHW x) = a :: c :: l /\
  forall i0 i1 rest, length rest = length l ->
    at_ (BHWC_to_BCHW x) (i0 :: i1 :: rest) = at_ x (i0 :: rest ++ [i1]).
Proof. destruct x as [sx fx]. simpl. intros ->. apply BHWC_shape_at. Qed.

Lemma BHWC_to_BCHW_layout_witness :
  let x := mk_tensor [2; 5; 7; 3] (fun idx => idx) in
  shape x = 2 :: [5; 7] ++ [3] /\
  shape (BHWC_to_BCHW x) = 2 :: 3 :: [5; 7] /\
  forall i0 i1 rest, length rest = length [5; 7] ->
    at_ (BHWC_to_BCHW x) (i0 :: i1 :: rest) = at_ x (i0 :: rest ++ [i1]).
Proof. intro x. split; [reflexivity|]. apply (BHWC_to_BCHW_layout x 2 3 [5; 7]). reflexivity. Defined.

Lemma coord_value_mirror (N c : nat) : 2 <= N -> c < N ->
  exists q q', coord_value N c = Fin q /\ coord_value N (N - 1 - c) = Fin q' /\ (q + q' == 0)%Q.
Proof.
  intros HN Hc. rewrite !coord_value_fin by lia. eexists; eexists; split; [reflexivity|].
  split; [reflexivity|].
  assert (Hd : ~ (inject_Z (Z.of_nat N - 1) == 0)%Q) by (unfold Qeq; simpl; lia).
  assert (E : (inject_Z (Z.of_nat (N - 1 - c)) ==
               inject_Z (Z.of_nat N - 1) - inject_Z (Z.of_nat c))%Q)
    by (unfold Qeq; simpl; lia).
  rewrite E. field. exact Hd.
Qed.

(** [get_coord_maps(N)] (lines 8-37): channel 1 is channel 0 transposed,
    channel 0 is constant along each column, and for [N >= 2] channel 0 is
    antisymmetric under the column reflection [c -> N - 1 - c] (the two
    values sum to 0). *)
Theorem get_coord_maps_symmetry (N : nat) :
  exists t, get_coord_maps N = Some t /\ shape t = [1; 2; N; N] /\
    (forall r c, at_ t [0; 1; r; c] = at_ t [0; 0; c; r]) /\
    (forall r r' c, at_ t [0; 0; r; c] = at_ t [0; 0; r'; c]) /\
    (forall r c, 2 <= N -> c < N ->
       exists q q', at_ t [0; 0; r; c] = Fin q /\ at_ t [0; 0; r; N - 1 - c] = Fin q' /\
                    (q + q' == 0)%Q).
Proof.
  destruct (get_coord_maps_entries N) as (t & E & Sh & At).
  exists t. split; [exact E|]. split; [exact Sh|]. split; [|split].
  - intros r c. rewrite (proj2 (At r c)), (proj1 (At c r)). reflexivity.
  - intros r r' c. rewrite (proj1 (At r c)), (proj1 (At r' c)). reflexivity.
  - intros r c HN Hc. rewrite (proj1 (At r c)), (proj1 (At r (N - 1 - c))).
    apply coord_value_mirror; assumption.
Qed.


Lemma nth_error_Some_iff_lt {A} (l : list A) k : nth_error l k <> None <-> k < length l.
Proof. apply nth_error_Some. Qed.

Lemma make_branches_from_spec n : forall i nin blk nbk nch,
  (make_branches_from i n nin blk nbk nch <> None <->
     n = 0 \/ (i + n <= length nin /\ i + n <= length nbk /\ i + n <= length nch)) /\
  (forall brs nin', make_branches_from i n nin blk nbk nch = Some (brs, nin') ->
     length brs = n /\ length nin' = length nin /\
     forall k, nth k nin' 0 =
       if (i <=? k) && (k <? i + n) then nth k nch 0 * expansion blk else nth k nin 0).
Proof.
  induction n as [|n IH]; intros i nin blk nbk nch.
  - split.
    + simpl. split; [intros _; left; reflexivity | discriminate].
    + intros brs nin' E. simpl in E. injection E as <- <-. split; [reflexivity|].
      split; [reflexivity|]. intro k.
      replace ((i <=? k) && (k <? i + 0)) with false
        by (destruct (Nat.leb_spec i k), (Nat.ltb_spec k (i + 0)); simpl; auto; lia).
      reflexivity.
  - cbn [make_branches_from]. unfold make_one_branch.
    destruct (nth_error nin i) as [inc|] eqn:Ei;
    [|split; [split; [intro C; exfalso; apply C; reflexivity|]; intros [C|(C & _)];
               [discriminate | apply nth_error_None in Ei; lia]
             | discriminate]].
    destruct (nth_error nch i) as [ch|] eqn:Ec;
    [|split; [split; [intro C; exfalso; apply C; reflexivity|]; intros [C|(_ & _ & C)];
               [discriminate | apply nth_error_None in Ec; lia]
             | discriminate]].
    destruct (nth_error nbk i) as [nbi|] eqn:Eb;
    [|split; [split; [intro C; exfalso; apply C; reflexivity|]; intros [C|(_ & C & _)];
               [discriminate | apply nth_error_None in Eb; lia]
             | discriminate]].
    assert (Li : i < length nin) by (apply nth_error_Some; congruence).
    assert (Lc : i < length nch) by (apply nth_error_Some; congruence).
    assert (Lb : i < length nbk) by (apply nth_error_Some; congruence).
    destruct (IH (S i) (set_at i (ch * expansion blk) nin) blk nbk nch) as [IHs IHr].
    rewrite set_at_length in IHs. split.
    + destruct (make_branches_from (S i) n (set_at i (ch * expansion blk) nin) blk nbk nch)
        as [[brs nin']|] eqn:E.
      * split; [intros _; right | intros _; discriminate].
        destruct (proj1 IHs ltac:(discriminate)) as [->|(A1 & A2 & A3)]; lia.
      * split; [intro C; exfalso; apply C; reflexivity|].
        intros [C|(A1 & A2 & A3)]; [discriminate|].
        apply (proj2 IHs); right; lia.
    + intros brs nin' E.
      destruct (make_branches_from (S i) n (set_at i (ch * expansion blk) nin) blk nbk nch)
        as [[brs1 nin1]|] eqn:E1; [|discriminate].
      injection E as <- <-. destruct (IHr brs1 nin1 eq_refl) as (B1 & B2 & B3).
      split; [simpl; lia|]. split; [rewrite B2, set_at_length; reflexivity|].
      intro k. rewrite B3. destruct (Nat.eq_dec k i) as [->|Hk].
      * rewrite nth_set_at_eq by exact Li.
        replace ((S i <=? i) && (i <? S i + n)) with false
          by (destruct (Nat.leb_spec (S i) i); simpl; auto; lia).
        replace ((i <=? i) && (i <? i + S n)) with true
          by (rewrite Nat.leb_refl; simpl; symmetry; apply Nat.ltb_lt; lia).
        rewrite (nth_error_nth nch i 0 Ec). reflexivity.
      * rewrite nth_set_at_neq by congruence.
        destruct (Nat.leb_spec (S i) k), (Nat.ltb_spec k (S i + n)),
                 (Nat.leb_spec i k), (Nat.ltb_spec k (i + S n)); simpl; try lia; reflexivity.
Qed.

Lemma updated_inchannels_nth nb blk nch nin k : k < length nin ->
  nth k (updated_inchannels nb blk nch nin) 0 =
  if k <? nb then nth k nch 0 * expansion blk else nth k nin 0.
Proof.
  intro Hk. unfold updated_inchannels.
  exact (nth_map_seq (fun k => if k <? nb then nth k nch 0 * expansion blk else nth k nin 0)
           (length nin) k 0 Hk).
Qed.

Lemma updated_inchannels_length nb blk nch nin :
  length (updated_inchannels nb blk nch nin) = length nin.
Proof. unfold updated_inchannels. rewrite length_map, length_seq. reflexivity. Qed.

Lemma updated_inchannels_idem nb blk nch nin :
  updated_inchannels nb blk nch (updated_inchannels nb blk nch nin) =
  updated_inchannels nb blk nch nin.
Proof.
  apply nth_ext with (d := 0) (d' := 0); rewrite !updated_inchannels_length; [reflexivity|].
  intros k Hk. rewrite !updated_inchannels_nth by (rewrite ?updated_inchannels_length; exact Hk).
  destruct (k <? nb); reflexivity.
Qed.

Lemma hr_module_spec nb blk nbk nin nch ms :
  (HighResolutionModule nb blk nbk nin nch ms <> None <->
     nb <= length nin /\ nb <= length nbk /\ nb <= length nch) /\
  (forall m, HighResolutionModule nb blk nbk nin nch ms = Some m ->
     hm_num_inchannels m = updated_inchannels nb blk nch nin /\
     hm_num_branches m = nb /\ hm_multi_scale_output m = ms /\
     length (hm_branches m) = nb).
Proof.
  destruct (make_branches_from_spec nb 0 nin blk nbk nch) as [S1 S2].
  unfold HighResolutionModule, make_branches. split.
  - destruct (make_branches_from 0 nb nin blk nbk nch) as [[brs nin']|] eqn:E.
    + split; [intros _|intros _; discriminate].
      destruct (proj1 S1 ltac:(discriminate)) as [->|H]; lia.
    + split; [intro C; exfalso; apply C; reflexivity|]. intro H. exfalso.
      apply (proj2 S1); [destruct nb; [left; reflexivity | right; simpl; lia] | reflexivity].
  - intros m E. destruct (make_branches_from 0 nb nin blk nbk nch) as [[brs nin']|] eqn:E1;
      [|discriminate].
    injection E as <-. cbn [hm_num_inchannels hm_num_branches hm_multi_scale_output hm_branches].
    destruct (S2 brs nin' eq_refl) as (B1 & B2 & B3). split; [|auto].
    apply nth_ext with (d := 0) (d' := 0); [rewrite updated_inchannels_length; exact B2|].
    intros k Hk. rewrite B3, updated_inchannels_nth by lia.
    simpl. destruct (k <? nb); reflexivity.
Qed.

(** [HighResolutionModule.__init__] (lines 130-143) with [_make_branches]
    and [get_num_inchannels]: construction succeeds exactly when
    [num_inchannels], [num_blocks] and [num_channels] each have at least
    [num_branches] entries (otherwise [IndexError]).  Then [num_inchannels]
    keeps its length, its first [num_branches] entries become
    [num_channels[k] * expansion] and the others are unchanged, there are
    [num_branches] branches, and the fuse layers are built from the updated
    [num_inchannels]. *)
Theorem hr_module_construction nb blk nbk nin nch ms :
  (HighResolutionModule nb blk nbk nin nch ms <> None <->
     nb <= length nin /\ nb <= length nbk /\ nb <= length nch) /\
  (forall m, HighResolutionModule nb blk nbk nin nch ms = Some m ->
     length (hm_num_inchannels m) = length nin /\
     (forall k, k < length nin ->
        nth k (hm_num_inchannels m) 0 =
          if k <? nb then nth k nch 0 * expansion blk else nth k nin 0) /\
     length (hm_branches m) = nb /\
     hm_fuse_layers m = make_fuse_layers nb ms (hm_num_inchannels m)).
Proof.
  destruct (hr_module_spec nb blk nbk nin nch ms) as [S1 S2]. split; [exact S1|].
  intros m E. destruct (S2 m E) as (A1 & A2 & A3 & A4).
  destruct (HighResolutionModule_fields _ _ _ _ _ _ _ E) as (_ & _ & _ & F).
  rewrite A1. split; [apply updated_inchannels_length|]. split.
  - intros k Hk. apply updated_inchannels_nth. exact Hk.
  - split; [exact A4 | rewrite <- A1; exact F].
Qed.

Lemma make_stage_modules_spec r : forall i M cfg nin ms,
  (make_stage_modules i r M cfg nin ms <> None <->
     r = 0 \/ (NUM_BRANCHES cfg <= length nin /\ NUM_BRANCHES cfg <= length (NUM_BLOCKS cfg) /\
               NUM_BRANCHES cfg <= length (NUM_CHANNELS cfg))) /\
  (forall mods nin', make_stage_modules i r M cfg nin ms = Some (mods, nin') ->
     length mods = r /\
     nin' = (if r =? 0 then nin
             else updated_inchannels (NUM_BRANCHES cfg) (BLOCK cfg) (NUM_CHANNELS cfg) nin) /\
     forall k, k < r -> exists mk, nth_error mods k = Some mk /\
       hm_num_branches mk = NUM_BRANCHES cfg /\
       hm_num_inchannels mk =
         updated_inchannels (NUM_BRANCHES cfg) (BLOCK cfg) (NUM_CHANNELS cfg) nin /\
       hm_multi_scale_output mk = (ms || negb (i + k =? M - 1))).
Proof.
  induction r as [|r IH]; intros i M cfg nin ms.
  - split; [simpl; split; [intros _; left; reflexivity | discriminate]|].
    intros mods nin' E. simpl in E. injection E as <- <-.
    split; [reflexivity|]. split; [reflexivity|]. intros k Hk; lia.
  - cbn [make_stage_modules].
    set (rms := if negb ms && Nat.eqb i (M - 1) then false else true).
    destruct (hr_module_spec (NUM_BRANCHES cfg) (BLOCK cfg) (NUM_BLOCKS cfg) nin
                (NUM_CHANNELS cfg) rms) as [H1 H2].
    destruct (HighResolutionModule (NUM_BRANCHES cfg) (BLOCK cfg) (NUM_BLOCKS cfg) nin
                (NUM_CHANNELS cfg) rms) as [m|] eqn:Em.
    + destruct (H2 m eq_refl) as (M1 & M2 & M3 & M4).
      pose proof (proj1 H1 ltac:(discriminate)) as Hl.
      destruct (IH (S i) M cfg (hm_num_inchannels m) ms) as [J1 J2].
      assert (Lm : length (hm_num_inchannels m) = length nin)
        by (rewrite M1; apply updated_inchannels_length).
      rewrite Lm in J1. split.
      * destruct (make_stage_modules (S i) r M cfg (hm_num_inchannels m) ms)
          as [[ms1 nin1]|] eqn:E1.
        -- split; [intros _; right; exact Hl | intros _; discriminate].
        -- exfalso. apply (proj2 J1); [right; exact Hl | reflexivity].
      * intros mods nin' E.
        destruct (make_stage_modules (S i) r M cfg (hm_num_inchannels m) ms)
          as [[ms1 nin1]|] eqn:E1; [|discriminate].
        injection E as <- <-. destruct (J2 ms1 nin1 eq_refl) as (K1 & K2 & K3).
        rewrite M1, updated_inchannels_idem in K2, K3.
        split; [simpl; lia|]. split.
        -- rewrite K2. destruct (r =? 0); reflexivity.
        -- intros [|k] Hk.
           ++ exists m. split; [reflexivity|]. split; [exact M2|]. split; [exact M1|].
              rewrite M3. unfold rms. rewrite Nat.add_0_r.
              destruct ms, (Nat.eqb i (M - 1)); reflexivity.
           ++ destruct (K3 k ltac:(lia)) as (mk & N1 & N2 & N3 & N4).
              exists mk. split; [exact N1|]. split; [exact N2|]. split; [exact N3|].
              rewrite N4. do 3 f_equal. lia.
    + split.
      * split; [intro C; exfalso; apply C; reflexivity|].
        intros [C|C]; [discriminate|]. exfalso. apply (proj2 H1 C). reflexivity.
      * intros mods nin' E. discriminate.
Qed.

(** [_make_stage] (lines 305-334): it succeeds exactly when the stage has
    no module or the three lists of its configuration have at least
    [NUM_BRANCHES] entries.  It builds [NUM_MODULES] modules which all
    hold the returned [num_inchannels]: [NUM_CHANNELS[k] * expansion] on
    the first [NUM_BRANCHES] entries and the input elsewhere (the input
    itself when there is no module).  Module [k] has multi-scale output
    unless [multi_scale_output] is false and [k] is the last module. *)
Theorem make_stage_spec (cfg : stage_cfg) (nin : list nat) (ms : bool) :
  (make_stage cfg nin ms <> None <->
     NUM_MODULES cfg = 0 \/
     (NUM_BRANCHES cfg <= length nin /\ NUM_BRANCHES cfg <= length (NUM_BLOCKS cfg) /\
      NUM_BRANCHES cfg <= length (NUM_CHANNELS cfg))) /\
  (forall mods nin', make_stage cfg nin ms = Some (mods, nin') ->
     length mods = NUM_MODULES cfg /\
     (0 < NUM_MODULES cfg -> forall k, k < length nin ->
        nth k nin' 0 = if k <? NUM_BRANCHES cfg
                       then nth k (NUM_CHANNELS cfg) 0 * expansion (BLOCK cfg)
                       else nth k nin 0) /\
     (NUM_MODULES cfg = 0 -> nin' = nin) /\
     forall k, k < NUM_MODULES cfg -> exists mk, nth_error mods k = Some mk /\
       hm_num_branches mk = NUM_BRANCHES cfg /\ hm_num_inchannels mk = nin' /\
       hm_multi_scale_output mk = (ms || negb (k =? NUM_MODULES cfg - 1))).
Proof.
  destruct (make_stage_modules_spec (NUM_MODULES cfg) 0 (NUM_MODULES cfg) cfg nin ms)
    as [S1 S2].
  unfold make_stage. split; [exact S1|].
  intros mods nin' E. destruct (S2 mods nin' E) as (A1 & A2 & A3).
  split; [exact A1|]. split; [|split].
  - intros Hm k Hk. rewrite A2. replace (NUM_MODULES cfg =? 0) with false
      by (symmetry; apply Nat.eqb_neq; lia).
    apply updated_inchannels_nth. exact Hk.
  - intro Hm. rewrite A2, Hm. reflexivity.
  - intros k Hk. destruct (A3 k Hk) as (mk & N1 & N2 & N3 & N4).
    exists mk. split; [exact N1|]. split; [exact N2|]. split.
    + rewrite N3, A2. replace (NUM_MODULES cfg =? 0) with false
        by (symmetry; apply Nat.eqb_neq; lia). reflexivity.
    + exact N4.
Qed.

Lemma fold_opt_ext_in {St A} (f g : St -> A -> option St) (l : list A) :
  (forall s a, In a l -> f s a = g s a) -> forall s, fold_opt f l s = fold_opt g l s.
Proof.
  induction l as [|a l IH]; intros Hfg s; simpl; [reflexivity|].
  rewrite Hfg by (left; reflexivity). destruct (g s a); [|reflexivity].
  apply IH. intros s' b Hb. apply Hfg. right. exact Hb.
Qed.

Lemma set_at_app_l {A} (l r : list A) p a : p < length l -> set_at p a (l ++ r) = set_at p a l ++ r.
Proof. revert p; induction l as [|x l IH]; intros [|p] Hp; simpl in *; try lia; auto.
  rewrite IH by lia. reflexivity. Qed.

Section HmInputs.
Context {T : Type} `{TensorDomain T}.
Variable tr : bool.

Lemma branch_fold_short n : forall a (xs : list T) brs,
  a <= length xs -> length xs < a + n ->
  fold_opt (branch_step tr) (seq a n) (xs, brs) = None.
Proof.
  induction n as [|n IH]; intros a xs brs Ha Hn; [lia|].
  simpl. destruct (nth_error brs a) as [b|]; [|reflexivity].
  destruct (nth_error xs a) as [x|] eqn:Ex; [|reflexivity].
  assert (a < length xs) by (apply nth_error_Some; congruence).
  destruct (run_layer tr b x) as [y b']. cbv beta iota.
  apply IH; rewrite set_at_length; lia.
Qed.

Lemma branch_fold_app n : forall a (xs ys : list T) brs,
  a + n <= length xs ->
  fold_opt (branch_step tr) (seq a n) (xs ++ ys, brs) =
  option_map (fun s => (fst s ++ ys, snd s)) (fold_opt (branch_step tr) (seq a n) (xs, brs)).
Proof.
  induction n as [|n IH]; intros a xs ys brs Hn; [reflexivity|].
  simpl. destruct (nth_error brs a) as [b|]; [|reflexivity].
  rewrite nth_error_app1 by lia.
  destruct (nth_error xs a) as [x|]; [|reflexivity].
  destruct (run_layer tr b x) as [y b']. cbv beta iota.
  rewrite set_at_app_l by lia. apply IH. rewrite set_at_length. lia.
Qed.

Lemma fuse_row_app nb i row (xs ys : list T) :
  nb <= length xs -> 0 < length xs -> fuse_row tr nb i row (xs ++ ys) = fuse_row tr nb i row xs.
Proof.
  intros Hnb Hx. unfold fuse_row. rewrite nth_error_app1 by exact Hx.
  destruct (nth_error xs 0) as [x0|]; [|reflexivity].
  destruct (if Nat.eqb i 0 then Some (x0, row) else call_entry tr row 0 x0) as [s|];
    [|reflexivity].
  apply fold_opt_ext_in. intros [y r] j Hj. apply in_seq in Hj.
  unfold fuse_row_step. rewrite nth_error_app1 by lia. reflexivity.
Qed.
End HmInputs.

(** [HighResolutionModule.forward] (lines 226-244): with fewer inputs than
    branches it raises [IndexError]; given at least [num_branches] inputs
    (and at least one), the inputs past [num_branches] are ignored. *)
Theorem hm_forward_inputs {T} `{TensorDomain T} (tr : bool) (m : hr_module) (xs ys : list T) :
  (length xs < hm_num_branches m -> hm_forward tr m xs = None) /\
  (hm_num_branches m <= length xs -> 0 < length xs ->
   hm_forward tr m (xs ++ ys) = hm_forward tr m xs).
Proof.
  unfold hm_forward. split.
  - intro Hl. destruct (Nat.eqb (hm_num_branches m) 1) eqn:E1.
    + apply Nat.eqb_eq in E1. destruct xs; [|simpl in Hl; lia].
      destruct (nth_error (hm_branches m) 0); reflexivity.
    + rewrite (branch_fold_short tr (hm_num_branches m) 0 xs) by lia. reflexivity.
  - intros Hnb Hx. destruct (Nat.eqb (hm_num_branches m) 1).
    + rewrite nth_error_app1 by exact Hx. reflexivity.
    + rewrite (branch_fold_app tr (hm_num_branches m) 0 xs ys) by lia.
      destruct (fold_opt (branch_step tr) (seq 0 (hm_num_branches m)) (xs, hm_branches m))
        as [[xs1 brs1]|] eqn:F; [|reflexivity]. cbn [option_map fst snd].
      assert (L1 : length xs1 = length xs).
      { clear -F. revert F. generalize (hm_branches m) as brs.
        generalize 0 as a. generalize (hm_num_branches m) as n.
        intros n; revert xs xs1 brs1.
        induction n as [|n IH]; intros xs xs1 brs1 a brs F; simpl in F.
        - injection F as <- _. reflexivity.
        - destruct (nth_error brs a) as [b|]; [|discriminate].
          destruct (nth_error xs a) as [x|]; [|discriminate].
          destruct (run_layer tr b x) as [y b']. cbv beta iota in F.
          rewrite (IH _ _ _ _ _ F). apply set_at_length. }
      destruct (hm_fuse_layers m) as [fl|]; [|reflexivity]. cbv beta iota.
      rewrite (fold_opt_ext_in (fuse_step tr (hm_num_branches m) (xs1 ++ ys))
                 (fuse_step tr (hm_num_branches m) xs1)); [reflexivity|].
      intros [acc f] i _. unfold fuse_step.
      destruct (nth_error f i); [|reflexivity].
      rewrite fuse_row_app by lia. reflexivity.
Qed.


Lemma down2_le h : 1 <= h -> 1 <= down2 h <= h.
Proof. intro Hh. unfold down2. split; [lia|]. apply out_size_le; lia. Qed.

Lemma iter_down2_le k h : 1 <= h -> 1 <= Nat.iter k down2 h <= h.
Proof.
  induction k as [|k IH]; intro Hh; simpl; [lia|].
  destruct (IH Hh). pose proof (down2_le (Nat.iter k down2 h)). lia.
Qed.

Lemma down2_double m : 1 <= m -> down2 (2 * m) = m.
Proof.
  intro Hm. unfold down2. replace (2 * m - 1) with ((m - 1) * 2 + 1) by lia.
  rewrite Nat.div_add_l by lia. simpl. lia.
Qed.

Lemma iter_down2_pow k b : 1 <= b -> Nat.iter k down2 (b * 2 ^ k) = b.
Proof.
  revert b. induction k as [|k IH]; intros b Hb; [simpl; lia|].
  rewrite Nat.iter_succ_r.
  replace (b * 2 ^ S k) with (2 * (b * 2 ^ k)) by (rewrite Nat.pow_succ_r'; lia).
  rewrite down2_double; [apply IH; exact Hb|].
  pose proof (Nat.pow_nonzero 2 k ltac:(lia)). nia.
Qed.

Lemma conv_s2_ok tr cin cout b n h w : 1 <= h -> 1 <= w ->
  fst (run_layer tr (Conv2d cin cout 3 2 1 b) (Some [n; cin; h; w])) =
  Some [n; cout; down2 h; down2 w].
Proof. intros Hh Hw. apply conv_ok; apply conv_out_3x3; lia. Qed.

Lemma down_chain tr (f : nat -> layer) p q K :
  (forall j n h w, j < K -> 1 <= h -> 1 <= w -> (tr = false \/ 1 < n * down2 h * down2 w) ->
     fst (run_layer tr (f j) (Some [n; p; h; w])) =
       Some [n; if j =? K - 1 then q else p; down2 h; down2 w]) ->
  forall k s n h w, s + k = K -> 0 < k -> 1 <= h -> 1 <= w ->
    (tr = false \/ 1 < n * Nat.iter k down2 h * Nat.iter k down2 w) ->
    fst (run_layer tr (Sequential (map f (seq s k))) (Some [n; p; h; w])) =
      Some [n; q; Nat.iter k down2 h; Nat.iter k down2 w].
Proof.
  intros Hf k. induction k as [|k IH]; intros s n h w Hk Hpos Hh Hw Ht; [lia|].
  cbn [seq map]. rewrite run_seq_cons.
  assert (Ht1 : tr = false \/ 1 < n * down2 h * down2 w).
  { destruct Ht as [Ht|Ht]; [left; exact Ht|right].
    rewrite !Nat.iter_succ_r in Ht.
    destruct (iter_down2_le k (down2 h)) as [_ A]; [apply down2_le; lia|].
    destruct (iter_down2_le k (down2 w)) as [_ B]; [apply down2_le; lia|].
    eapply bn_train_mono; [exact A | exact B | exact Ht]. }
  rewrite Hf by (lia || exact Ht1).
  destruct k as [|k].
  - replace (s =? K - 1) with true by (symmetry; apply Nat.eqb_eq; lia). reflexivity.
  - replace (s =? K - 1) with false by (symmetry; apply Nat.eqb_neq; lia).
    rewrite (Nat.iter_succ_r (S k) _ down2 h), (Nat.iter_succ_r (S k) _ down2 w).
    apply IH; try lia; try (apply down2_le; lia).
    rewrite <- !Nat.iter_succ_r. exact Ht.
Qed.

Lemma make_transition_layer_nth pre cur i : i < length cur ->
  nth i (make_transition_layer pre cur) None =
  (let npre := length pre in
   let ci := nth i cur 0 in
   if i <? npre then
     let pi := nth i pre 0 in
     if negb (Nat.eqb ci pi) then
       Some (Sequential [Conv2d pi ci 3 1 1 false; BN ci (1 # 10); ReLU])
     else None
   else
     Some (Sequential
       (map (fun j =>
               let inchannels := last pre 0 in
               let outchannels := if Nat.eqb j (i - npre) then ci else inchannels in
               Sequential [Conv2d inchannels outchannels 3 2 1 false;
                           BN outchannels (1 # 10); ReLU])
            (seq 0 (i + 1 - npre))))).
Proof.
  intro Hi. unfold make_transition_layer.
  exact (nth_map_seq (fun i => _) (length cur) i None Hi).
Qed.

(** [_make_transition_layer] (lines 254-287): one entry per branch of the
    next stage.  For an existing branch [i] the entry is [None] exactly
    when the channel counts agree, and otherwise maps [(n, pre[i], h, w)]
    to [(n, cur[i], h, w)].  For a new branch [i] (when [pre] is not empty)
    the entry is a chain of [i + 1 - len(pre)] stride-2 convolutions from
    the last previous branch: it maps [(n, pre[-1], h, w)] to
    [(n, cur[i], h', w')], [h] and [w] halved (rounding up) that many
    times.  In training mode [BatchNorm2d] needs more than one value per
    channel. *)
Theorem transition_layer_shapes (tr : bool) (pre cur : list nat) :
  length (make_transition_layer pre cur) = length cur /\
  forall i, i < length cur ->
    (i < length pre ->
       (nth i (make_transition_layer pre cur) None = None <-> nth i cur 0 = nth i pre 0) /\
       forall l n h w, nth i (make_transition_layer pre cur) None = Some l ->
         1 <= h -> 1 <= w -> (tr = false \/ 1 < n * h * w) ->
         fst (run_layer tr l (Some [n; nth i pre 0; h; w])) = Some [n; nth i cur 0; h; w]) /\
    (pre <> [] -> length pre <= i ->
       exists l, nth i (make_transition_layer pre cur) None = Some l /\
       forall n h w, 1 <= h -> 1 <= w ->
         (tr = false \/
          1 < n * Nat.iter (i + 1 - length pre) down2 h * Nat.iter (i + 1 - length pre) down2 w) ->
         fst (run_layer tr l (Some [n; last pre 0; h; w])) =
           Some [n; nth i cur 0; Nat.iter (i + 1 - length pre) down2 h;
                 Nat.iter (i + 1 - length pre) down2 w]).
Proof.
  split; [unfold make_transition_layer; rewrite length_map, length_seq; reflexivity|].
  intros i Hi. rewrite make_transition_layer_nth by exact Hi. cbv zeta. split.
  - intro Hp. replace (i <? length pre) with true by (symmetry; apply Nat.ltb_lt; exact Hp).
    split.
    + destruct (Nat.eqb_spec (nth i cur 0) (nth i pre 0)); simpl; split; intro E;
        try discriminate; auto; contradiction.
    + intros l n h w E Hh Hw Ht.
      destruct (negb (nth i cur 0 =? nth i pre 0)); [|discriminate]. injection E as <-.
      unfold BN. rewrite run_seq_cons, conv_ok by (apply conv_out_3x3; lia).
      rewrite !out_size_1 by lia. rewrite run_seq_cons, bn_ok by exact Ht. reflexivity.
  - intros Hne Hp. replace (i <? length pre) with false by (symmetry; apply Nat.ltb_ge; exact Hp).
    eexists. split; [reflexivity|]. intros n h w Hh Hw Ht.
    apply (down_chain tr _ (last pre 0) (nth i cur 0) (i + 1 - length pre)); try lia; auto.
    intros j n' h' w' Hj Hh' Hw' Ht'.
    replace (i + 1 - length pre - 1) with (i - length pre) by lia.
    unfold BN. rewrite run_seq_cons, conv_s2_ok by assumption.
    rewrite run_seq_cons, bn_ok by exact Ht'.
    destruct (j =? i - length pre); reflexivity.
Qed.

(** [_make_fuse_layers] (lines 178-221), when it builds fuse layers: there
    are [num_branches] rows ([1] when [multi_scale_output] is false);
    entry [(i, i)] is [None]; for [j > i] entry [(i, j)] maps
    [(n, nin[j], b, v)] to [(n, nin[i], b * 2^(j-i), v * 2^(j-i))]; for
    [j < i] it maps [(n, nin[j], b * 2^(i-j), v * 2^(i-j))] to
    [(n, nin[i], b, v)]. *)
Theorem fuse_layer_shapes (tr : bool) (nb : nat) (ms : bool) (nin : list nat) fl :
  make_fuse_layers nb ms nin = Some fl ->
  length fl = (if ms then nb else 1) /\
  forall i j, i < length fl -> j < nb ->
    (j = i -> nth j (nth i fl []) None = None) /\
    (i < j -> exists l, nth j (nth i fl []) None = Some l /\
       forall n b v, 1 <= b -> 1 <= v -> (tr = false \/ 1 < n * b * v) ->
         fst (run_layer tr l (Some [n; nth j nin 0; b; v])) =
           Some [n; nth i nin 0; b * 2 ^ (j - i); v * 2 ^ (j - i)]) /\
    (j < i -> exists l, nth j (nth i fl []) None = Some l /\
       forall n b v, 1 <= b -> 1 <= v -> (tr = false \/ 1 < n * b * v) ->
         fst (run_layer tr l (Some [n; nth j nin 0; b * 2 ^ (i - j); v * 2 ^ (i - j)])) =
           Some [n; nth i nin 0; b; v]).
Proof.
  unfold make_fuse_layers. destruct (Nat.eqb nb 1); [discriminate|]. intro E.
  injection E as <-. rewrite length_map, length_seq. split; [reflexivity|].
  intros i j Hi Hj.
  rewrite (nth_map_seq (fun i => map (fun j => fuse_entry nin i j) (seq 0 nb))) by exact Hi.
  rewrite (nth_map_seq (fun j => fuse_entry nin i j)) by exact Hj.
  unfold fuse_entry, BN. split; [|split].
  - intros ->. rewrite Nat.ltb_irrefl, Nat.eqb_refl. reflexivity.
  - intro Hij. replace (i <? j) with true by (symmetry; apply Nat.ltb_lt; exact Hij).
    eexists. split; [reflexivity|]. intros n b v Hb Hv Ht.
    rewrite run_seq_cons, conv_ok by (apply conv_out_1x1; lia).
    rewrite !out_size_1 by lia. rewrite run_seq_cons, bn_ok by exact Ht. reflexivity.
  - intro Hij. replace (i <? j) with false by (symmetry; apply Nat.ltb_ge; lia).
    replace (Nat.eqb j i) with false by (symmetry; apply Nat.eqb_neq; lia).
    eexists. split; [reflexivity|]. intros n b v Hb Hv Ht.
    assert (P : 1 <= 2 ^ (i - j)) by (pose proof (Nat.pow_nonzero 2 (i - j)); lia).
    rewrite (down_chain tr _ (nth j nin 0) (nth i nin 0) (i - j)); try lia.
    + rewrite !iter_down2_pow by assumption. reflexivity.
    + intros k n' h' w' Hk Hh' Hw' Ht'.
      destruct (Nat.eqb_spec k (i - j - 1)); cbv beta.
      * rewrite run_seq_cons, conv_s2_ok by assumption.
        rewrite run_seq_cons, bn_ok by exact Ht'. reflexivity.
      * rewrite run_seq_cons, conv_s2_ok by assumption.
        rewrite run_seq_cons, bn_ok by exact Ht'. reflexivity.
    + rewrite !iter_down2_pow by assumption. exact Ht.
Qed.




Lemma fold_opt_rel {S1 S2 A} (RS : S1 -> S2 -> Prop)
    (f : S1 -> A -> option S1) (g : S2 -> A -> option S2) (l : list A) :
  (forall a s1 s2, RS s1 s2 -> orel RS (f s1 a) (g s2 a)) ->
  forall s1 s2, RS s1 s2 -> orel RS (fold_opt f l s1) (fold_opt g l s2).
Proof.
  intro Hfg. induction l as [|a l IH]; intros s1 s2 Hs; simpl; [exact Hs|].
  specialize (Hfg a s1 s2 Hs).
  destruct (f s1 a) as [t1|], (g s2 a) as [t2|]; simpl in Hfg |- *; try contradiction; auto.
Qed.

Lemma Forall2_nth_error {A B} (R : A -> B -> Prop) l1 l2 i :
  Forall2 R l1 l2 -> orel R (nth_error l1 i) (nth_error l2 i).
Proof.
  intro F. revert i. induction F as [|a b l1 l2 Hab F IH]; intros [|i]; simpl; auto.
Qed.

Lemma Forall2_set_at {A B} (R : A -> B -> Prop) l1 l2 i a b :
  Forall2 R l1 l2 -> R a b -> Forall2 R (set_at i a l1) (set_at i b l2).
Proof.
  intros F Hab. revert i. induction F as [|x y l1 l2 Hxy F IH]; intros [|i]; simpl;
    constructor; auto.
Qed.

Lemma Forall2_rev' {A B} (R : A -> B -> Prop) l1 l2 :
  Forall2 R l1 l2 -> Forall2 R (rev l1) (rev l2).
Proof.
  induction 1; simpl; [constructor|]. apply Forall2_app; [assumption|]. repeat constructor; auto.
Qed.

Section Batch.
Variable n : nat.
Hypothesis Hn : 1 <= n.

Local Abbreviation R := (batch_rel n).

Ltac rel_solve :=
  repeat match goal with
  | H : batch_rel _ _ _ |- _ =>
      let r := fresh "r" in
      destruct H as [->|(r & -> & ->)]
  end.

Lemma rel_none y : R None y.
Proof. left; reflexivity. Qed.

Lemma rel_some r : R (Some (1 :: r)) (Some (n :: r)).
Proof. right; eauto. Qed.

Lemma rel_conv cin cout k s p x y : R x y -> R (shape_conv cin cout k s p x) (shape_conv cin cout k s p y).
Proof.
  intro Hr. rel_solve; [apply rel_none|]. unfold shape_conv.
  destruct r as [|c [|h [|w [|? ?]]]]; try apply rel_none.
  destruct (c =? cin); [|apply rel_none].
  destruct (conv_out h k s p), (conv_out w k s p); try apply rel_none. apply rel_some.
Qed.

Lemma rel_bn tr c x y : R x y -> R (shape_bn tr c x) (shape_bn tr c y).
Proof.
  intro Hr. rel_solve; [apply rel_none|]. unfold shape_bn.
  destruct r as [|c' [|h [|w [|? ?]]]]; try apply rel_none.
  destruct (Nat.eqb c c'); simpl; [|apply rel_none].
  destruct tr; simpl; [|apply rel_some].
  destruct (Nat.ltb_spec 1 ((h + 0) * w)); [|apply rel_none].
  replace (1 <? n * h * w) with true; [apply rel_some|].
  symmetry. apply Nat.ltb_lt. nia.
Qed.

Lemma rel_add a1 b1 a2 b2 : R a1 b1 -> R a2 b2 ->
  R (@d_add shape_t _ a1 a2) (@d_add shape_t _ b1 b2).
Proof.
  intros H1 H2. rel_solve; simpl; try apply rel_none.
  destruct (bcast _ _); [|apply rel_none]. rewrite Nat.eqb_refl. apply rel_some.
Qed.

Lemma rel_iadd a1 b1 a2 b2 : R a1 b1 -> R a2 b2 ->
  R (@d_iadd shape_t _ a1 a2) (@d_iadd shape_t _ b1 b2).
Proof.
  intros H1 H2. rel_solve; simpl; try apply rel_none.
  rewrite Nat.eqb_refl. destruct (bcast_into _ _); [apply rel_some | apply rel_none].
Qed.

Lemma rel_upsample s x y : R x y -> R (@d_upsample shape_t _ s x) (@d_upsample shape_t _ s y).
Proof.
  intro Hr. rel_solve; [apply rel_none|]. simpl.
  destruct r as [|c [|h [|w [|? ?]]]]; try apply rel_none. apply rel_some.
Qed.

Lemma rel_pow q x y : R x y -> R (@d_pow_ch0 shape_t _ q x) (@d_pow_ch0 shape_t _ q y).
Proof.
  intro Hr. rel_solve; [apply rel_none|]. simpl.
  destruct r as [|c r]; [apply rel_none|]. destruct c; [apply rel_none | apply rel_some].
Qed.

Lemma rel_cat2 a1 b1 a2 b2 : R a1 b1 -> R a2 b2 ->
  R (@d_cat1 shape_t _ [a1; a2]) (@d_cat1 shape_t _ [b1; b2]).
Proof.
  intros [->|(r1 & -> & ->)] [->|(r2 & -> & ->)]; simpl; try apply rel_none;
    [destruct r1 as [|c1 r1]; apply rel_none|].
  destruct r1 as [|c1 r1]; [apply rel_none|]. destruct r2 as [|c2 r2]; [apply rel_none|].
  rewrite Nat.eqb_refl. simpl. destruct (list_nat_eqb r1 r2); [apply rel_some | apply rel_none].
Qed.

Lemma BHWC_shape_head {A} (f : list nat -> A) b r :
  exists r', shape (BHWC_to_BCHW (mk_tensor (b :: r) f)) = b :: r' /\
    forall b', shape (BHWC_to_BCHW (mk_tensor (b' :: r) f)) = b' :: r'.
Proof.
  destruct r as [|x r].
  - exists []. split; [reflexivity | intro b'; reflexivity].
  - destruct (exists_last (l := x :: r) ltac:(discriminate)) as (l & c & E). rewrite E.
    exists (c :: l). split; [apply BHWC_shape_at | intro b'; apply BHWC_shape_at].
Qed.

Lemma rel_input x y : R x y -> R (@d_input shape_t _ x) (@d_input shape_t _ y).
Proof.
  intro Hr. rel_solve; [apply rel_none|]. simpl. unfold normalize_input, t_map. cbn [shape].
  destruct (BHWC_shape_head (fun _ : list nat => 0%Q) 1 r) as (r' & E1 & E2).
  rewrite E1, E2. apply rel_some.
Qed.

Lemma rel_repeat (cm : tensor fval) x y : hd 1 (shape cm) = 1 -> R x y ->
  R (@d_repeat_batch shape_t _ (d_const cm) x) (@d_repeat_batch shape_t _ (d_const cm) y).
Proof.
  intros Hc Hr. rel_solve; [simpl; destruct (shape cm) as [|? [|? [|? [|? [|? ?]]]]]; apply rel_none|].
  simpl. destruct (shape cm) as [|c0 [|c1 [|c2 [|c3 [|? ?]]]]]; try apply rel_none.
  simpl in Hc. subst c0. rewrite !Nat.mul_1_l. apply rel_some.
Qed.

Lemma rel_run_layer tr (l : layer) : forall x y, R x y ->
  R (fst (run_layer tr l x)) (fst (run_layer tr l y)) /\ snd (run_layer tr l x) = snd (run_layer tr l y).
Proof.
  assert (Hseq : forall ls, Forall (fun l => forall x y, R x y ->
            R (fst (run_layer tr l x)) (fst (run_layer tr l y)) /\
            snd (run_layer tr l x) = snd (run_layer tr l y)) ls ->
          forall x y, R x y ->
            R (fst (run_layer tr (Sequential ls) x)) (fst (run_layer tr (Sequential ls) y)) /\
            snd (run_layer tr (Sequential ls) x) = snd (run_layer tr (Sequential ls) y)).
  { intros ls F. induction F as [|l0 ls Hl Hls IH]; intros x y Hr; [split; [exact Hr | reflexivity]|].
    destruct (Hl x y Hr) as [A1 A2]. destruct (IH _ _ A1) as [B1 B2].
    rewrite !run_seq_cons, !run_seq_snd, A2, B2. split; [exact B1 | reflexivity]. }
  induction l using layer_ind'; intros x y Hr.
  - split; [apply rel_conv; exact Hr | reflexivity].
  - rewrite !run_bn. split.
    + destruct tr; apply rel_bn; exact Hr.
    + destruct tr; reflexivity.
  - split; [exact Hr | reflexivity].
  - split; [apply rel_upsample; exact Hr | reflexivity].
  - apply Hseq; assumption.
  - destruct (Hseq body H x y Hr) as [S1 S2].
    rewrite !run_block, !run_block_snd, S2. split.
    + apply rel_iadd; [exact S1|]. destruct ds as [d|]; [apply (H0 d eq_refl); exact Hr | exact Hr].
    + destruct ds as [d|]; [|reflexivity]. cbn [option_map].
      rewrite (proj2 (H0 d eq_refl x y Hr)). reflexivity.
Qed.
Lemma orel_bind {A B C D} (RA : A -> B -> Prop) (RC : C -> D -> Prop)
    (a : option A) (b : option B) (f : A -> option C) (g : B -> option D) :
  orel RA a b -> (forall x y, RA x y -> orel RC (f x) (g y)) ->
  orel RC (match a with Some x => f x | None => None end)
          (match b with Some y => g y | None => None end).
Proof. destruct a, b; simpl; intros; try contradiction; auto. Qed.

Lemma rel_call_entry tr row j x y : R x y ->
  orel (prel R) (call_entry tr row j x) (call_entry tr row j y).
Proof.
  intro Hr. unfold call_entry. destruct (nth_error row j) as [[l|]|]; simpl; auto.
  destruct (rel_run_layer tr l x y Hr) as [A1 A2].
  destruct (run_layer tr l x) as [y1 l1], (run_layer tr l y) as [y2 l2].
  cbn [fst snd] in *. subst. split; [exact A1 | reflexivity].
Qed.

Lemma rel_fuse_row_step tr i xs1 xs2 st1 st2 j : Forall2 R xs1 xs2 -> prel R st1 st2 ->
  orel (prel R) (fuse_row_step tr i xs1 st1 j) (fuse_row_step tr i xs2 st2 j).
Proof.
  intro F. destruct st1 as [y1 row1], st2 as [y2 row2]. intros [P1 P2].
  cbn [fst snd] in *. subst row2. unfold fuse_row_step. cbv beta iota.
  apply (orel_bind R); [apply Forall2_nth_error; exact F|]. intros a1 a2 O.
  destruct (i =? j); [split; [apply rel_add; assumption | reflexivity]|].
  apply (orel_bind (prel R)); [apply rel_call_entry; exact O|].
  intros [z1 r1] [z2 r2] [C1 C2]. cbn [fst snd] in *. subst r2.
  split; [apply rel_add; assumption | reflexivity].
Qed.

Lemma rel_fuse_row tr nb i row xs1 xs2 : Forall2 R xs1 xs2 ->
  orel (prel R) (fuse_row tr nb i row xs1) (fuse_row tr nb i row xs2).
Proof.
  intro F. unfold fuse_row.
  apply (orel_bind R); [apply Forall2_nth_error; exact F|]. intros a1 a2 O.
  apply (orel_bind (prel R)).
  { destruct (i =? 0); [split; [exact O | reflexivity] | apply rel_call_entry; exact O]. }
  intros s1 s2 S. apply fold_opt_rel; [|exact S].
  intros j t1 t2 Ht. apply rel_fuse_row_step; assumption.
Qed.

Lemma rel_branch_step tr st1 st2 i : prel (Forall2 R) st1 st2 ->
  orel (prel (Forall2 R)) (branch_step tr st1 i) (branch_step tr st2 i).
Proof.
  destruct st1 as [xs1 b1], st2 as [xs2 b2]. intros [F E]. cbn [fst snd] in *. subst b2.
  unfold branch_step. cbv beta iota.
  destruct (nth_error b1 i) as [b|]; [|exact I].
  apply (orel_bind R); [apply Forall2_nth_error; exact F|]. intros x y Hr.
  destruct (rel_run_layer tr b x y Hr) as [A1 A2].
  destruct (run_layer tr b x) as [y1 l1], (run_layer tr b y) as [y2 l2].
  cbn [fst snd] in *. subst. split; [apply Forall2_set_at; assumption | reflexivity].
Qed.

Lemma rel_fuse_step tr nb xs1 xs2 st1 st2 i : Forall2 R xs1 xs2 -> prel (Forall2 R) st1 st2 ->
  orel (prel (Forall2 R)) (fuse_step tr nb xs1 st1 i) (fuse_step tr nb xs2 st2 i).
Proof.
  intro F. destruct st1 as [a1 f1], st2 as [a2 f2]. intros [G E]. cbn [fst snd] in *. subst f2.
  unfold fuse_step. cbv beta iota.
  destruct (nth_error f1 i) as [row|]; [|exact I].
  apply (orel_bind (prel R)); [apply rel_fuse_row; exact F|].
  intros [y1 r1] [y2 r2] [P1 P2]. cbn [fst snd] in *. subst r2.
  split; [apply Forall2_app; [exact G | constructor; [exact P1 | constructor]] | reflexivity].
Qed.

Lemma rel_hm_forward tr m xs1 xs2 : Forall2 R xs1 xs2 ->
  orel (prel (Forall2 R)) (hm_forward tr m xs1) (hm_forward tr m xs2).
Proof.
  intro F. unfold hm_forward. cbv zeta. destruct (hm_num_branches m =? 1).
  - destruct (nth_error (hm_branches m) 0) as [b0|]; [|exact I].
    apply (orel_bind R); [apply Forall2_nth_error; exact F|]. intros x y Hr.
    destruct (rel_run_layer tr b0 x y Hr) as [A1 A2].
    destruct (run_layer tr b0 x) as [y1 l1], (run_layer tr b0 y) as [y2 l2].
    cbn [fst snd] in *. subst. split; [constructor; [exact A1 | constructor] | reflexivity].
  - apply (orel_bind (prel (Forall2 R))).
    { apply fold_opt_rel; [intros; apply rel_branch_step; assumption | split; [exact F | reflexivity]]. }
    intros [ys1 brs1] [ys2 brs2] [G E]. cbn [fst snd] in *. subst brs2.
    destruct (hm_fuse_layers m) as [fl|]; [|exact I].
    apply (orel_bind (prel (Forall2 R))).
    { apply fold_opt_rel; [intros; apply rel_fuse_step; assumption | split; [constructor | reflexivity]]. }
    intros [o1 f1] [o2 f2] [P E]. cbn [fst snd] in *. subst f2. split; [exact P | reflexivity].
Qed.

Lemma rel_run_modules tr ms : forall xs1 xs2, Forall2 R xs1 xs2 ->
  orel (prel (Forall2 R)) (run_modules tr ms xs1) (run_modules tr ms xs2).
Proof.
  induction ms as [|m ms IH]; intros xs1 xs2 F; simpl; [split; [exact F | reflexivity]|].
  apply (orel_bind (prel (Forall2 R))); [apply rel_hm_forward; exact F|].
  intros [ys1 m1] [ys2 m2] [G E]. cbn [fst snd] in *. subst m2.
  apply (orel_bind (prel (Forall2 R))); [apply IH; exact G|].
  intros [z1 q1] [z2 q2] [H1 H2]. cbn [fst snd] in *. subst q2. split; [exact H1 | reflexivity].
Qed.

Lemma rel_run_transition tr tl nbr src1 src2 fb1 fb2 :
  orel R src1 src2 -> (forall i, orel R (fb1 i) (fb2 i)) ->
  orel (prel (Forall2 R)) (run_transition tr tl nbr src1 fb1) (run_transition tr tl nbr src2 fb2).
Proof.
  intros S Fb. unfold run_transition. apply fold_opt_rel; [|split; [constructor | reflexivity]].
  intros i [xl1 t1] [xl2 t2] [G E]. cbn [fst snd] in *. subst t2. cbv beta iota.
  destruct (nth_error t1 i) as [[l|]|]; [| |exact I].
  - apply (orel_bind R); [exact S|]. intros s1 s2 Hs.
    destruct (rel_run_layer tr l s1 s2 Hs) as [A1 A2].
    destruct (run_layer tr l s1) as [y1 l1], (run_layer tr l s2) as [y2 l2].
    cbn [fst snd] in *. subst.
    split; [apply Forall2_app; [exact G | constructor; [exact A1 | constructor]] | reflexivity].
  - apply (orel_bind R); [apply Fb|]. intros a b Hab.
    split; [apply Forall2_app; [exact G | constructor; [exact Hab | constructor]] | reflexivity].
Qed.

Lemma rel_last_opt l1 l2 : Forall2 R l1 l2 -> orel R (last_opt l1) (last_opt l2).
Proof.
  intro F. apply Forall2_rev' in F. unfold last_opt.
  destruct (rev l1), (rev l2); inversion F; simpl; auto.
Qed.

Lemma rel_hrnet_forward tr net x y : R x y ->
  orel (prel R) (hrnet_forward tr net x) (hrnet_forward tr net y).
Proof.
  intro Hr. unfold hrnet_forward. cbv zeta.
  destruct (rel_run_layer tr (conv1 net) _ _ (rel_input _ _ Hr)) as [A1 E1].
  destruct (run_layer tr (conv1 net) (d_input x)) as [x1 c1],
           (run_layer tr (conv1 net) (d_input y)) as [y1 c1'].
  cbn [fst snd] in A1, E1. subst c1'.
  destruct (rel_run_layer tr (bn1 net) _ _ A1) as [A2 E2].
  destruct (run_layer tr (bn1 net) x1) as [x2 b1], (run_layer tr (bn1 net) y1) as [y2 b1'].
  cbn [fst snd] in A2, E2. subst b1'.
  destruct (rel_run_layer tr (conv2 net) (@d_relu shape_t shape_domain x2) (@d_relu shape_t shape_domain y2) A2) as [A3 E3].
  destruct (run_layer tr (conv2 net) (d_relu x2)) as [x3 c2],
           (run_layer tr (conv2 net) (d_relu y2)) as [y3 c2'].
  cbn [fst snd] in A3, E3. subst c2'.
  destruct (rel_run_layer tr (bn2 net) _ _ A3) as [A4 E4].
  destruct (run_layer tr (bn2 net) x3) as [x4 b2], (run_layer tr (bn2 net) y3) as [y4 b2'].
  cbn [fst snd] in A4, E4. subst b2'.
  destruct (rel_run_layer tr (layer1 net) (@d_relu shape_t shape_domain x4) (@d_relu shape_t shape_domain y4) A4) as [A5 E5].
  destruct (run_layer tr (layer1 net) (d_relu x4)) as [x5 l1],
           (run_layer tr (layer1 net) (d_relu y4)) as [y5 l1'].
  cbn [fst snd] in A5, E5. subst l1'.
  apply (orel_bind (prel (Forall2 R))); [apply rel_run_transition; [exact A5 | intros; exact A5]|].
  intros [xl1 t1] [xl2 t1'] [G1 F1]. cbn [fst snd] in *. subst t1'.
  apply (orel_bind (prel (Forall2 R))); [apply rel_run_modules; exact G1|].
  intros [yl1 s2] [yl2 s2'] [G2 F2]. cbn [fst snd] in *. subst s2'.
  apply (orel_bind (prel (Forall2 R))).
  { apply rel_run_transition; [apply rel_last_opt; exact G2 | intro; apply Forall2_nth_error; exact G2]. }
  intros [xl3 t2] [xl4 t2'] [G3 F3]. cbn [fst snd] in *. subst t2'.
  apply (orel_bind (prel (Forall2 R))); [apply rel_run_modules; exact G3|].
  intros [yl3 s3] [yl4 s3'] [G4 F4]. cbn [fst snd] in *. subst s3'.
  apply (orel_bind (prel (Forall2 R))).
  { apply rel_run_transition; [apply rel_last_opt; exact G4 | intro; apply Forall2_nth_error; exact G4]. }
  intros [xl5 t3] [xl6 t3'] [G5 F5]. cbn [fst snd] in *. subst t3'.
  apply (orel_bind (prel (Forall2 R))); [apply rel_run_modules; exact G5|].
  intros [yl5 s4] [yl6 s4'] [G6 F6]. cbn [fst snd] in *. subst s4'.
  apply (orel_bind R); [apply Forall2_nth_error; exact G6|].
  intros a b Hab. split; [exact Hab | reflexivity].
Qed.

Lemma rel_romp_forward m x y : hd 1 (shape (coordmaps m)) = 1 -> R x y ->
  orel (fun a b => R (fst (fst a)) (fst (fst b)) /\ R (snd (fst a)) (snd (fst b)) /\ snd a = snd b)
       (romp_forward m x) (romp_forward m y).
Proof.
  intros Hc Hr. unfold romp_forward. cbv zeta.
  apply (orel_bind (prel R)); [apply rel_hrnet_forward; exact Hr|].
  intros [x1 b1] [x2 b2] [A E]. cbn [fst snd] in *. subst b2.
  pose proof (rel_cat2 _ _ _ _ A (rel_repeat (coordmaps m) _ _ Hc A)) as C.
  apply (orel_bind (prel R)); [apply rel_call_entry; exact C|].
  intros [p1 f1] [p2 f1'] [P E]. cbn [fst snd] in *. subst f1'.
  apply (orel_bind (prel R)); [apply rel_call_entry; exact C|].
  intros [c1 f2] [c2 f2'] [Q E]. cbn [fst snd] in *. subst f2'.
  apply (orel_bind (prel R)); [apply rel_call_entry; exact C|].
  intros [k1 f3] [k2 f3'] [K E]. cbn [fst snd] in *. subst f3'.
  split; [exact Q | split; [apply rel_cat2; [apply rel_pow; exact K | exact P] | reflexivity]].
Qed.
End Batch.

(** [ROMPv1.forward] (lines 470-481) and [HigherResolutionNet.forward]
    (lines 382-417) in the shape domain, in either mode, for every batch
    size [n >= 1]: if a [(1, H, W, C)] image gives maps [(1, c...)] and
    [(1, p...)], a [(n, H, W, C)] image gives [(n, c...)] and [(n, p...)]
    and the same model state.  In particular [(n, 512, 512, 3)] gives
    [(n, 1, 64, 64)] and [(n, 145, 64, 64)]. *)
Theorem romp_forward_batch (tr : bool) (n : nat) (Hn : 1 <= n) :
  match ROMPv1 with
  | Some m =>
      (forall H W C c p m1,
         romp_forward (T := shape_t) (set_training tr m) (Some [1; H; W; C]) =
           Some ((Some (1 :: c), Some (1 :: p)), m1) ->
         romp_forward (T := shape_t) (set_training tr m) (Some [n; H; W; C]) =
           Some ((Some (n :: c), Some (n :: p)), m1)) /\
      exists m1, romp_forward (T := shape_t) (set_training tr m) (Some [n; 512; 512; 3]) =
        Some ((Some [n; 1; 64; 64], Some [n; 145; 64; 64]), m1)
  | None => False
  end.
Proof.
  assert (K : match ROMPv1 with
              | Some m => hd 1 (shape (coordmaps (set_training tr m))) = 1 /\
                  exists m1, romp_forward (T := shape_t) (set_training tr m) (Some [1; 512; 512; 3]) =
                    Some ((Some [1; 1; 64; 64], Some [1; 145; 64; 64]), m1)
              | None => False
              end) by (destruct tr; vm_compute; (split; [reflexivity | eexists; reflexivity])).
  destruct ROMPv1 as [m|]; [|contradiction]. destruct K as [Hc (m1 & E1)].
  assert (G : forall H W C c p m1,
         romp_forward (T := shape_t) (set_training tr m) (Some [1; H; W; C]) =
           Some ((Some (1 :: c), Some (1 :: p)), m1) ->
         romp_forward (T := shape_t) (set_training tr m) (Some [n; H; W; C]) =
           Some ((Some (n :: c), Some (n :: p)), m1)).
  { intros H W C c p m' E.
    pose proof (rel_romp_forward n Hn (set_training tr m) (Some [1; H; W; C]) (Some [n; H; W; C])
                  Hc (rel_some n [H; W; C])) as O.
    rewrite E in O.
    destruct (romp_forward (T := shape_t) (set_training tr m) (Some [n; H; W; C])) as [[[a b] m2]|];
      simpl in O; [|contradiction].
    destruct O as ([O1|(r & O1 & ->)] & [O2|(r' & O2 & ->)] & O3); try discriminate.
    injection O1 as <-. injection O2 as <-. subst m2. reflexivity. }
  split; [exact G | exists m1; apply G; exact E1].
Qed.

Lemma romp_forward_batch_witness :
  1 <= 4 /\
  match ROMPv1 with
  | Some m =>
      (forall H W C c p m1,
         romp_forward (T := shape_t) (set_training false m) (Some [1; H; W; C]) =
           Some ((Some (1 :: c), Some (1 :: p)), m1) ->
         romp_forward (T := shape_t) (set_training false m) (Some [4; H; W; C]) =
           Some ((Some (4 :: c), Some (4 :: p)), m1)) /\
      exists m1, romp_forward (T := shape_t) (set_training false m) (Some [4; 512; 512; 3]) =
        Some ((Some [4; 1; 64; 64], Some [4; 145; 64; 64]), m1)
  | None => False
  end.
Proof. split; [lia|]. apply (romp_forward_batch false 4). lia. Defined.

Lemma fuse_layer_shapes_witness :
  exists fl, make_fuse_layers 3 true [4; 8; 16] = Some fl /\
  length fl = 3 /\
  forall i j, i < length fl -> j < 3 ->
    (j = i -> nth j (nth i fl []) None = None) /\
    (i < j -> exists l, nth j (nth i fl []) None = Some l /\
       forall n b v, 1 <= b -> 1 <= v -> (true = false \/ 1 < n * b * v) ->
         fst (run_layer true l (Some [n; nth j [4; 8; 16] 0; b; v])) =
           Some [n; nth i [4; 8; 16] 0; b * 2 ^ (j - i); v * 2 ^ (j - i)]) /\
    (j < i -> exists l, nth j (nth i fl []) None = Some l /\
       forall n b v, 1 <= b -> 1 <= v -> (true = false \/ 1 < n * b * v) ->
         fst (run_layer true l (Some [n; nth j [4; 8; 16] 0; b * 2 ^ (i - j); v * 2 ^ (i - j)])) =
           Some [n; nth i [4; 8; 16] 0; b; v]).
Proof.
  eexists. split; [reflexivity|].
  apply (fuse_layer_shapes true 3 true [4; 8; 16]). reflexivity.
Defined.

Lemma run_layer_none tr (l : layer) : fst (run_layer (T := shape_t) tr l None) = None.
Proof.
  induction l using layer_ind'.
  - reflexivity.
  - rewrite run_bn. destruct tr; reflexivity.
  - reflexivity.
  - reflexivity.
  - induction H as [|l ls Hl _ IH]; [reflexivity|]. rewrite run_seq_cons, Hl. exact IH.
  - rewrite run_block. assert (S : fst (run_layer (T := shape_t) tr (Sequential body) None) = None).
    { clear H0. induction H as [|l ls Hl _ IH]; [reflexivity|]. rewrite run_seq_cons, Hl. exact IH. }
    rewrite S. destruct ds; reflexivity.
Qed.

Lemma run_seq_nil tr (x : shape_t) : fst (run_layer tr (Sequential []) x) = x.
Proof. reflexivity. Qed.

(** [_make_head_layers] (lines 445-468): a head built for [ic] input
    channels and [oc] outputs maps [(n, ic, h, w)] to [(n, oc, h', w')]
    with [h' = (h - 1) // 2 + 1] and [w' = (w - 1) // 2 + 1] (its first
    convolution has stride 2, its basic blocks keep the shape), and fails
    on any other number of input channels. *)
Theorem head_layers_shape (tr : bool) (ic oc n c h w : nat) :
  1 <= h -> 1 <= w -> (tr = false \/ 1 < n * down2 h * down2 w) ->
  fst (run_layer tr (make_head_layers ic oc) (Some [n; c; h; w])) =
    if c =? ic then Some [n; oc; down2 h; down2 w] else None.
Proof.
  intros Hh Hw Ht. unfold make_head_layers, BN. cbv zeta. cbn [map seq].
  repeat rewrite run_seq_cons. rewrite !run_seq_nil.
  destruct (Nat.eqb_spec c ic) as [->|Hc].
  - rewrite conv_s2_ok by assumption. rewrite bn_ok by exact Ht. rewrite relu_ok.
    assert (B : forall a b, 1 <= a -> 1 <= b -> (tr = false \/ 1 < n * a * b) ->
              fst (run_layer tr (BasicBlock 64 64 1 None) (Some [n; 64; a; b])) = Some [n; 64; a; b]).
    { intros a b Ha Hb Hab. pose proof (block_run_shape tr BASIC 64 64 1 n a b ltac:(lia) Ha Hb) as K.
      rewrite !out_size_1 in K by assumption. exact (K Hab). }
    pose proof (down2_le h Hh). pose proof (down2_le w Hw).
    rewrite !B by (assumption || lia). rewrite conv_ok by (apply conv_out_1x1; lia).
    rewrite !out_size_1 by lia. reflexivity.
  - assert (C : fst (run_layer tr (Conv2d ic 64 3 2 1 true) (Some [n; c; h; w])) = None).
    { simpl. unfold shape_conv. apply Nat.eqb_neq in Hc. rewrite Hc. reflexivity. }
    rewrite C. repeat rewrite run_layer_none. reflexivity.
Qed.

Lemma head_layers_shape_witness :
  (1 <= 128 /\ 1 <= 128 /\ (true = false \/ 1 < 2 * down2 128 * down2 128)) /\
  fst (run_layer true (make_head_layers 34 145) (Some [2; 34; 128; 128])) =
    if 34 =? 34 then Some [2; 145; down2 128; down2 128] else None.
Proof.
  split; [split; [lia | split; [lia | right; vm_compute; lia]]|].
  apply head_layers_shape; [lia | lia | right; vm_compute; lia].
Defined.
